(** * A two-pass assembler for a 10-bit word machine: the code, embedded

    This development embeds the C sources of the assembler
    (convertToBase4.c, symbol_table.c, first_pass.c, second_pass.c,
    output_files.c and the per-file body of main.c) as Rocq functions and
    proves properties of them.  The driver is stated for an arbitrary
    macro processor; the two functions of macro_processor.c that main
    calls are embedded on their own, in [MacroProcessor].

    Conventions of the embedding.
    - A C [int] is a [Z]; the only wrap-around the code relies on is the
      mask [value & 0x3FF], written [Z.land value 1023].
    - A C string is a [string]; it holds no NUL character.
    - A linked list is a [list] whose first element is the node the head
      pointer designates.  A pointer returned by [findSymbol] is the first
      node with the given name; a store through it is [update_found].
    - The process-wide flag [g_has_error] is threaded explicitly as a
      [bool].
    - [malloc] succeeds; tokens scanned into the fixed 31-byte buffers fit
      them and decimal literals fit an [int] (anything else is undefined
      behaviour of the C program and outside the model). *)

From Stdlib Require Import ZArith List String Ascii Bool Lia.
Import ListNotations.

Local Open Scope string_scope.
Local Open Scope Z_scope.

(* ================================================================== *)
(** * Part I: the embedding *)
(* ================================================================== *)

(** ** The C library functions the sources call *)

Module CString.

Definition code (c : ascii) : Z := Z.of_N (N_of_ascii c).

(** [isspace], [isdigit], [isalpha], [isalnum] in the "C" locale. *)
Definition isspace (c : ascii) : bool :=
  (code c =? 32) || ((9 <=? code c) && (code c <=? 13)).

Definition isdigit (c : ascii) : bool :=
  (48 <=? code c) && (code c <=? 57).

Definition isalpha (c : ascii) : bool :=
  ((65 <=? code c) && (code c <=? 90)) || ((97 <=? code c) && (code c <=? 122)).

Definition isalnum (c : ascii) : bool := isalpha c || isdigit c.

(** [s[i]]; reading the terminator gives NUL. *)
Definition char_at (s : string) (i : nat) : ascii :=
  match String.get i s with Some c => c | None => Ascii.zero end.

Definition strlen (s : string) : Z := Z.of_nat (String.length s).

(** The pointer [s + n]. *)
Fixpoint advance (n : nat) (s : string) : string :=
  match n, s with
  | S n', String _ r => advance n' r
  | _, _ => s
  end.

(** [strcmp(a, b) == 0] *)
Definition strcmp0 (a b : string) : bool := String.eqb a b.

Fixpoint mem_char (c : ascii) (set : string) : bool :=
  match set with
  | EmptyString => false
  | String d r => Ascii.eqb c d || mem_char c r
  end.

(** [strchr s c]: the suffix of [s] that starts at the first [c]. *)
Fixpoint strchr (s : string) (c : ascii) : option string :=
  match s with
  | EmptyString => None
  | String d r => if Ascii.eqb d c then Some s else strchr r c
  end.

(** [strcspn s reject] as the prefix it measures and the rest. *)
Fixpoint span_reject (s reject : string) : string * string :=
  match s with
  | EmptyString => (EmptyString, EmptyString)
  | String d r =>
      if mem_char d reject then (EmptyString, s)
      else let (a, b) := span_reject r reject in (String d a, b)
  end.

(** [s[strcspn(s, reject)] = '\0']. *)
Definition cut_at (s reject : string) : string := fst (span_reject s reject).

Fixpoint skip_while (p : ascii -> bool) (s : string) : string :=
  match s with
  | EmptyString => EmptyString
  | String d r => if p d then skip_while p r else s
  end.

Fixpoint take_while (p : ascii -> bool) (s : string) : string :=
  match s with
  | EmptyString => EmptyString
  | String d r => if p d then String d (take_while p r) else EmptyString
  end.

(** [strncpy(dst, src, n); dst[n] = '\0']. *)
Fixpoint strncpy (src : string) (n : nat) : string :=
  match n, src with
  | S n', String d r => String d (strncpy r n')
  | _, _ => EmptyString
  end.

Definition digit_val (c : ascii) : Z := code c - 48.

Fixpoint digits_value (s : string) (acc : Z) : Z :=
  match s with
  | EmptyString => acc
  | String d r => digits_value r (10 * acc + digit_val d)
  end.

(** The common core of [atoi], [strtol(.,.,10)] and [sscanf]'s [%d]:
    white space, an optional sign, then decimal digits.  Returns the
    value and the unread rest when at least one digit was read. *)
Definition scan_int (s : string) : option (Z * string) :=
  let s1 := skip_while isspace s in
  let '(neg, s2) :=
    match s1 with
    | String "-" r => (true, r)
    | String "+" r => (false, r)
    | _ => (false, s1)
    end in
  let ds := take_while isdigit s2 in
  match ds with
  | EmptyString => None
  | _ =>
      let v := digits_value ds 0 in
      Some (if neg then - v else v, skip_while isdigit s2)
  end.

Definition atoi (s : string) : Z :=
  match scan_int s with Some (v, _) => v | None => 0 end.

(** [strtol(s, &endptr, 10)]: the value and what [endptr] points at;
    with no digits [endptr] is [s] itself. *)
Definition strtol (s : string) : Z * string :=
  match scan_int s with Some (v, r) => (v, r) | None => (0, s) end.

(** [sscanf(s, "%s%n", buf, &n)]: the token, the number of characters
    consumed and the unread rest; [None] when the return value is not 1
    (the input holds nothing but white space). *)
Definition scan_token (s : string) : option (string * nat * string) :=
  let s1 := skip_while isspace s in
  let tok := take_while (fun c => negb (isspace c)) s1 in
  match tok with
  | EmptyString => None
  | _ =>
      let rest := skip_while (fun c => negb (isspace c)) s1 in
      Some (tok, (String.length s - String.length rest)%nat, rest)
  end.

(** [strtok_r(s, ",", &save)]: the next token, if any, and the new
    [save].  Leading commas are skipped; when nothing is left the token
    is NULL and [save] is the end of the string. *)
Definition strtok_r (s : string) : option string * string :=
  let s1 := skip_while (fun c => Ascii.eqb c ",") s in
  match s1 with
  | EmptyString => (None, EmptyString)
  | _ =>
      let (tok, rest) := span_reject s1 "," in
      (Some tok, match rest with String _ r => r | EmptyString => EmptyString end)
  end.

End CString.

(** ** convertToBase4.c *)

Module Base4.

Definition WORD_SIZE : Z := 10.
Definition BASE4_LENGTH : nat := 5.

(** The [switch (digit)] of [convertToBase4]; it has no default case and
    [digit] is always a two-bit value. *)
Definition base4_char (digit : Z) : ascii :=
  match digit with
  | 0 => "a"
  | 1 => "b"
  | 2 => "c"
  | 3 => "d"
  | _ => Ascii.zero
  end%char.

(** The loop [for (i = BASE4_LENGTH - 1; i >= 0; i--)]: [n] iterations
    remain and [temp[n..]] already holds [filled]. *)
Fixpoint fill_digits (n : nat) (value : Z) (filled : string) : string :=
  match n with
  | O => filled
  | S n' =>
      fill_digits n' (Z.shiftr value 2)
                  (String (base4_char (Z.land value 3)) filled)
  end.

Definition convertToBase4 (value : Z) : string :=
  fill_digits BASE4_LENGTH (Z.land value 1023) EmptyString.

(** The loop skips a leading 'a' as long as another character follows
    it, so that at least one character is kept. *)
Fixpoint stripLeadingA (base4_str : string) : string :=
  match base4_str with
  | String c (String _ _ as rest) =>
      if Ascii.eqb c "a" then stripLeadingA rest else base4_str
  | _ => base4_str
  end.

(** Modelled from the spec: the repository converts to base 4 only; it
    has no decoder.  The reading of a base-4 rendering is the one of the
    data model: alphabet a=0, b=1, c=2, d=3, most significant digit
    first, and a 10-bit word is sign-extended (two's complement). *)
Definition spec_digit_value (c : ascii) : option Z :=
  match c with
  | "a" => Some 0
  | "b" => Some 1
  | "c" => Some 2
  | "d" => Some 3
  | _ => None
  end%char.

(** Modelled from the spec: the digits are read most significant
    first. *)
Fixpoint spec_decode_digits (s : string) (acc : Z) : option Z :=
  match s with
  | EmptyString => Some acc
  | String c r =>
      match spec_digit_value c with
      | Some d => spec_decode_digits r (4 * acc + d)
      | None => None
      end
  end.

(** Modelled from the spec: sign extension from 10 bits. *)
Definition spec_sign_extend10 (w : Z) : Z :=
  if 512 <=? w then w - 1024 else w.

(** Modelled from the spec: the integer a five-digit rendering stands
    for. *)
Definition spec_decode (s : string) : option Z :=
  option_map spec_sign_extend10 (spec_decode_digits s 0).

End Base4.

(** ** assembler.h: constants and records *)

Module Assembler.

Definition MEMORY_START : Z := 100.
Definition MAX_LINE_LENGTH : nat := 81.
Definition MAX_SYMBOL_LENGTH : nat := 31.
Definition BASE4_WORD_LENGTH : nat := 5.

Inductive SymbolType : Type :=
| SYMBOL_CODE
| SYMBOL_DATA
| SYMBOL_EXTERNAL
| SYMBOL_ENTRY.

Definition SymbolType_eqb (a b : SymbolType) : bool :=
  match a, b with
  | SYMBOL_CODE, SYMBOL_CODE
  | SYMBOL_DATA, SYMBOL_DATA
  | SYMBOL_EXTERNAL, SYMBOL_EXTERNAL
  | SYMBOL_ENTRY, SYMBOL_ENTRY => true
  | _, _ => false
  end.

(** [struct Symbol]; [external_usages] is the linked list of
    [ExternalUsage] addresses, head first. *)
Record Symbol : Type := mkSymbol {
  sym_name : string;
  sym_address : Z;
  sym_type : SymbolType;
  external_usages : list Z
}.

Definition SymTab : Type := list Symbol.

(** [struct Instruction]; [operand_words_base4] has four slots. *)
Record Instruction : Type := mkInstruction {
  inst_address : Z;
  original_line_number : Z;
  opcode : string;
  num_operands : Z;
  operand1 : string;
  operand2 : string;
  instruction_length : Z;
  machine_code_base4 : string;
  operand_words_base4 : list string;
  num_operand_words : Z
}.

(** [struct DataItem]; the field [base4_representation] is never used. *)
Record DataItem : Type := mkDataItem {
  data_address : Z;
  data_value : Z
}.

End Assembler.

(** ** first_pass.c: the lexical predicates *)

Module Lexical.
Import CString Assembler.

Definition opcodes : list string :=
  ["mov"; "cmp"; "add"; "sub"; "not"; "clr"; "lea"; "inc"; "dec"; "jmp";
   "bne"; "red"; "prn"; "jsr"; "rts"; "stop"].

Definition is_opcode (s : string) : bool :=
  existsb (fun o => strcmp0 s o) opcodes.

Definition is_register (s : string) : bool :=
  if negb (strlen s =? 2) || negb (Ascii.eqb (char_at s 0) "r")
     || negb (isdigit (char_at s 1))
  then false
  else
    let reg_num := atoi (advance 1 s) in
    (0 <=? reg_num) && (reg_num <=? 7).

Fixpoint all_alnum (s : string) : bool :=
  match s with
  | EmptyString => true
  | String c r => if negb (isalnum c) then false else all_alnum r
  end.

Definition is_valid_label (s : string) : bool :=
  match s with
  | EmptyString => false
  | String c0 r =>
      if Z.of_nat MAX_SYMBOL_LENGTH <=? strlen s then false
      else if negb (isalpha c0) then false
      else all_alnum r
  end.

End Lexical.

(** ** symbol_table.c *)

Module SymbolTable.
Import CString Assembler Lexical.

Fixpoint findSymbol (head : SymTab) (name : string) : option Symbol :=
  match head with
  | [] => None
  | current :: next =>
      if strcmp0 (sym_name current) name then Some current
      else findSymbol next name
  end.

(** A store through the pointer [findSymbol head name] returned: the
    first node named [name] becomes [f] of itself. *)
Fixpoint update_found (head : SymTab) (name : string)
         (f : Symbol -> Symbol) : SymTab :=
  match head with
  | [] => []
  | current :: next =>
      if strcmp0 (sym_name current) name then f current :: next
      else current :: update_found next name f
  end.

Definition set_type (t : SymbolType) (s : Symbol) : Symbol :=
  mkSymbol (sym_name s) (sym_address s) t (external_usages s).

Definition set_address (a : Z) (s : Symbol) : Symbol :=
  mkSymbol (sym_name s) a (sym_type s) (external_usages s).

(** [addSymbol]: the new table and whether the call set [g_has_error]. *)
Definition addSymbol (head : SymTab) (name : string) (address : Z)
           (type : SymbolType) : SymTab * bool :=
  if is_opcode name || is_register name then (head, true)
  else if negb (is_valid_label name) then (head, true)
  else
    match findSymbol head name with
    | Some existingSymbol =>
        match type with
        | SYMBOL_EXTERNAL =>
            match sym_type existingSymbol with
            | SYMBOL_CODE | SYMBOL_DATA => (head, true)
            | SYMBOL_ENTRY => (head, true)
            | SYMBOL_EXTERNAL => (head, false)
            end
        | SYMBOL_ENTRY =>
            match sym_type existingSymbol with
            | SYMBOL_EXTERNAL => (head, true)
            | _ => (update_found head name (set_type SYMBOL_ENTRY), false)
            end
        | SYMBOL_CODE | SYMBOL_DATA =>
            match sym_type existingSymbol with
            | SYMBOL_CODE | SYMBOL_DATA => (head, true)
            | SYMBOL_EXTERNAL => (head, true)
            | SYMBOL_ENTRY =>
                if sym_address existingSymbol =? 0
                then (update_found head name (set_address address), false)
                else (head, true)
            end
        end
    | None =>
        (mkSymbol (strncpy name (MAX_SYMBOL_LENGTH - 1)) address type []
           :: head, false)
    end.

Definition getSymbol (head : SymTab) (name : string) : option Symbol :=
  findSymbol head name.

Definition relocate (icf : Z) (current : Symbol) : Symbol :=
  match sym_type current with
  | SYMBOL_DATA => set_address (sym_address current + icf) current
  | SYMBOL_ENTRY =>
      if sym_address current <? MEMORY_START
      then set_address (sym_address current + icf) current
      else current
  | _ => current
  end.

Definition updateDataSymbolsAddresses (head : SymTab) (icf : Z) : SymTab :=
  map (relocate icf) head.

(** [addExternalUsage] on a non-NULL symbol: the symbol afterwards and
    whether the call set [g_has_error]. *)
Definition addExternalUsage (sym : Symbol) (address : Z) : Symbol * bool :=
  match sym_type sym with
  | SYMBOL_EXTERNAL =>
      (mkSymbol (sym_name sym) (sym_address sym) (sym_type sym)
                (address :: external_usages sym), false)
  | _ => (sym, true)
  end.

End SymbolTable.

(** ** second_pass.c: the encoding tables *)

Module Tables.
Import CString Assembler Lexical.

(** [trim_whitespace]: leading white space is skipped, and trailing
    white space is cut as long as one character is left. *)
Fixpoint rtrim (s : string) : string :=
  match s with
  | EmptyString => EmptyString
  | String c r =>
      match rtrim r with
      | EmptyString => if isspace c then EmptyString else String c EmptyString
      | r' => String c r'
      end
  end.

Definition trim_whitespace (str : string) : string :=
  match str with
  | EmptyString => EmptyString
  | _ =>
      match skip_while isspace str with
      | EmptyString => EmptyString
      | String c r => String c (rtrim r)
      end
  end.

Definition get_opcode_base4 (opcode_str : string) : string :=
  if strcmp0 opcode_str "mov" then "aa"
  else if strcmp0 opcode_str "cmp" then "ab"
  else if strcmp0 opcode_str "add" then "ac"
  else if strcmp0 opcode_str "sub" then "ad"
  else if strcmp0 opcode_str "not" then "ba"
  else if strcmp0 opcode_str "clr" then "bb"
  else if strcmp0 opcode_str "lea" then "bc"
  else if strcmp0 opcode_str "inc" then "bd"
  else if strcmp0 opcode_str "dec" then "ca"
  else if strcmp0 opcode_str "jmp" then "cb"
  else if strcmp0 opcode_str "bne" then "cc"
  else if strcmp0 opcode_str "red" then "cd"
  else if strcmp0 opcode_str "prn" then "da"
  else if strcmp0 opcode_str "jsr" then "db"
  else if strcmp0 opcode_str "rts" then "dc"
  else if strcmp0 opcode_str "stop" then "dd"
  else "aaaa".

Definition get_addressing_mode_base4 (operand_str : string) : string :=
  match operand_str with
  | EmptyString => "a"
  | String c _ =>
      if Ascii.eqb c "#" then "a"
      else if is_register operand_str then "d"
      else match strchr operand_str "[" with
           | Some _ => "c"
           | None => "b"
           end
  end.

Definition get_register_base4 (reg_str : string) : string :=
  if negb (is_register reg_str) then "aa"
  else
    match atoi (advance 1 reg_str) with
    | 0 => "aa" | 1 => "ab" | 2 => "ac" | 3 => "ad"
    | 4 => "ba" | 5 => "bb" | 6 => "bc" | 7 => "bd"
    | _ => "aa"
    end.

(** ['a' + digit] *)
Definition letter (digit : Z) : ascii := ascii_of_N (Z.to_N (97 + digit)).

(** [encode_matrix_registers]: the five characters written to [output]. *)
Definition encode_matrix_registers (row_reg col_reg : Z) : string :=
  if (row_reg =? 2) && (col_reg =? 7) then "cabbc"
  else if (row_reg =? 3) && (col_reg =? 3) then "adada"
  else
    let encoded := 0 in
    let encoded := Z.lor encoded (Z.shiftl (Z.land row_reg 15) 6) in
    let encoded := Z.lor encoded (Z.shiftl (Z.land col_reg 15) 2) in
    let encoded := Z.lor encoded 0 in
    string_of_list_ascii
      (map (fun i => letter (Z.land (Z.shiftr encoded (i * 2)) 3))
           [4; 3; 2; 1; 0]).

(** [sscanf(op, "%[^[][r%*d][r%*d]", matrix_label) == 1]: the first
    conversion stores the non-empty run of characters before the first
    bracket; nothing after it changes the returned count. *)
Definition sscanf_matrix_label (op : string) : option string :=
  match span_reject op "[" with
  | (EmptyString, _) => None
  | (label, _) => Some label
  end.

Definition expect (c : ascii) (s : string) : option string :=
  match s with
  | String d r => if Ascii.eqb d c then Some r else None
  | EmptyString => None
  end.

Definition bind {A B} (o : option A) (k : A -> option B) : option B :=
  match o with Some a => k a | None => None end.

(** [sscanf(op, "%*[^[][r%d][r%d]", &m, &n) == 2]: both integers were
    converted. *)
Definition sscanf_matrix_regs (op : string) : option (Z * Z) :=
  match span_reject op "[" with
  | (EmptyString, _) => None
  | (_, r0) =>
      bind (expect "[" r0) (fun r1 =>
      bind (expect "r" r1) (fun r2 =>
      bind (scan_int r2) (fun '(m, r3) =>
      bind (expect "]" r3) (fun r4 =>
      bind (expect "[" r4) (fun r5 =>
      bind (expect "r" r5) (fun r6 =>
      bind (scan_int r6) (fun '(n, _) => Some (m, n))))))))
  end.

End Tables.

(** ** first_pass.c: operand legality and instruction length *)

Module Operands.
Import CString Assembler Lexical Tables.

Definition legal_modes : list (string * string) :=
  [ ("abcd", "bcd");   (* mov *)
    ("abcd", "abcd");  (* cmp *)
    ("abcd", "bcd");   (* add *)
    ("abcd", "bcd");   (* sub *)
    ("X", "bcd");      (* not *)
    ("X", "bcd");      (* clr *)
    ("bc", "bcd");     (* lea *)
    ("X", "bcd");      (* inc *)
    ("X", "bcd");      (* dec *)
    ("X", "bc");       (* jmp *)
    ("X", "bc");       (* bne *)
    ("X", "bcd");      (* red *)
    ("X", "abcd");     (* prn *)
    ("X", "bc");       (* jsr *)
    ("X", "X");        (* rts *)
    ("X", "X") ].      (* stop *)

(** The chain of [strcmp]s that maps an opcode to its row; [-1] when
    none matches. *)
Definition opcode_num (opcode : string) : Z :=
  if strcmp0 opcode "mov" then 0
  else if strcmp0 opcode "cmp" then 1
  else if strcmp0 opcode "add" then 2
  else if strcmp0 opcode "sub" then 3
  else if strcmp0 opcode "not" then 4
  else if strcmp0 opcode "clr" then 5
  else if strcmp0 opcode "lea" then 6
  else if strcmp0 opcode "inc" then 7
  else if strcmp0 opcode "dec" then 8
  else if strcmp0 opcode "jmp" then 9
  else if strcmp0 opcode "bne" then 10
  else if strcmp0 opcode "red" then 11
  else if strcmp0 opcode "prn" then 12
  else if strcmp0 opcode "jsr" then 13
  else if strcmp0 opcode "rts" then 14
  else if strcmp0 opcode "stop" then 15
  else -1.

(** [validate_instruction_operands]: the returned flag; the call sets
    [g_has_error] exactly when it returns 0. *)
Definition validate_instruction_operands (opcode op1 op2 : string)
           (num_ops : Z) : bool :=
  let actual_src_mode_char := char_at (get_addressing_mode_base4 op1) 0 in
  let actual_dest_mode_char := char_at (get_addressing_mode_base4 op2) 0 in
  let n := opcode_num opcode in
  if n =? -1 then false
  else if Z.of_nat (List.length legal_modes) <=? n then false
  else
    let row := nth (Z.to_nat n) legal_modes ("X", "X") in
    let expected_operands :=
      (if negb (strcmp0 (fst row) "X") then 1 else 0)
      + (if negb (strcmp0 (snd row) "X") then 1 else 0) in
    if negb (expected_operands =? num_ops) then false
    else
      let success := true in
      let success :=
        if num_ops =? 2
        then if negb (mem_char actual_src_mode_char (fst row))
             then false else success
        else success in
      let success :=
        if num_ops =? 2
        then if negb (mem_char actual_dest_mode_char (snd row))
             then false else success
        else if num_ops =? 1
        then if negb (mem_char actual_src_mode_char (snd row))
             then false else success
        else success in
      success.

Definition no_operand_opcodes : list string := ["rts"; "stop"].
Definition one_operand_opcodes : list string :=
  ["not"; "clr"; "inc"; "dec"; "jmp"; "bne"; "jsr"; "red"; "prn"].
Definition two_operand_opcodes : list string :=
  ["mov"; "cmp"; "add"; "sub"; "lea"].

Definition among (opcode : string) (l : list string) : bool :=
  existsb (fun o => strcmp0 opcode o) l.

(** The words one operand adds and whether it is a register; [None] is
    the [return -1] on a malformed matrix operand. *)
Definition operand_extra_words (op : string) : option (Z * bool) :=
  if Ascii.eqb (char_at op 0) "#" then Some (1, false)
  else match strchr op "[" with
       | Some _ =>
           match sscanf_matrix_regs op with
           | Some _ => Some (2, false)
           | None => None
           end
       | None =>
           if is_register op then Some (1, true) else Some (1, false)
       end.

Definition calculate_instruction_length (opcode op1 op2 : string) : Z :=
  let length := 1 in
  let num_operands_parsed :=
    (match op1 with EmptyString => 0 | _ => 1 end)
    + (match op2 with EmptyString => 0 | _ => 1 end) in
  let expected_operands :=
    if among opcode no_operand_opcodes then 0
    else if among opcode one_operand_opcodes then 1
    else if among opcode two_operand_opcodes then 2
    else -1 in
  if (expected_operands =? -1)
     || negb (expected_operands =? num_operands_parsed)
  then -1
  else
    match (if 1 <=? num_operands_parsed
           then operand_extra_words op1 else Some (0, false)) with
    | None => -1
    | Some (op1_extra_words, op1_is_reg) =>
        match (if num_operands_parsed =? 2
               then operand_extra_words op2 else Some (0, false)) with
        | None => -1
        | Some (op2_extra_words, op2_is_reg) =>
            if op1_is_reg && op2_is_reg then length + 1
            else
              let length := length + op1_extra_words + op2_extra_words in
              if 5 <? length then -1 else length
        end
    end.

End Operands.

(** ** second_pass.c: encoding one instruction, and the pass *)

Module SecondPass.
Import CString Assembler Lexical SymbolTable Tables Operands Base4.

Definition set_operands (o1 o2 : string) (i : Instruction) : Instruction :=
  mkInstruction (inst_address i) (original_line_number i) (opcode i)
    (num_operands i) o1 o2 (instruction_length i) (machine_code_base4 i)
    (operand_words_base4 i) (num_operand_words i).

Definition set_machine_code (w : string) (i : Instruction) : Instruction :=
  mkInstruction (inst_address i) (original_line_number i) (opcode i)
    (num_operands i) (operand1 i) (operand2 i) (instruction_length i) w
    (operand_words_base4 i) (num_operand_words i).

Definition set_num_operand_words (n : Z) (i : Instruction) : Instruction :=
  mkInstruction (inst_address i) (original_line_number i) (opcode i)
    (num_operands i) (operand1 i) (operand2 i) (instruction_length i)
    (machine_code_base4 i) (operand_words_base4 i) n.

Fixpoint store_at {A} (k : nat) (x : A) (l : list A) : list A :=
  match k, l with
  | O, _ :: t => x :: t
  | S k', h :: t => h :: store_at k' x t
  | _, [] => []
  end.

(** [sprintf(inst->operand_words_base4[idx], ...)] *)
Definition set_operand_word (idx : nat) (w : string) (i : Instruction)
  : Instruction :=
  mkInstruction (inst_address i) (original_line_number i) (opcode i)
    (num_operands i) (operand1 i) (operand2 i) (instruction_length i)
    (machine_code_base4 i) (store_at idx w (operand_words_base4 i))
    (num_operand_words i).

Definition chars (l : list ascii) : string := string_of_list_ascii l.

(** What the function has written so far: the instruction, the symbol
    table (external usages are added to it) and
    [current_operand_word_idx]. *)
Definition Progress : Type := (Instruction * SymTab * nat)%type.

(** A step either goes on or executes [g_has_error = 1; return;]. *)
Inductive Flow : Type :=
| Next (p : Progress)
| Return_error (p : Progress).

(** Immediate operand: ["%.*s%c"] with precision [BASE4_WORD_LENGTH - 1]
    keeps the first four digits of the rendering. *)
Definition encode_immediate (op : string) (p : Progress) : Flow :=
  let '(inst, symTab, idx) := p in
  let value := atoi (advance 1 op) in
  if (value <? -512) || (511 <? value) then Return_error p
  else
    let base4_val_str := convertToBase4 value in
    Next (set_operand_word idx
            (strncpy base4_val_str (BASE4_WORD_LENGTH - 1) ++ "a") inst,
          symTab, S idx).

(** Direct label or matrix operand (the source has this block twice,
    once per operand; [mode] is ['b'] or ['c']).  [addExternalUsage] is
    called for external symbols only, so it never sets the flag here. *)
Definition encode_label_or_matrix (mode : ascii) (op : string)
           (p : Progress) : Flow :=
  let '(inst, symTab, idx) := p in
  match (if Ascii.eqb mode "c" then sscanf_matrix_label op else Some op) with
  | None => Return_error p
  | Some label_to_find =>
      match findSymbol symTab label_to_find with
      | None => Return_error p
      | Some sym =>
          let base4_val_str := convertToBase4 (sym_address sym) in
          let are_char :=
            if SymbolType_eqb (sym_type sym) SYMBOL_EXTERNAL
            then "b"%char else "c"%char in
          let symTab :=
            if Ascii.eqb are_char "b"
            then update_found symTab label_to_find
                   (fun s => fst (addExternalUsage s
                                    (inst_address inst + Z.of_nat idx + 1)))
            else symTab in
          let inst :=
            set_operand_word idx
              (strncpy base4_val_str (BASE4_WORD_LENGTH - 1)
                 ++ chars [are_char]) inst in
          let idx := S idx in
          if Ascii.eqb mode "c" then
            match sscanf_matrix_regs op with
            | None => Return_error (inst, symTab, idx)
            | Some (reg1_num, reg2_num) =>
                if (reg1_num <? 0) || (7 <? reg1_num)
                   || (reg2_num <? 0) || (7 <? reg2_num)
                then Return_error (inst, symTab, idx)
                else
                  let reg_word := encode_matrix_registers reg1_num reg2_num in
                  Next (set_operand_word idx reg_word inst, symTab, S idx)
            end
          else Next (inst, symTab, idx)
      end
  end.

(** "Process Operand 1": the progress and [registers_shared_word]. *)
Definition process_operand1 (src_addr_mode_char : ascii) (p : Progress)
  : Flow * bool :=
  let '(inst, symTab, idx) := p in
  if 1 <=? num_operands inst then
    if Ascii.eqb src_addr_mode_char "d" && (num_operands inst =? 2)
       && Ascii.eqb (char_at (get_addressing_mode_base4 (operand2 inst)) 0) "d"
    then
      let src_reg_base4 := get_register_base4 (operand1 inst) in
      let dest_reg_base4 := get_register_base4 (operand2 inst) in
      (Next (set_operand_word idx
               (chars [char_at src_reg_base4 0; char_at src_reg_base4 1;
                       char_at dest_reg_base4 0; char_at dest_reg_base4 1;
                       "a"%char]) inst,
             symTab, S idx), true)
    else if Ascii.eqb src_addr_mode_char "a" then
      (encode_immediate (operand1 inst) p, false)
    else if Ascii.eqb src_addr_mode_char "d" then
      let reg_base4 := get_register_base4 (operand1 inst) in
      (Next (set_operand_word idx
               (chars [char_at reg_base4 0; char_at reg_base4 1] ++ "aaa")
               inst,
             symTab, S idx), false)
    else if Ascii.eqb src_addr_mode_char "b"
            || Ascii.eqb src_addr_mode_char "c" then
      (encode_label_or_matrix src_addr_mode_char (operand1 inst) p, false)
    else (Next p, false)
  else (Next p, false).

(** "Process Operand 2". *)
Definition process_operand2 (registers_shared_word : bool) (p : Progress)
  : Flow :=
  let '(inst, symTab, idx) := p in
  if (num_operands inst =? 2) && negb registers_shared_word then
    let op2 := operand2 inst in
    let dest_addr_mode_char := char_at (get_addressing_mode_base4 op2) 0 in
    if Ascii.eqb dest_addr_mode_char "a" then encode_immediate op2 p
    else if Ascii.eqb dest_addr_mode_char "d" then
      let reg_base4 := get_register_base4 op2 in
      Next (set_operand_word idx
              ("aa" ++ chars [char_at reg_base4 0; char_at reg_base4 1]
                 ++ "a") inst,
            symTab, S idx)
    else if Ascii.eqb dest_addr_mode_char "b"
            || Ascii.eqb dest_addr_mode_char "c" then
      encode_label_or_matrix dest_addr_mode_char op2 p
    else Next p
  else Next p.

(** [encode_instruction_words]: the instruction and the symbol table as
    the call leaves them, and whether it set [g_has_error]. *)
Definition encode_instruction_words (inst : Instruction) (symTab : SymTab)
  : Instruction * SymTab * bool :=
  let opcode_base4_str := get_opcode_base4 (opcode inst) in
  if strcmp0 opcode_base4_str "aaaa" then (inst, symTab, true)
  else
    let inst := set_operands (trim_whitespace (operand1 inst))
                             (trim_whitespace (operand2 inst)) inst in
    let src_addr_mode_char :=
      if 1 <=? num_operands inst
      then char_at (get_addressing_mode_base4 (operand1 inst)) 0
      else "a"%char in
    let dest_addr_mode_char :=
      if num_operands inst =? 2
      then char_at (get_addressing_mode_base4 (operand2 inst)) 0
      else "a"%char in
    if negb (validate_instruction_operands (opcode inst) (operand1 inst)
               (operand2 inst) (num_operands inst))
    then (inst, symTab, true)
    else
      let inst :=
        set_machine_code
          (chars [char_at opcode_base4_str 0; char_at opcode_base4_str 1;
                  src_addr_mode_char; dest_addr_mode_char; "a"%char]) inst in
      let inst := set_num_operand_words 0 inst in
      match process_operand1 src_addr_mode_char (inst, symTab, O) with
      | (Return_error (inst, symTab, _), _) => (inst, symTab, true)
      | (Next p, registers_shared_word) =>
          match process_operand2 registers_shared_word p with
          | Return_error (inst, symTab, _) => (inst, symTab, true)
          | Next (inst, symTab, idx) =>
              let inst := set_num_operand_words (Z.of_nat idx) inst in
              (inst, symTab,
               negb (num_operand_words inst + 1 =? instruction_length inst))
          end
      end.

(** The main loop of [secondPass]. *)
Fixpoint encode_all (instructionList : list Instruction) (symTab : SymTab)
         (g_has_error : bool) : list Instruction * SymTab * bool :=
  match instructionList with
  | [] => ([], symTab, g_has_error)
  | curr :: next =>
      let '(curr', symTab', e) := encode_instruction_words curr symTab in
      let '(next', symTab'', g) := encode_all next symTab' (g_has_error || e) in
      (curr' :: next', symTab'', g)
  end.

(** The second loop: an entry symbol whose address is still 0. *)
Definition undefined_entry (sym_iter : Symbol) : bool :=
  SymbolType_eqb (sym_type sym_iter) SYMBOL_ENTRY
  && (sym_address sym_iter =? 0).

(** [secondPass]: the encoded list, the table and [g_has_error] at the
    end; the C return value is the negation of that flag. *)
Definition secondPass (instructionList : list Instruction) (symTab : SymTab)
           (g_has_error : bool) : list Instruction * SymTab * bool :=
  let '(insts, symTab', g) := encode_all instructionList symTab g_has_error in
  (insts, symTab', g || existsb undefined_entry symTab').

End SecondPass.

(** ** first_pass.c: the data directives *)

Module DataDirectives.
Import CString Assembler Lexical Tables.

Definition blank_or_tab : string :=
  String " "%char (String "009"%char EmptyString).

Definition is_valid_number (s : string) : bool :=
  match s with
  | EmptyString => false
  | _ => match snd (strtol s) with EmptyString => true | _ => false end
  end.

(** [newData->address = DC++; newData->next = head; head = newData]:
    the list (newest first) and the counter. *)
Definition Data : Type := (list DataItem * Z)%type.

Definition push_data (value : Z) (d : Data) : Data :=
  let (temp_data_head, DC) := d in
  (mkDataItem DC value :: temp_data_head, DC + 1).

(** The loop [while ((token = strtok_r(rest, ",", &rest)))] of
    [validate_data_parameters]; every call of [strtok_r] shortens
    [rest], so [fuel] is the length of [rest] at most. *)
Fixpoint data_loop (fuel : nat) (rest : string) (success : bool) (d : Data)
  : bool * Data :=
  match fuel with
  | O => (success, d)
  | S fuel' =>
      match strtok_r rest with
      | (None, _) => (success, d)
      | (Some token, rest') =>
          let trimmed := cut_at (skip_while isspace token) blank_or_tab in
          if strlen trimmed =? 0 then data_loop fuel' rest' false d
          else if negb (is_valid_number trimmed)
          then data_loop fuel' rest' false d
          else
            let value := atoi trimmed in
            if (value <? -512) || (511 <? value)
            then data_loop fuel' rest' false d
            else data_loop fuel' rest' success (push_data value d)
      end
  end.

(** [validate_data_parameters]: the returned flag and the data; the call
    sets [g_has_error] exactly when it returns 0. *)
Definition validate_data_parameters (params_str : string) (d : Data)
  : bool * Data :=
  match skip_while isspace params_str with
  | EmptyString => (false, d)
  | rest =>
      let '(success, rest) :=
        match rest with
        | String "," r => (false, r)
        | _ => (true, rest)
        end in
      data_loop (S (String.length rest)) rest success d
  end.

(** [end = strrchr(s, c)] as the text before [end] and the text after
    it; [None] when [c] does not occur. *)
Fixpoint split_last (s : string) (c : ascii) : option (string * string) :=
  match s with
  | EmptyString => None
  | String d r =>
      match split_last r c with
      | Some (a, b) => Some (String d a, b)
      | None => if Ascii.eqb d c then Some (EmptyString, r) else None
      end
  end.

(** [(int)*str_content] for a [char] that is signed. *)
Definition char_value (c : ascii) : Z :=
  if 128 <=? code c then code c - 256 else code c.

Fixpoint push_chars (str_content : string) (d : Data) : Data :=
  match str_content with
  | EmptyString => d
  | String c r => push_chars r (push_data (char_value c) d)
  end.

Definition double_quote : ascii := "034"%char.

(** [validate_string_parameters]: as above. *)
Definition validate_string_parameters (params_str : string) (d : Data)
  : bool * Data :=
  match skip_while isspace params_str with
  | String q after_quote =>
      if negb (Ascii.eqb q double_quote) then (false, d)
      else
        match split_last after_quote double_quote with
        | None => (false, d)
        | Some (str_content, after_end) =>
            match skip_while isspace after_end with
            | EmptyString => (true, push_data 0 (push_chars str_content d))
            | _ => (false, d)
            end
        end
  | EmptyString => (false, d)
  end.

(** [sscanf(s, " [ %d ] [ %d ]%n", &rows, &cols, &read)]: [None] when
    the return value is not 2.  Otherwise the two integers and, if the
    closing bracket matched so that [%n] was reached, the text after the
    characters consumed. *)
Definition sscanf_mat_dims (s : string) : option (Z * Z * option string) :=
  bind (expect "[" (skip_while isspace s)) (fun r1 =>
  bind (scan_int r1) (fun '(rows, r2) =>
  bind (expect "]" (skip_while isspace r2)) (fun r3 =>
  bind (expect "[" (skip_while isspace r3)) (fun r4 =>
  bind (scan_int r4) (fun '(cols, r5) =>
  Some (rows, cols, expect "]" (skip_while isspace r5))))))).

(** One round of the loop over the initial values: [None] is [break]
    with [success = 0]. *)
Definition mat_value (num_start_ptr : string) : option (Z * string) :=
  let after_sign :=
    match num_start_ptr with
    | String "+" r => r
    | String "-" r => r
    | _ => num_start_ptr
    end in
  match after_sign with
  | EmptyString => None
  | String c _ =>
      if negb (isdigit c) then None
      else
        let num_end_ptr := skip_while isdigit after_sign in
        let num_len :=
          (String.length num_start_ptr - String.length num_end_ptr)%nat in
        if (num_len =? 0)%nat || (MAX_LINE_LENGTH <=? num_len)%nat then None
        else
          let num_str_val := strncpy num_start_ptr num_len in
          if negb (is_valid_number num_str_val) then None
          else
            let value := atoi num_str_val in
            if (value <? -512) || (511 <? value) then None
            else Some (value, num_end_ptr)
  end.

(** The loop over the initial values, which runs while text is left and
    [count < numCells]: the pointer, the count, [success] and the data
    when it is left. *)
Fixpoint mat_loop (fuel : nat) (num_start_ptr : string) (count numCells : Z)
         (success : bool) (d : Data) : string * Z * bool * Data :=
  match fuel with
  | O => (num_start_ptr, count, success, d)
  | S fuel' =>
      match num_start_ptr with
      | EmptyString => (num_start_ptr, count, success, d)
      | _ =>
          if negb (count <? numCells) then (num_start_ptr, count, success, d)
          else
            match mat_value num_start_ptr with
            | None => (num_start_ptr, count, false, d)
            | Some (value, num_end_ptr) =>
                let d := push_data value d in
                let count := count + 1 in
                let num_start_ptr := skip_while isspace num_end_ptr in
                match num_start_ptr with
                | String "," r =>
                    let num_start_ptr := skip_while isspace r in
                    match num_start_ptr with
                    | EmptyString => (num_start_ptr, count, false, d)
                    | String "," _ => (num_start_ptr, count, false, d)
                    | _ => mat_loop fuel' num_start_ptr count numCells success d
                    end
                | EmptyString =>
                    mat_loop fuel' num_start_ptr count numCells success d
                | _ => (num_start_ptr, count, false, d)
                end
            end
      end
  end.

(** [while (count < numCells)]: the remaining cells are zero. *)
Fixpoint fill_zeros (n : nat) (d : Data) : Data :=
  match n with
  | O => d
  | S n' => fill_zeros n' (push_data 0 d)
  end.

(** [validate_mat_parameters]: as above; [None] when the call reads
    [read_count_dims] although [%n] never stored it, which C leaves
    undefined. *)
Definition validate_mat_parameters (params_str : string) (d : Data)
  : option (bool * Data) :=
  let current_val_pos := skip_while isspace params_str in
  match sscanf_mat_dims current_val_pos with
  | None => Some (false, d)
  | Some (_, _, None) => None
  | Some (rows, cols, Some after_dims) =>
      let current_val_pos := skip_while isspace after_dims in
      if (rows <=? 0) || (cols <=? 0) then Some (false, d)
      else
        let numCells := rows * cols in
        let '(success, num_start_ptr) :=
          match current_val_pos with
          | String "," r => (false, r)
          | _ => (true, current_val_pos)
          end in
        let num_start_ptr := skip_while isspace num_start_ptr in
        let '(_, count, success, d) :=
          mat_loop (S (String.length num_start_ptr)) num_start_ptr 0
                   numCells success d in
        Some (success, fill_zeros (Z.to_nat (numCells - count)) d)
  end.

End DataDirectives.

(** ** first_pass.c: the pass *)

Module FirstPass.
Import CString Assembler Lexical SymbolTable Tables Operands DataDirectives.

(** The variables of [firstPass] that live across lines, with the
    global flag. *)
Record State : Type := mkState {
  symTab : SymTab;
  temp_i_head : list Instruction;   (* newest first *)
  temp_d_head : list DataItem;      (* newest first *)
  IC : Z;
  DC : Z;
  g_has_error : bool;
  lineNumber : Z
}.

Definition initial_state (table : SymTab) : State :=
  mkState table [] [] MEMORY_START 0 false 0.

Definition with_symTab (t : SymTab) (e : bool) (st : State) : State :=
  mkState t (temp_i_head st) (temp_d_head st) (IC st) (DC st)
          (g_has_error st || e) (lineNumber st).

Definition with_error (st : State) : State :=
  with_symTab (symTab st) true st.

Definition with_data (d : Data) (e : bool) (st : State) : State :=
  mkState (symTab st) (temp_i_head st) (fst d) (IC st) (snd d)
          (g_has_error st || e) (lineNumber st).

Definition with_instruction (i : Instruction) (st : State) : State :=
  mkState (symTab st) (i :: temp_i_head st) (temp_d_head st)
          (IC st + instruction_length i) (DC st) (g_has_error st)
          (lineNumber st).

Definition next_line (st : State) : State :=
  mkState (symTab st) (temp_i_head st) (temp_d_head st) (IC st) (DC st)
          (g_has_error st) (lineNumber st + 1).

Definition add_symbol (name : string) (address : Z) (type : SymbolType)
           (st : State) : State :=
  let (t, e) := addSymbol (symTab st) name address type in
  with_symTab t e st.

Definition has_label (label_name : string) : bool :=
  match label_name with EmptyString => false | _ => true end.

(** The branch for a token that starts with a dot. *)
Definition process_directive (command_or_directive label_name p : string)
           (st : State) : option State :=
  let st := if has_label label_name
            then add_symbol label_name (DC st) SYMBOL_DATA st else st in
  if has_label label_name && g_has_error st then Some st
  else if strcmp0 command_or_directive ".data" then
    let (ok, d) := validate_data_parameters p (temp_d_head st, DC st) in
    Some (with_data d (negb ok) st)
  else if strcmp0 command_or_directive ".string" then
    let (ok, d) := validate_string_parameters p (temp_d_head st, DC st) in
    Some (with_data d (negb ok) st)
  else if strcmp0 command_or_directive ".mat" then
    match validate_mat_parameters p (temp_d_head st, DC st) with
    | None => None
    | Some (ok, d) => Some (with_data d (negb ok) st)
    end
  else if strcmp0 command_or_directive ".extern" then
    match scan_token p with
    | Some (extern_label_name, _, _) =>
        Some (add_symbol extern_label_name 0 SYMBOL_EXTERNAL st)
    | None => Some (with_error st)
    end
  else if strcmp0 command_or_directive ".entry" then
    match scan_token p with
    | Some (entry_label_name, _, _) =>
        match findSymbol (symTab st) entry_label_name with
        | Some s =>
            if SymbolType_eqb (sym_type s) SYMBOL_EXTERNAL
            then Some (with_error st)
            else Some (with_symTab
                         (update_found (symTab st) entry_label_name
                            (set_type SYMBOL_ENTRY)) false st)
        | None => Some (add_symbol entry_label_name 0 SYMBOL_ENTRY st)
        end
    | None => Some (with_error st)
    end
  else Some (with_error st).

(** [skip_whitespace(token)] cut at its first blank or tab. *)
Definition trimmed_operand (token : string) : string :=
  cut_at (skip_while isspace token) blank_or_tab.

(** The operands of an instruction line: [None] is one of the error
    exits, otherwise [op1_str], [op2_str] and [num_ops_found]. *)
Definition parse_operands (p : string) : option (string * string * Z) :=
  let (token1, state1) := strtok_r p in
  let first :=
    match token1 with
    | Some token =>
        match trimmed_operand token with
        | EmptyString => None
        | trimmed_op1 =>
            Some (strncpy trimmed_op1 (MAX_LINE_LENGTH - 1), 1)
        end
    | None => Some (EmptyString, 0)
    end in
  match first with
  | None => None
  | Some (op1_str, num_ops_found) =>
      let (token2, state2) := strtok_r state1 in
      let second :=
        match token2 with
        | Some token =>
            if num_ops_found =? 0 then None
            else
              match trimmed_operand token with
              | EmptyString => None
              | trimmed_op2 =>
                  Some (strncpy trimmed_op2 (MAX_LINE_LENGTH - 1), 2)
              end
        | None => Some (EmptyString, num_ops_found)
        end in
      match second with
      | None => None
      | Some (op2_str, num_ops_found) =>
          match fst (strtok_r state2) with
          | Some token =>
              if 0 <? strlen (skip_while isspace token) then None
              else Some (op1_str, op2_str, num_ops_found)
          | None => Some (op1_str, op2_str, num_ops_found)
          end
      end
  end.

(** The node [newInst] as the pass fills it in: the copies into the
    fixed buffers, empty machine code, and the computed length. *)
Definition new_instruction (IC lineNumber : Z) (command_or_directive : string)
           (num_ops_found : Z) (op1_str op2_str : string) : Instruction :=
  let opc := strncpy command_or_directive 4 in
  let o1 := strncpy op1_str (MAX_LINE_LENGTH - 1) in
  let o2 := strncpy op2_str (MAX_LINE_LENGTH - 1) in
  mkInstruction IC lineNumber opc num_ops_found o1 o2
    (calculate_instruction_length opc o1 o2) EmptyString
    [EmptyString; EmptyString; EmptyString; EmptyString] 0.

(** The branch for any other token. *)
Definition process_instruction (command_or_directive label_name p : string)
           (st : State) : State :=
  let st := if has_label label_name
            then add_symbol label_name (IC st) SYMBOL_CODE st else st in
  if has_label label_name && g_has_error st then st
  else if negb (is_opcode command_or_directive) then with_error st
  else
    match parse_operands p with
    | None => with_error st
    | Some (op1_str, op2_str, num_ops_found) =>
        if negb (validate_instruction_operands command_or_directive
                   op1_str op2_str num_ops_found)
        then with_error st
        else
          let newInst :=
            new_instruction (IC st) (lineNumber st) command_or_directive
                            num_ops_found op1_str op2_str in
          if instruction_length newInst =? -1 then with_error st
          else with_instruction newInst st
    end.

Definition line_end : string :=
  String "013"%char (String "010"%char EmptyString).

(** The body of the reading loop for a line that passed the length
    check; [None] only as [validate_mat_parameters] gives it. *)
Definition process_line (line : string) (st : State) : option State :=
  let line := cut_at line line_end in
  let p := skip_while isspace line in
  match p with
  | EmptyString => Some st
  | String c0 _ =>
      if Ascii.eqb c0 ";" then Some st
      else
        let labelled :=
          match strchr p ":" with
          | Some colon_pos =>
              let label_len := (String.length p - String.length colon_pos)%nat in
              if (label_len =? 0)%nat then None
              else if (MAX_SYMBOL_LENGTH <=? label_len)%nat then None
              else Some (strncpy p label_len,
                         skip_while isspace (advance 1 colon_pos))
          | None => Some (EmptyString, p)
          end in
        match labelled with
        | None => Some (with_error st)
        | Some (label_name, p) =>
            match scan_token p with
            | None =>
                if has_label label_name then Some (with_error st)
                else Some st
            | Some (command_or_directive, _, after) =>
                let p := skip_while isspace after in
                if Ascii.eqb (char_at command_or_directive 0) "."
                then process_directive command_or_directive label_name p st
                else Some (process_instruction command_or_directive
                             label_name p st)
            end
        end
  end.

(** [fgets(line, n, input)]: at most [n - 1] characters, ending after a
    line feed; [None] at the end of the input. *)
Fixpoint fgets_chars (k : nat) (input : string) : string * string :=
  match k, input with
  | S k', String c r =>
      if Ascii.eqb c "010" then (String c EmptyString, r)
      else let (a, b) := fgets_chars k' r in (String c a, b)
  | _, _ => (EmptyString, input)
  end.

Definition fgets (n : nat) (input : string) : option (string * string) :=
  match input with
  | EmptyString => None
  | _ => Some (fgets_chars (n - 1) input)
  end.

(** The loop that reads with [fgetc] up to a line feed or the end. *)
Fixpoint skip_rest_of_line (input : string) : string :=
  match input with
  | EmptyString => EmptyString
  | String c r => if Ascii.eqb c "010" then r else skip_rest_of_line r
  end.

Definition line_too_long (line : string) : bool :=
  (Z.of_nat MAX_LINE_LENGTH <? strlen line)
  && negb (Ascii.eqb (char_at line MAX_LINE_LENGTH) "010")
  && negb (Ascii.eqb (char_at line MAX_LINE_LENGTH) Ascii.zero).

(** The reading loop; every round consumes at least one character of
    [input], so [fuel] is its length at most. *)
Fixpoint read_loop (fuel : nat) (input : string) (st : State)
  : option State :=
  match fuel with
  | O => Some st
  | S fuel' =>
      match fgets (MAX_LINE_LENGTH + 2) input with
      | None => Some st
      | Some (line, input') =>
          let st := next_line st in
          if line_too_long line
          then read_loop fuel' (skip_rest_of_line input') (with_error st)
          else
            match process_line line st with
            | None => None
            | Some st' => read_loop fuel' input' st'
            end
      end
  end.

(** What [firstPass] hands back through its pointers, with the global
    flag; the C return value is the negation of that flag. *)
Record Result : Type := mkResult {
  res_symTab : SymTab;
  instructionList : list Instruction;
  dataList : list DataItem;
  final_ic : Z;
  final_dc : Z;
  res_error : bool
}.

(** [firstPass] on the text of the expanded file, with the symbol table
    the caller passes in (main passes the empty one). *)
Definition firstPass (input : string) (table : SymTab) : option Result :=
  match read_loop (S (String.length input)) input (initial_state table) with
  | None => None
  | Some st =>
      Some (mkResult (updateDataSymbolsAddresses (symTab st) (IC st))
                     (rev (temp_i_head st)) (rev (temp_d_head st))
                     (IC st) (DC st) (g_has_error st))
  end.

End FirstPass.

(** ** output_files.c

  A text file is the list of its lines, each without its final line
  feed; [None] is a file that was not created.  Files can be created. *)

Module OutputFiles.
Import CString Assembler Base4.

Definition File : Type := option (list string).

Definition tab : string := String "009"%char EmptyString.

(** Part 1 of [writeObjectFile]: the header line. *)
Definition header_line (ICF DCF : Z) : string :=
  let base4_icf := convertToBase4 ICF in
  let base4_dcf := convertToBase4 DCF in
  let stripped_icf := stripLeadingA base4_icf in
  let stripped_dcf := stripLeadingA base4_dcf in
  stripped_icf ++ " " ++ stripped_dcf.

(** Part 2: the opcode word and the first [num_operand_words] operand
    words of one instruction. *)
Definition instruction_lines (inst : Instruction) : list string :=
  (convertToBase4 (inst_address inst) ++ tab ++ machine_code_base4 inst)
    :: map (fun i =>
              convertToBase4 (inst_address inst + Z.of_nat i + 1) ++ tab
                ++ nth i (operand_words_base4 inst) EmptyString)
           (seq 0 (Z.to_nat (num_operand_words inst))).

(** Part 3: one data word. *)
Definition data_line (ICF : Z) (data : DataItem) : string :=
  convertToBase4 (data_address data + ICF + MEMORY_START) ++ tab
    ++ convertToBase4 (data_value data).

Definition writeObjectFile (ICF DCF : Z) (dataList : list DataItem)
           (instructionList : list Instruction) : File :=
  Some (header_line ICF DCF
          :: flat_map instruction_lines instructionList
          ++ map (data_line ICF) dataList).

Definition valid_entry (symbol : Symbol) : bool :=
  SymbolType_eqb (sym_type symbol) SYMBOL_ENTRY
  && (MEMORY_START <=? sym_address symbol).

Definition writeEntriesFile (symTab : SymTab) : File :=
  if negb (existsb valid_entry symTab) then None
  else
    Some (map (fun symbol =>
                 sym_name symbol ++ " " ++ convertToBase4 (sym_address symbol))
              (filter valid_entry symTab)).

Definition used_external (symbol : Symbol) : bool :=
  SymbolType_eqb (sym_type symbol) SYMBOL_EXTERNAL
  && match external_usages symbol with [] => false | _ => true end.

(** The lines written for one symbol of the table. *)
Definition external_lines (symbol : Symbol) : list string :=
  if SymbolType_eqb (sym_type symbol) SYMBOL_EXTERNAL
  then map (fun current => sym_name symbol ++ " " ++ convertToBase4 current)
           (external_usages symbol)
  else [].

Definition writeExternalsFile (symTab : SymTab) : File :=
  if negb (existsb used_external symTab) then None
  else Some (flat_map external_lines symTab).

End OutputFiles.

(** ** main.c: the body of the loop over the input files *)

Module Driver.
Import CString Assembler FirstPass SecondPass OutputFiles.

Record Outputs : Type := mkOutputs {
  ob_file : File;
  ent_file : File;
  ext_file : File
}.

Definition no_outputs : Outputs := mkOutputs None None None.

(** Steps 2 to 4 on the text of the expanded file: [g_has_error] as
    step 4 tests it, the symbol table, and the files written.  [None]
    only as [firstPass] gives it. *)
Definition assemble (am_text : string)
  : option (bool * SymTab * Outputs) :=
  match firstPass am_text [] with
  | None => None
  | Some r =>
      let g_has_error := res_error r in
      let '(instruction_list, symbol_table, g_has_error) :=
        if negb g_has_error
        then secondPass (instructionList r) (res_symTab r) g_has_error
        else (instructionList r, res_symTab r, g_has_error) in
      if g_has_error then Some (g_has_error, symbol_table, no_outputs)
      else
        Some (g_has_error, symbol_table,
              mkOutputs
                (writeObjectFile (final_ic r - MEMORY_START) (final_dc r)
                                 (dataList r) instruction_list)
                (writeEntriesFile symbol_table)
                (writeExternalsFile symbol_table))
  end.

Section MacroPhase.
(** The driver is stated for any macro list, any collector of
    definitions (which returns the list and [g_has_error]) and any line
    expander; macro_processor.c itself is embedded in [MacroProcessor]
    below. *)
Variable Macro : Type.
Variable processMacroDefinitions : string -> list Macro * bool.
Variable expandMacroInLine : string -> list Macro -> string.

Definition skip_whitespace_macro (str : string) : string :=
  skip_while (fun c => Ascii.eqb c " " || Ascii.eqb c "009") str.

Fixpoint last_char (s : string) : ascii :=
  match s with
  | EmptyString => Ascii.zero
  | String c EmptyString => c
  | String _ r => last_char r
  end.

Definition line_feed : string := String "010"%char EmptyString.

(** The loop that writes the expanded file; [inside_macro_def] is
    declared outside the loop over the files and keeps its value. *)
Fixpoint expand_loop (fuel : nat) (input : string) (macro_list : list Macro)
         (inside_macro_def : bool) (am : string) : string * bool :=
  match fuel with
  | O => (am, inside_macro_def)
  | S fuel' =>
      match fgets (MAX_LINE_LENGTH + 2) input with
      | None => (am, inside_macro_def)
      | Some (line, input') =>
          let first_word :=
            match scan_token (skip_whitespace_macro line) with
            | Some (w, _, _) => Some w
            | None => None
            end in
          if match first_word with
             | Some w => strcmp0 w "mcro" | None => false end
          then expand_loop fuel' input' macro_list true am
          else if match first_word with
                  | Some w => strcmp0 w "mcroend" | None => false end
          then expand_loop fuel' input' macro_list false am
          else if inside_macro_def
          then expand_loop fuel' input' macro_list inside_macro_def am
          else
            let expanded_line_content := expandMacroInLine line macro_list in
            let written :=
              if (0 <? strlen expanded_line_content)
                 && negb (Ascii.eqb (last_char expanded_line_content) "010")
              then expanded_line_content ++ line_feed
              else expanded_line_content in
            expand_loop fuel' input' macro_list inside_macro_def
                        (am ++ written)
      end
  end.

Record Unit_result : Type := mkUnit {
  am_file : option string;
  error_flag : bool;          (* g_has_error when the unit is left *)
  outputs : Outputs;
  inside_macro_def_after : bool
}.

(** One round of the loop over the files.  [source] is the text of
    the input file ([None] when it cannot be opened) and [am_creatable]
    tells whether the expanded file can be created. *)
Definition main_unit (source : option string) (am_creatable : bool)
           (inside_macro_def : bool) : option Unit_result :=
  match source with
  | None => Some (mkUnit None false no_outputs inside_macro_def)
  | Some text =>
      let (macro_list, g_has_error) := processMacroDefinitions text in
      if g_has_error
      then Some (mkUnit None true no_outputs inside_macro_def)
      else if negb am_creatable
      then Some (mkUnit None false no_outputs inside_macro_def)
      else
        let (am, inside) :=
          expand_loop (S (String.length text)) text macro_list
                      inside_macro_def EmptyString in
        match assemble am with
        | None => None
        | Some (g, _, out) => Some (mkUnit (Some am) g out inside)
        end
  end.

End MacroPhase.

End Driver.

(** ** macro_processor.c

  [processMacroDefinitions] and [expandMacroInLine].  A macro is its
  name and its lines, oldest first; [lineCount] is the length of the
  list and [capacity] only concerns the allocation.  The macro list has
  the newest macro first.  [currentMacro] is either NULL or the macro
  that was put at the head of the list last (it is assigned nowhere
  else, and nothing else changes the head), so it is kept as the flag
  "not NULL".  [lineNumber] only appears in messages and is left out.
  A line handed to [expandMacroInLine] fits [line_copy], as every line
  read by [fgets] with the same buffer size does. *)

Module MacroProcessor.
Import CString Assembler Lexical FirstPass.

Record Macro : Type := mkMacro {
  macro_name : string;
  macro_lines : list string
}.

(** The version of macro_processor.c, which skips all white space. *)
Definition skip_whitespace_macro (s : string) : string :=
  skip_while isspace s.

Definition is_reserved_macro_name (name : string) : bool :=
  if is_opcode name || is_register name then true
  else if strcmp0 name ".data" || strcmp0 name ".string"
          || strcmp0 name ".mat" || strcmp0 name ".extern"
          || strcmp0 name ".entry" || strcmp0 name "mcro"
          || strcmp0 name "mcroend"
  then true
  else false.

Record State : Type := mkState {
  macroList : list Macro;
  inMacro : bool;
  currentMacro : bool;
  g_has_error : bool
}.

Definition with_error (st : State) : State :=
  mkState (macroList st) (inMacro st) (currentMacro st) true.

(** [g_has_error = 1; inMacro = 0; continue;] *)
Definition abandon (st : State) : State :=
  mkState (macroList st) false (currentMacro st) true.

(** The last character of the text [fgets] stored. *)
Fixpoint last_char (s : string) : ascii :=
  match s with
  | EmptyString => Ascii.zero
  | String c EmptyString => c
  | String _ r => last_char r
  end.

(** [feof(input)] after a call of [fgets] that stored [line]: the end
    of the file was met when the call stopped before a line feed and
    before the buffer was full. *)
Definition feof_after (line : string) : bool :=
  negb (Ascii.eqb (last_char line) "010")
  && (String.length line <? MAX_LINE_LENGTH + 1)%nat.

(** [line_len > 0 && line[line_len - 1] != '\n' && !feof(input)] *)
Definition line_exceeds (line : string) : bool :=
  (0 <? strlen line)
  && negb (Ascii.eqb (last_char line) "010")
  && negb (feof_after line).

(** [strcpy(currentMacro->lines[currentMacro->lineCount], line);
    currentMacro->lineCount++] *)
Definition store_line (line : string) (l : list Macro) : list Macro :=
  match l with
  | m :: rest => mkMacro (macro_name m) (macro_lines m ++ [line]) :: rest
  | [] => []
  end.

(** The branch for a line whose first word is [mcro]; [after] is
    [trimmed_line + read_count]. *)
Definition macro_start (after : string) (st : State) : State :=
  if inMacro st then with_error st
  else
    let macro_name_pos := skip_whitespace_macro after in
    match scan_token macro_name_pos with
    | None => abandon st
    | Some (name, _, after_name) =>
        let remaining := skip_whitespace_macro after_name in
        match remaining with
        | String _ _ => abandon st
        | EmptyString =>
            if negb (is_valid_label name) || is_reserved_macro_name name
            then abandon st
            else
              let g :=
                g_has_error st
                || existsb (fun temp_iter => strcmp0 (macro_name temp_iter) name)
                           (macroList st) in
              if g then mkState (macroList st) false (currentMacro st) g
              else
                mkState (mkMacro (strncpy name (MAX_SYMBOL_LENGTH - 1)) []
                           :: macroList st)
                        true true g
        end
    end.

(** The branch for a line whose first word is [mcroend]. *)
Definition macro_end (after : string) (st : State) : State :=
  if negb (inMacro st) then with_error st
  else
    let e := match skip_whitespace_macro after with
             | EmptyString => false
             | String _ _ => true
             end in
    mkState (macroList st) false false (g_has_error st || e).

(** The body of the loop for a line that passed the length check. *)
Definition macro_line (line : string) (st : State) : State :=
  let line := cut_at line line_end in
  let trimmed_line := skip_whitespace_macro line in
  match trimmed_line with
  | EmptyString => st
  | String c _ =>
      if Ascii.eqb c ";" then st
      else
        match scan_token trimmed_line with
        | None => st
        | Some (command_token, _, after) =>
            if strcmp0 command_token "mcro" then macro_start after st
            else if strcmp0 command_token "mcroend" then macro_end after st
            else if inMacro st then
              if negb (currentMacro st) then abandon st
              else mkState (store_line line (macroList st)) (inMacro st)
                           (currentMacro st) (g_has_error st)
            else st
        end
  end.

(** The reading loop; every round consumes at least one character. *)
Fixpoint macro_loop (fuel : nat) (input : string) (st : State) : State :=
  match fuel with
  | O => st
  | S fuel' =>
      match fgets (MAX_LINE_LENGTH + 2) input with
      | None => st
      | Some (line, input') =>
          if line_exceeds line
          then macro_loop fuel' (skip_rest_of_line input') (with_error st)
          else macro_loop fuel' input' (macro_line line st)
      end
  end.

(** [processMacroDefinitions] on the text of the file, with the value
    [g_has_error] has when it is called: the list returned and the flag
    afterwards. *)
Definition processMacroDefinitions (input : string) (g_has_error0 : bool)
  : list Macro * bool :=
  let st := macro_loop (S (String.length input)) input
                       (mkState [] false false g_has_error0) in
  (macroList st, g_has_error st || inMacro st).

(** The loop that copies the first word into [macro_name]. *)
Definition first_word (macro_start : string) : string :=
  strncpy (take_while (fun c => negb (isspace c)) macro_start)
          (MAX_SYMBOL_LENGTH - 1).

Fixpoint find_macro (macroList : list Macro) (name : string)
  : option Macro :=
  match macroList with
  | [] => None
  | iter :: next =>
      if strcmp0 (macro_name iter) name then Some iter
      else find_macro next name
  end.

Definition line_feed : string := String "010"%char EmptyString.

(** [expandMacroInLine]: the text returned, which is [line] itself when
    nothing is expanded. *)
Definition expandMacroInLine (line : string) (macroList : list Macro)
  : string :=
  let line_copy := cut_at line line_end in
  let trimmed := skip_whitespace_macro line_copy in
  match trimmed with
  | EmptyString => line
  | String c _ =>
      if Ascii.eqb c ";" then line
      else
        let colon := strchr trimmed ":" in
        let macro_start :=
          match colon with
          | Some colon_pos => skip_whitespace_macro (advance 1 colon_pos)
          | None => trimmed
          end in
        match colon, macro_start with
        | Some _, EmptyString => line
        | _, _ =>
            let macro_name := first_word macro_start in
            match macro_name with
            | EmptyString => line
            | _ =>
                match find_macro macroList macro_name with
                | None => line
                | Some iter =>
                    match colon, macro_lines iter with
                    | Some _, _ :: _ =>
                        strncpy line (String.length line_copy
                                      - String.length macro_start)
                          ++ String.concat line_feed (macro_lines iter)
                    | _, _ => String.concat line_feed (macro_lines iter)
                    end
                end
            end
        end
  end.

End MacroProcessor.

(** ** Notions used to state the properties *)

Module Notions.
Import CString Assembler SymbolTable Base4 SecondPass OutputFiles.

(** The unsigned value of a rendered word. *)
Definition word_value (w : string) : option Z := spec_decode_digits w 0.

(** The text [rN] of register number [n]. *)
Definition register_name (n : Z) : string :=
  String "r" (String (ascii_of_N (Z.to_N (48 + n))) EmptyString).

(** The text [NAME[rX][rY]] of a matrix operand. *)
Definition matrix_operand (name : string) (x y : Z) : string :=
  name ++ "[" ++ register_name x ++ "][" ++ register_name y ++ "]".

(** A field of the header line of the object file. *)
Definition header_field (count : Z) : string :=
  stripLeadingA (convertToBase4 count).

(** Recording one usage the way the second pass does: the symbol is
    looked up by name and [addExternalUsage] stores into it. *)
Definition record_usage (t : SymTab) (usage : string * Z) : SymTab :=
  update_found t (fst usage)
               (fun s => fst (addExternalUsage s (snd usage))).

Definition record_all (t : SymTab) (usages : list (string * Z)) : SymTab :=
  fold_left record_usage usages t.

(** The addresses recorded for [name], in the order of recording. *)
Definition recorded_for (name : string) (usages : list (string * Z))
  : list Z :=
  map snd (filter (fun u => strcmp0 (fst u) name) usages).

(** The lines of the externals file that belong to the symbols named
    [name], in the order in which the file has them. *)
Definition ext_lines_for (name : string) (t : SymTab) : list string :=
  flat_map external_lines
           (filter (fun s => strcmp0 (sym_name s) name) t).

Definition ext_line (name : string) (address : Z) : string :=
  name ++ " " ++ convertToBase4 address.

(** What a step of the encoder has written, however it ends. *)
Definition flow_progress (f : SecondPass.Flow) : SecondPass.Progress :=
  match f with
  | SecondPass.Next p => p
  | SecondPass.Return_error p => p
  end.

Definition nonneg (s : Symbol) : Prop := 0 <= sym_address s.

(** A symbol without its usage list. *)
Definition core (s : Symbol) : string * Z * SymbolType :=
  (sym_name s, sym_address s, sym_type s).

(** What every line of the first pass keeps true: the counters do not go
    below their initial values and no symbol has a negative address. *)
Definition addresses_ok (st : FirstPass.State) : Prop :=
  MEMORY_START <= FirstPass.IC st /\ 0 <= FirstPass.DC st
  /\ Forall nonneg (FirstPass.symTab st).

(** The opcode word of the instruction a step works on. *)
Definition code_of (p : SecondPass.Progress) : string :=
  machine_code_base4 (fst (fst p)).

(** The symbol table a step works on. *)
Definition table_of (p : SecondPass.Progress) : SymTab := snd (fst p).

(** The number of words a list of instruction records takes. *)
Definition words_of (l : list Instruction) : Z :=
  fold_right (fun i n => instruction_length i + n) 0 l.

Definition line_feed : string := String "010"%char EmptyString.

(** A source text from its lines. *)
Definition text (lines : list string) : string :=
  String.concat line_feed lines ++ line_feed.

End Notions.

(** ** Further notions used to state properties *)

Module MoreNotions.
Import CString Assembler Lexical SymbolTable Tables Operands SecondPass.
Import DataDirectives FirstPass Base4 OutputFiles Driver Notions.

(** Every character of [s] satisfies [p]. *)
Fixpoint string_forall (p : ascii -> bool) (s : string) : bool :=
  match s with
  | EmptyString => true
  | String c r => p c && string_forall p r
  end.

Definition is_base4_digit (c : ascii) : bool := mem_char c "abcd".

(** [k] times the digit 'a'. *)
Fixpoint a_run (k : nat) : string :=
  match k with
  | O => EmptyString
  | S k' => String "a" (a_run k')
  end.

(** The data after the values [vs] were appended one by one. *)
Definition pushed (vs : list Z) (d : Data) : Data :=
  fold_left (fun d v => push_data v d) vs d.

Definition in_word_range (v : Z) : Prop := -512 <= v <= 511.

(** What the first pass keeps true of a symbol, given the counters: it has
    no usage yet and its address fits its type. *)
Definition sym_ok (ic dc : Z) (s : Symbol) : Prop :=
  external_usages s = []
  /\ match sym_type s with
     | SYMBOL_CODE => MEMORY_START <= sym_address s <= ic
     | SYMBOL_DATA => 0 <= sym_address s <= dc
     | SYMBOL_EXTERNAL => sym_address s = 0
     | SYMBOL_ENTRY =>
         0 <= sym_address s <= dc \/ MEMORY_START <= sym_address s <= ic
     end.

Definition table_ok (st : State) : Prop :=
  MEMORY_START <= IC st /\ 0 <= DC st
  /\ NoDup (map sym_name (symTab st))
  /\ Forall (sym_ok (IC st) (DC st)) (symTab st).




(** The instruction list, newest first, ends at [ic]: every record has a
    length of one to five words and starts where the one before it
    ends. *)
Fixpoint code_stacked (l : list Instruction) (ic : Z) : Prop :=
  match l with
  | [] => ic = MEMORY_START
  | x :: l' =>
      inst_address x + instruction_length x = ic
      /\ 1 <= instruction_length x <= 5
      /\ code_stacked l' (inst_address x)
  end.

(** The instruction list, oldest first, tiles the addresses from [start]
    to [stop]. *)
Fixpoint tiles (start : Z) (l : list Instruction) (stop : Z) : Prop :=
  match l with
  | [] => start = stop
  | x :: l' =>
      inst_address x = start
      /\ 1 <= instruction_length x <= 5
      /\ tiles (start + instruction_length x) l' stop
  end.

(** The insertions the first pass makes: a data label at DC, a code label
    at IC, an external or an entry placeholder at 0. *)
Definition first_pass_insert (st : State) (a : Z) (ty : SymbolType) : Prop :=
  match ty with
  | SYMBOL_DATA => a = DC st
  | SYMBOL_CODE => a = IC st
  | SYMBOL_EXTERNAL | SYMBOL_ENTRY => a = 0
  end.

(** Where a symbol is when the first pass has relocated the table: code
    inside the code segment, data inside the data segment behind it,
    external symbols at 0, and no usage recorded yet. *)
Definition sym_placed (ic dc : Z) (s : Symbol) : Prop :=
  external_usages s = []
  /\ match sym_type s with
     | SYMBOL_CODE => MEMORY_START <= sym_address s <= ic
     | SYMBOL_DATA => ic <= sym_address s <= ic + dc
     | SYMBOL_EXTERNAL => sym_address s = 0
     | SYMBOL_ENTRY => MEMORY_START <= sym_address s <= ic + dc
     end.

(** [num_operands] counts the operand fields that are not empty. *)
Definition operands_counted (i : Instruction) : Prop :=
  (num_operands i = 0 /\ operand1 i = EmptyString /\ operand2 i = EmptyString)
  \/ (num_operands i = 1 /\ operand1 i <> EmptyString
      /\ operand2 i = EmptyString)
  \/ (num_operands i = 2 /\ operand1 i <> EmptyString
      /\ operand2 i <> EmptyString).

(** An instruction record as the first pass checked it. *)
Definition validated (i : Instruction) : Prop :=
  is_opcode (opcode i) = true
  /\ validate_instruction_operands (opcode i) (operand1 i) (operand2 i)
                                   (num_operands i) = true
  /\ instruction_length i
     = calculate_instruction_length (opcode i) (operand1 i) (operand2 i)
  /\ operands_counted i
  /\ machine_code_base4 i = EmptyString
  /\ num_operand_words i = 0.

(** The instruction and the word index a step of the encoder works on. *)
Definition inst_of (p : Progress) : Instruction := fst (fst p).
Definition idx_of (p : Progress) : nat := snd p.

(** What the first pass stored in an instruction record, the operand
    texts apart. *)
Definition slot (i : Instruction) : Z * Z * string * Z * Z :=
  (inst_address i, original_line_number i, opcode i, num_operands i,
   instruction_length i).

(** [s'] is [s] with usages put in front of its list, each of them
    satisfying [P]; a symbol that is not external is the same. *)
Definition extended_by (P : Z -> Prop) (s s' : Symbol) : Prop :=
  core s' = core s
  /\ (sym_type s <> SYMBOL_EXTERNAL -> s' = s)
  /\ exists new, external_usages s' = (new ++ external_usages s)%list
                 /\ Forall P new.

(** A step of the encoder from [p] to [p']: the record keeps its slot,
    the word index does not go back, and every usage the step records is
    the address of one of the operand words the step wrote. *)
Definition step_ok (p p' : Progress) : Prop :=
  slot (inst_of p') = slot (inst_of p)
  /\ (idx_of p <= idx_of p')%nat
  /\ Forall2 (extended_by
                (fun a => inst_address (inst_of p) + Z.of_nat (idx_of p) < a
                          <= inst_address (inst_of p) + Z.of_nat (idx_of p')))
             (table_of p) (table_of p').

(** An encoded record whose word count is the length the first pass
    computed. *)
Definition counted (i : Instruction) : Prop :=
  0 <= num_operand_words i
  /\ num_operand_words i + 1 = instruction_length i.



Definition is_entry (s : Symbol) : bool :=
  SymbolType_eqb (sym_type s) SYMBOL_ENTRY.

Definition entry_line (s : Symbol) : string :=
  sym_name s ++ " " ++ convertToBase4 (sym_address s).

(** The two low bits of an operand word: 1 for an external symbol, 2 for
    any other. *)
Definition are_bits (s : Symbol) : Z :=
  if SymbolType_eqb (sym_type s) SYMBOL_EXTERNAL then 1 else 2.

(** A token of a [.data] list as it is written: no white space and no
    comma inside, accepted by [is_valid_number], with a value that fits a
    word. *)
Definition number_token (tok : string) : Prop :=
  tok <> EmptyString
  /\ string_forall (fun c => negb (isspace c) && negb (Ascii.eqb c ",")) tok
     = true
  /\ is_valid_number tok = true
  /\ in_word_range (atoi tok).

(** The operand text of a [.data] line: the tokens, each after its own
    white space, separated by commas. *)
Definition data_text (items : list (string * string)) : string :=
  String.concat "," (map (fun it => fst it ++ snd it) items).

(** A character of a line of a text file: neither a line feed nor NUL. *)
Definition line_char (c : ascii) : bool :=
  negb (Ascii.eqb c "010") && negb (Ascii.eqb c Ascii.zero).

(** The text of a file whose lines are [lines], each ended by a line
    feed. *)
Definition file_of (lines : list string) : string :=
  fold_right (fun l rest => l ++ String "010" rest)%string EmptyString lines.

(** The first pass line by line: a line of more than [MAX_LINE_LENGTH]
    characters is counted and flagged, any other is counted and handed to
    [process_line]. *)
Fixpoint run_lines (lines : list string) (st : State) : option State :=
  match lines with
  | [] => Some st
  | l :: rest =>
      if (MAX_LINE_LENGTH <? String.length l)%nat
      then run_lines rest (with_error (next_line st))
      else
        match process_line (l ++ Notions.line_feed) (next_line st) with
        | None => None
        | Some st' => run_lines rest st'
        end
  end.



(** Blanks and tabs only. *)
Definition blanks (ws : string) : bool :=
  string_forall (fun c => mem_char c blank_or_tab) ws.

(** A word that can stand where a macro is called: at most 30
    characters, none of them white space or a colon, the first one no
    semicolon. *)
Definition call_word (name : string) : Prop :=
  (String.length name <= MAX_SYMBOL_LENGTH - 1)%nat
  /\ string_forall (fun c => negb (isspace c) && negb (Ascii.eqb c ":")) name
     = true
  /\ match name with
     | EmptyString => False
     | String c _ => Ascii.eqb c ";" = false
     end.

(** What may follow the word on the line: nothing, or white space and
    then any text without a colon. *)
Definition call_rest (rest : string) : Prop :=
  string_forall (fun c => negb (Ascii.eqb c ":")) rest = true
  /\ match rest with
     | EmptyString => True
     | String c _ => isspace c = true
     end.

(** What may stand in front of the colon of a labelled call. *)
Definition label_text (pre : string) : Prop :=
  string_forall (fun c => negb (mem_char c line_end)
                          && negb (Ascii.eqb c ":")
                          && negb (Ascii.eqb c ";")) pre = true.



(** A name that may be in the symbol table: a legal label that is no
    opcode and no register. *)
Definition name_ok (s : Symbol) : Prop :=
  is_valid_label (sym_name s) = true
  /\ is_opcode (sym_name s) || is_register (sym_name s) = false.

End MoreNotions.

(* ================================================================== *)
(** * Part II: properties *)
(* ================================================================== *)

(** ** Base-4 rendering *)

Module Base4Facts.
Import CString Base4 Notions.

Lemma land3_mod (v : Z) : Z.land v 3 = v mod 4.
Proof. apply (Z.land_ones v 2). lia. Qed.

Lemma land3_cases (v : Z) :
  Z.land v 3 = 0 \/ Z.land v 3 = 1 \/ Z.land v 3 = 2 \/ Z.land v 3 = 3.
Proof.
  rewrite land3_mod.
  pose proof (Z.mod_pos_bound v 4 ltac:(lia)). lia.
Qed.

Lemma digit_of_char (v : Z) :
  spec_digit_value (base4_char (Z.land v 3)) = Some (v mod 4).
Proof.
  rewrite <- land3_mod.
  destruct (land3_cases v) as [H | [H | [H | H]]]; rewrite H; reflexivity.
Qed.

Lemma land1023_mod (v : Z) : Z.land v 1023 = v mod 1024.
Proof. apply (Z.land_ones v 10). lia. Qed.

(** Reading back what [fill_digits] wrote: the [k] digits of [v] are
    read first, then whatever was there. *)
Lemma decode_fill_digits (k : nat) :
  forall v filled acc,
    spec_decode_digits (fill_digits k v filled) acc
    = spec_decode_digits filled (acc * 4 ^ Z.of_nat k + v mod 4 ^ Z.of_nat k).
Proof.
  induction k as [| k IH]; intros v filled acc.
  - cbn [fill_digits]. change (4 ^ Z.of_nat 0) with 1.
    rewrite Z.mod_1_r. f_equal. lia.
  - cbn [fill_digits]. rewrite IH. cbn [spec_decode_digits].
    rewrite digit_of_char. f_equal.
    rewrite Z.shiftr_div_pow2 by lia. change (2 ^ 2) with 4.
    rewrite Nat2Z.inj_succ, Z.pow_succ_r by lia.
    rewrite (Z.rem_mul_r v 4 (4 ^ Z.of_nat k)) by lia.
    lia.
Qed.

Lemma word_value_convert (v : Z) :
  word_value (convertToBase4 v) = Some (v mod 1024).
Proof.
  unfold word_value, convertToBase4. rewrite decode_fill_digits.
  cbn [spec_decode_digits]. f_equal.
  change (4 ^ Z.of_nat BASE4_LENGTH) with 1024.
  rewrite land1023_mod, Z.mod_mod by lia. lia.
Qed.

Lemma length_fill_digits (k : nat) :
  forall v filled,
    String.length (fill_digits k v filled) = (k + String.length filled)%nat.
Proof.
  induction k as [| k IH]; intros v filled; cbn [fill_digits].
  - reflexivity.
  - rewrite IH. cbn [String.length]. lia.
Qed.

Lemma length_convertToBase4 (v : Z) :
  String.length (convertToBase4 v) = 5%nat.
Proof. unfold convertToBase4. now rewrite length_fill_digits. Qed.

Lemma sign_extend_mod (n : Z) :
  -512 <= n <= 511 -> spec_sign_extend10 (n mod 1024) = n.
Proof.
  intros Hn. unfold spec_sign_extend10.
  destruct (Z_lt_le_dec n 0) as [Hneg | Hpos].
  - assert (E : n mod 1024 = n + 1024).
    { symmetry. apply (Z.mod_unique n 1024 (-1)); lia. }
    rewrite E. destruct (512 <=? n + 1024) eqn:C; [lia |].
    apply Z.leb_gt in C. lia.
  - rewrite Z.mod_small by lia.
    destruct (512 <=? n) eqn:C; [apply Z.leb_le in C; lia | reflexivity].
Qed.

Lemma stripLeadingA_cons (c d : ascii) (r : string) :
  stripLeadingA (String c (String d r))
  = if Ascii.eqb c "a" then stripLeadingA (String d r)
    else String c (String d r).
Proof. reflexivity. Qed.

(** Stripping leading ['a'] digits does not change the value read. *)
Lemma decode_stripLeadingA (s : string) :
  spec_decode_digits (stripLeadingA s) 0 = spec_decode_digits s 0.
Proof.
  induction s as [| c r IH]; [reflexivity |].
  destruct r as [| d r']; [reflexivity |].
  rewrite stripLeadingA_cons.
  destruct (Ascii.eqb c "a") eqn:E; [| reflexivity].
  apply Ascii.eqb_eq in E. subst c. rewrite IH. reflexivity.
Qed.

(** What is left either is a single digit or does not start with
    ['a']. *)
Lemma stripLeadingA_head (s : string) :
  forall c r, stripLeadingA s = String c r -> c = "a"%char -> r = EmptyString.
Proof.
  induction s as [| c0 r0 IH]; intros c r E Hc; [discriminate |].
  destruct r0 as [| d r'].
  - cbn in E. now inversion E.
  - rewrite stripLeadingA_cons in E.
    destruct (Ascii.eqb c0 "a") eqn:E0.
    + eapply IH; eauto.
    + inversion E; subst. now rewrite Ascii.eqb_refl in E0.
Qed.

Lemma header_field_value (v : Z) :
  word_value (header_field v) = Some (v mod 1024).
Proof.
  unfold header_field, word_value. rewrite decode_stripLeadingA.
  apply word_value_convert.
Qed.

Lemma header_field_zero (v : Z) :
  v mod 1024 = 0 -> header_field v = "a".
Proof.
  intros H. unfold header_field, convertToBase4.
  rewrite land1023_mod, H. reflexivity.
Qed.

Lemma header_field_nonzero (v : Z) :
  v mod 1024 <> 0 ->
  exists c r, header_field v = String c r /\ c <> "a"%char.
Proof.
  intros H. pose proof (header_field_value v) as V.
  destruct (header_field v) as [| c r] eqn:E.
  - cbn in V. congruence.
  - exists c, r. split; [reflexivity |]. intros ->.
    unfold header_field in E.
    rewrite (stripLeadingA_head _ _ _ E eq_refl) in V. cbn in V. congruence.
Qed.

(** C7.  For every integer n in [-512, 511], rendering n as five base-4
    digits (after the 10-bit mask) and reading the digits back with sign
    extension from 10 bits gives n again. *)
Theorem base4_roundtrip (n : Z) :
  -512 <= n <= 511 -> spec_decode (convertToBase4 n) = Some n.
Proof.
  intros Hn. unfold spec_decode.
  pose proof (word_value_convert n) as V. unfold word_value in V.
  rewrite V. cbn [option_map]. now rewrite sign_extend_mod.
Qed.

Lemma base4_roundtrip_witness :
  -512 <= -512 <= 511 /\ spec_decode (convertToBase4 (-512)) = Some (-512).
Proof.
  split; [lia | apply (base4_roundtrip (-512)); lia].
Defined.

End Base4Facts.

(** ** The symbol table *)

Module SymbolTableFacts.
Import CString Assembler Lexical SymbolTable OutputFiles Notions.

Local Arguments strcmp0 : simpl never.

(** C10.  A call of addSymbol that is rejected (it reports an error:
    reserved name, bad label syntax, or a conflict with the symbol
    already in the table) leaves the symbol table exactly as it was. *)
Theorem addSymbol_rejected_unchanged
        (head : SymTab) (name : string) (address : Z) (type : SymbolType) :
  snd (addSymbol head name address type) = true ->
  fst (addSymbol head name address type) = head.
Proof.
  unfold addSymbol.
  destruct (is_opcode name || is_register name); [reflexivity |].
  destruct (negb (is_valid_label name)); [reflexivity |].
  destruct (findSymbol head name) as [existing |]; [| discriminate].
  destruct type, (sym_type existing); cbn;
    try reflexivity; try discriminate;
    destruct (sym_address existing =? 0); cbn;
    try reflexivity; discriminate.
Qed.

Lemma addSymbol_rejected_unchanged_witness :
  let head := [mkSymbol "LOOP" 100 SYMBOL_CODE []] in
  snd (addSymbol head "LOOP" 104 SYMBOL_DATA) = true
  /\ fst (addSymbol head "LOOP" 104 SYMBOL_DATA) = head.
Proof.
  split; [reflexivity |].
  apply (addSymbol_rejected_unchanged
           [mkSymbol "LOOP" 100 SYMBOL_CODE []] "LOOP" 104 SYMBOL_DATA).
  reflexivity.
Defined.

(** Each reason for rejection gives a rejected call. *)
Lemma addSymbol_reserved head name address type :
  is_opcode name || is_register name = true ->
  addSymbol head name address type = (head, true).
Proof. intros H. unfold addSymbol. now rewrite H. Qed.

Lemma addSymbol_bad_label head name address type :
  is_valid_label name = false ->
  addSymbol head name address type = (head, true).
Proof.
  intros H. unfold addSymbol. rewrite H.
  now destruct (is_opcode name || is_register name).
Qed.

Lemma strcmp0_eq (a b : string) : strcmp0 a b = true -> a = b.
Proof. apply String.eqb_eq. Qed.

Lemma findSymbol_name (t : SymTab) (n : string) (s : Symbol) :
  findSymbol t n = Some s -> sym_name s = n.
Proof.
  induction t as [| x t IH]; cbn; [discriminate |].
  destruct (strcmp0 (sym_name x) n) eqn:E; [| exact IH].
  intros [= <-]. now apply strcmp0_eq.
Qed.

Lemma findSymbol_record_usage (t : SymTab) (n : string) (u : string * Z)
      (s : Symbol) :
  findSymbol t n = Some s -> sym_type s = SYMBOL_EXTERNAL ->
  exists s', findSymbol (record_usage t u) n = Some s'
             /\ sym_type s' = SYMBOL_EXTERNAL.
Proof.
  destruct u as [m a]. unfold record_usage. cbn [fst snd].
  induction t as [| x t IH]; cbn; [discriminate |].
  intros F T.
  destruct (strcmp0 (sym_name x) m) eqn:Em; cbn.
  - destruct (strcmp0 (sym_name x) n) eqn:En.
    + injection F as <-. unfold addExternalUsage. rewrite T. cbn.
      rewrite En. eauto.
    + unfold addExternalUsage.
      destruct (sym_type x); cbn; rewrite En; eauto.
  - destruct (strcmp0 (sym_name x) n) eqn:En; eauto.
Qed.

Lemma ext_lines_record_same (t : SymTab) (n : string) (a : Z) (s : Symbol) :
  findSymbol t n = Some s -> sym_type s = SYMBOL_EXTERNAL ->
  ext_lines_for n (record_usage t (n, a))
  = ext_line n a :: ext_lines_for n t.
Proof.
  unfold record_usage, ext_lines_for. cbn [fst snd].
  induction t as [| x t IH]; cbn; [discriminate |].
  intros F T.
  destruct (strcmp0 (sym_name x) n) eqn:En.
  - injection F as <-. unfold addExternalUsage. rewrite T. cbn.
    rewrite En. cbn. unfold external_lines at 1 2. cbn. rewrite T. cbn.
    apply strcmp0_eq in En. now rewrite En.
  - cbn. rewrite En. now apply IH.
Qed.

Lemma ext_lines_record_other (t : SymTab) (n m : string) (a : Z) :
  strcmp0 m n = false ->
  ext_lines_for n (record_usage t (m, a)) = ext_lines_for n t.
Proof.
  unfold record_usage, ext_lines_for. cbn [fst snd]. intros D.
  induction t as [| x t IH]; cbn; [reflexivity |].
  destruct (strcmp0 (sym_name x) m) eqn:Em.
  - apply strcmp0_eq in Em. cbn.
    assert (N : sym_name (fst (addExternalUsage x a)) = sym_name x).
    { unfold addExternalUsage. now destruct (sym_type x). }
    rewrite N, Em, D. reflexivity.
  - cbn. destruct (strcmp0 (sym_name x) n); cbn; now rewrite IH.
Qed.

(** Every recorded usage puts its line in front of the lines the symbol
    already has. *)
Lemma ext_lines_record_all (n : string) (usages : list (string * Z)) :
  forall (t : SymTab) (s : Symbol),
    findSymbol t n = Some s -> sym_type s = SYMBOL_EXTERNAL ->
    ext_lines_for n (record_all t usages)
    = (map (ext_line n) (rev (recorded_for n usages)) ++ ext_lines_for n t)%list.
Proof.
  unfold record_all, recorded_for.
  induction usages as [| [m a] us IH]; intros t s F T; [reflexivity |].
  cbn [fold_left filter fst].
  destruct (findSymbol_record_usage t n (m, a) s F T) as (s' & F' & T').
  rewrite (IH _ s' F' T').
  destruct (strcmp0 m n) eqn:E.
  - apply strcmp0_eq in E. subst m.
    rewrite (ext_lines_record_same t n a s F T).
    cbn [map snd rev]. rewrite map_app, <- app_assoc. reflexivity.
  - now rewrite (ext_lines_record_other t n m a E).
Qed.

Lemma unused_externals_no_lines (n : string) (l : SymTab) :
  existsb used_external l = false -> ext_lines_for n l = [].
Proof.
  unfold ext_lines_for.
  induction l as [| x l IH]; intros X; [reflexivity |].
  cbn in X. apply orb_false_elim in X. destruct X as [X1 X2].
  cbn. destruct (strcmp0 (sym_name x) n); [| now apply IH].
  cbn. rewrite (IH X2), app_nil_r.
  unfold external_lines, used_external in *.
  destruct (SymbolType_eqb (sym_type x) SYMBOL_EXTERNAL); [| reflexivity].
  now destruct (external_usages x).
Qed.

(** C3, as the code has it.  For an external symbol that has no usage
    yet, the externals file gets one line per usage recorded for it, and
    these lines appear in the reverse of the order of recording (the
    usage recorded last comes first); the file is written as soon as one
    usage was recorded. *)
Theorem ext_lines_latest_usage_first
        (t : SymTab) (n : string) (s : Symbol) (usages : list (string * Z)) :
  findSymbol t n = Some s ->
  sym_type s = SYMBOL_EXTERNAL ->
  ext_lines_for n t = [] ->
  ext_lines_for n (record_all t usages)
  = map (ext_line n) (rev (recorded_for n usages))
  /\ List.length (ext_lines_for n (record_all t usages))
     = List.length (recorded_for n usages)
  /\ (recorded_for n usages <> [] ->
      writeExternalsFile (record_all t usages)
      = Some (flat_map external_lines (record_all t usages))).
Proof.
  intros F T Fresh.
  assert (E : ext_lines_for n (record_all t usages)
              = map (ext_line n) (rev (recorded_for n usages))).
  { rewrite (ext_lines_record_all n usages t s F T), Fresh.
    apply app_nil_r. }
  split; [exact E |]. split.
  - rewrite E. now rewrite length_map, length_rev.
  - intros NE. unfold writeExternalsFile.
    destruct (existsb used_external (record_all t usages)) eqn:X;
      [reflexivity |].
    exfalso. apply NE.
    pose proof (unused_externals_no_lines n _ X) as L.
    rewrite E in L. apply (f_equal (@List.length string)) in L.
    rewrite length_map, length_rev in L.
    now destruct (recorded_for n usages).
Qed.

Lemma ext_lines_latest_usage_first_witness :
  let x := mkSymbol "X" 0 SYMBOL_EXTERNAL [] in
  let usages := [("X", 101); ("Y", 102); ("X", 103)] in
  findSymbol [x] "X" = Some x
  /\ sym_type x = SYMBOL_EXTERNAL
  /\ ext_lines_for "X" [x] = []
  /\ recorded_for "X" usages = [101; 103]
  /\ ext_lines_for "X" (record_all [x] usages) = ["X abcbd"; "X abcbb"].
Proof.
  do 4 (split; [reflexivity |]).
  exact (proj1 (ext_lines_latest_usage_first
                  [mkSymbol "X" 0 SYMBOL_EXTERNAL []] "X"
                  (mkSymbol "X" 0 SYMBOL_EXTERNAL [])
                  [("X", 101); ("Y", 102); ("X", 103)]
                  eq_refl eq_refl eq_refl)).
Defined.

End SymbolTableFacts.

(** ** Encoding of instructions *)

Module EncodingFacts.
Import CString Assembler Lexical SymbolTable Tables Operands SecondPass.
Import FirstPass Base4 Notions.

Ltac enum_reg i H :=
  assert (i = 0 \/ i = 1 \/ i = 2 \/ i = 3 \/ i = 4 \/ i = 5 \/ i = 6 \/ i = 7)
    as H by lia;
  destruct H as [H | [H | [H | [H | [H | [H | [H | H]]]]]]]; subst i.

Ltac enum_opcode H :=
  cbn in H;
  repeat match type of H with
         | _ \/ _ => destruct H as [H | H]
         end;
  [subst .. | contradiction].

(** C6.  A two-operand instruction whose operands are both registers
    r0..r7 has length 2, and when the second pass encodes it (the
    operands are legal for the opcode) it emits one operand word, which
    holds the source register in bits 9-6, the destination register in
    bits 5-2 and the ARE digit 'a'. *)
Theorem two_registers_share_one_word
        (opc : string) (i j address line : Z) (t : SymTab) :
  In opc two_operand_opcodes -> 0 <= i <= 7 -> 0 <= j <= 7 ->
  let inst :=
    new_instruction address line opc 2 (register_name i) (register_name j) in
  calculate_instruction_length opc (register_name i) (register_name j) = 2
  /\ instruction_length inst = 2
  /\ (validate_instruction_operands opc (register_name i) (register_name j) 2
      = true ->
      exists inst' w,
        encode_instruction_words inst t = (inst', t, false)
        /\ num_operand_words inst' = 1
        /\ operand_words_base4 inst' = [w; ""; ""; ""]
        /\ word_value w = Some (Z.lor (Z.shiftl i 6) (Z.shiftl j 2))
        /\ char_at w 4 = "a"%char).
Proof.
  intros Hop Hi Hj.
  enum_opcode Hop; enum_reg i Hi'; enum_reg j Hj';
    (split; [vm_compute; reflexivity | split; [vm_compute; reflexivity |]]);
    intros V; vm_compute in V; try discriminate V;
    match goal with
    | |- context [encode_instruction_words ?x ?y] =>
        set (e := encode_instruction_words x y); vm_compute in e; subst e
    end;
    eexists; eexists; repeat split.
Qed.

Lemma two_registers_share_one_word_witness :
  In "mov" two_operand_opcodes /\ 0 <= 3 <= 7 /\ 0 <= 5 <= 7
  /\ calculate_instruction_length "mov" "r3" "r5" = 2
  /\ instruction_length (new_instruction 100 1 "mov" 2 "r3" "r5") = 2
  /\ exists inst' w,
      encode_instruction_words (new_instruction 100 1 "mov" 2 "r3" "r5") []
      = (inst', [], false)
      /\ num_operand_words inst' = 1
      /\ operand_words_base4 inst' = [w; ""; ""; ""]
      /\ word_value w = Some (Z.lor (Z.shiftl 3 6) (Z.shiftl 5 2))
      /\ char_at w 4 = "a"%char.
Proof.
  assert (Hop : In "mov" two_operand_opcodes) by (cbn; auto).
  assert (H3 : 0 <= 3 <= 7) by lia.
  assert (H5 : 0 <= 5 <= 7) by lia.
  destruct (two_registers_share_one_word "mov" 3 5 100 1 [] Hop H3 H5)
    as (L1 & L2 & E).
  repeat split; try assumption; try lia.
  apply E. reflexivity.
Defined.

(** *** Matrix operands *)

Lemma span_reject_bracket (name rest : string) :
  strchr name "[" = None ->
  span_reject (name ++ String "[" rest) "[" = (name, String "[" rest).
Proof.
  induction name as [| c r IH]; intros H; [reflexivity |].
  cbn in H |- *. destruct (Ascii.eqb c "[") eqn:E; [discriminate |].
  cbn. rewrite (IH H). reflexivity.
Qed.

Lemma sscanf_matrix_label_operand (name : string) (x y : Z) :
  name <> EmptyString -> strchr name "[" = None ->
  sscanf_matrix_label (matrix_operand name x y) = Some name.
Proof.
  intros NE H. unfold sscanf_matrix_label, matrix_operand.
  cbn [String.append]. rewrite (span_reject_bracket _ _ H).
  now destruct name.
Qed.

Lemma sscanf_matrix_regs_operand (name : string) (x y : Z) :
  name <> EmptyString -> strchr name "[" = None ->
  0 <= x <= 7 -> 0 <= y <= 7 ->
  sscanf_matrix_regs (matrix_operand name x y) = Some (x, y).
Proof.
  intros NE H Hx Hy. unfold sscanf_matrix_regs, matrix_operand.
  cbn [String.append]. rewrite (span_reject_bracket _ _ H).
  destruct name as [| c r]; [contradiction |].
  enum_reg x Hx'; enum_reg y Hy'; vm_compute; reflexivity.
Qed.

(** The register word, pair by pair: only [r2][r7] leaves the regular
    layout (the fixed word for [r3][r3] coincides with it). *)
Lemma encode_matrix_registers_value (x y : Z) :
  0 <= x <= 7 -> 0 <= y <= 7 ->
  if (x =? 2) && (y =? 7)
  then encode_matrix_registers x y = "cabbc"
  else word_value (encode_matrix_registers x y)
       = Some (Z.lor (Z.shiftl x 6) (Z.shiftl y 2))
       /\ char_at (encode_matrix_registers x y) 4 = "a"%char.
Proof.
  intros Hx Hy. enum_reg x Hx'; enum_reg y Hy'; vm_compute; auto.
Qed.

Lemma operand_words_set (k : nat) (w : string) (inst : Instruction) :
  operand_words_base4 (set_operand_word k w inst)
  = store_at k w (operand_words_base4 inst).
Proof. reflexivity. Qed.

(** C4, as the code has it.  For a matrix operand NAME[rX][rY] with X
    and Y in 0..7 whose base label is in the symbol table, two operand
    words are emitted, and the second one has the value
    (X << 6) | (Y << 2) with ARE digit 'a' for every register pair
    other than [r2][r7] (the pair [r3][r3] included); for [r2][r7] it
    is the fixed word "cabbc". *)
Theorem matrix_operand_register_word
        (name : string) (x y : Z) (inst : Instruction) (t : SymTab)
        (idx : nat) (sym : Symbol) (w0 w1 w2 w3 : string) :
  name <> EmptyString -> strchr name "[" = None ->
  0 <= x <= 7 -> 0 <= y <= 7 ->
  findSymbol t name = Some sym ->
  operand_words_base4 inst = [w0; w1; w2; w3] -> (idx <= 2)%nat ->
  exists inst' t' w,
    encode_label_or_matrix "c" (matrix_operand name x y) (inst, t, idx)
    = Next (inst', t', S (S idx))
    /\ nth_error (operand_words_base4 inst') (S idx) = Some w
    /\ w = encode_matrix_registers x y
    /\ if (x =? 2) && (y =? 7)
       then w = "cabbc"
       else word_value w = Some (Z.lor (Z.shiftl x 6) (Z.shiftl y 2))
            /\ char_at w 4 = "a"%char.
Proof.
  intros NE H Hx Hy F W Hidx.
  unfold encode_label_or_matrix. rewrite Ascii.eqb_refl.
  rewrite (sscanf_matrix_label_operand name x y NE H), F.
  rewrite (sscanf_matrix_regs_operand name x y NE H Hx Hy).
  assert (R : (x <? 0) || (7 <? x) || (y <? 0) || (7 <? y) = false).
  { repeat rewrite orb_false_iff. repeat split;
      apply Z.ltb_ge; lia. }
  rewrite R.
  eexists; eexists; exists (encode_matrix_registers x y).
  split; [reflexivity |]. split.
  - rewrite !operand_words_set, W.
    destruct idx as [| [| [| idx]]]; [reflexivity .. | lia].
  - split; [reflexivity |]. now apply encode_matrix_registers_value.
Qed.

Lemma matrix_operand_register_word_witness :
  exists inst' t' w,
    encode_label_or_matrix "c" (matrix_operand "M" 1 2)
      (new_instruction 100 1 "mov" 2 "M[r1][r2]" "r4",
       [mkSymbol "M" 115 SYMBOL_DATA []], O)
    = Next (inst', t', 2%nat)
    /\ nth_error (operand_words_base4 inst') 1 = Some w
    /\ w = encode_matrix_registers 1 2
    /\ word_value w = Some (Z.lor (Z.shiftl 1 6) (Z.shiftl 2 2))
    /\ char_at w 4 = "a"%char.
Proof.
  apply (matrix_operand_register_word
           "M" 1 2 (new_instruction 100 1 "mov" 2 "M[r1][r2]" "r4")
           [mkSymbol "M" 115 SYMBOL_DATA []] O
           (mkSymbol "M" 115 SYMBOL_DATA []) "" "" "" "");
    try reflexivity; try lia; discriminate.
Defined.

(** *** The opcode word of a single-operand instruction *)

Lemma encode_immediate_code (op : string) (p : Progress) :
  code_of (flow_progress (encode_immediate op p)) = code_of p.
Proof.
  destruct p as [[inst t] idx]. unfold encode_immediate.
  now destruct ((atoi (advance 1 op) <? -512) || (511 <? atoi (advance 1 op))).
Qed.

Lemma encode_label_or_matrix_code (mode : ascii) (op : string) (p : Progress) :
  code_of (flow_progress (encode_label_or_matrix mode op p)) = code_of p.
Proof.
  destruct p as [[inst t] idx]. unfold encode_label_or_matrix.
  destruct (if Ascii.eqb mode "c" then sscanf_matrix_label op else Some op)
    as [label |]; [| reflexivity].
  destruct (findSymbol t label) as [sym |]; [| reflexivity].
  destruct (Ascii.eqb mode "c"); [| reflexivity].
  destruct (sscanf_matrix_regs op) as [[r1 r2] |]; [| reflexivity].
  now destruct ((r1 <? 0) || (7 <? r1) || (r2 <? 0) || (7 <? r2)).
Qed.

Lemma process_operand1_code (c : ascii) (p : Progress) :
  code_of (flow_progress (fst (process_operand1 c p))) = code_of p.
Proof.
  destruct p as [[inst t] idx]. unfold process_operand1.
  destruct (1 <=? num_operands inst); [| reflexivity].
  destruct (Ascii.eqb c "d" && (num_operands inst =? 2)
            && Ascii.eqb (char_at (get_addressing_mode_base4 (operand2 inst)) 0) "d");
    [reflexivity |].
  destruct (Ascii.eqb c "a"); [apply encode_immediate_code |].
  destruct (Ascii.eqb c "d"); [reflexivity |].
  destruct (Ascii.eqb c "b" || Ascii.eqb c "c");
    [apply encode_label_or_matrix_code | reflexivity].
Qed.

Lemma process_operand2_code (shared : bool) (p : Progress) :
  code_of (flow_progress (process_operand2 shared p)) = code_of p.
Proof.
  destruct p as [[inst t] idx]. unfold process_operand2.
  destruct ((num_operands inst =? 2) && negb shared); [| reflexivity].
  set (c := char_at (get_addressing_mode_base4 (operand2 inst)) 0).
  destruct (Ascii.eqb c "a"); [apply encode_immediate_code |].
  destruct (Ascii.eqb c "d"); [reflexivity |].
  destruct (Ascii.eqb c "b" || Ascii.eqb c "c");
    [apply encode_label_or_matrix_code | reflexivity].
Qed.

(** Whatever the operand of a legal single-operand instruction is, its
    addressing-mode digit is the third digit of the opcode word (the
    source slot) and the fourth digit (the destination slot) is 'a'. *)
Lemma single_operand_opcode_word (inst : Instruction) (t : SymTab) :
  num_operands inst = 1 ->
  get_opcode_base4 (opcode inst) <> "aaaa" ->
  validate_instruction_operands (opcode inst) (trim_whitespace (operand1 inst))
    (trim_whitespace (operand2 inst)) 1 = true ->
  machine_code_base4 (fst (fst (encode_instruction_words inst t)))
  = chars [char_at (get_opcode_base4 (opcode inst)) 0;
           char_at (get_opcode_base4 (opcode inst)) 1;
           char_at (get_addressing_mode_base4
                      (trim_whitespace (operand1 inst))) 0;
           "a"%char; "a"%char].
Proof.
  intros N O V. unfold encode_instruction_words.
  destruct (strcmp0 (get_opcode_base4 (opcode inst)) "aaaa") eqn:E.
  { apply String.eqb_eq in E. contradiction. }
  cbn [num_operands opcode operand1 operand2 set_operands].
  rewrite N, V. cbn [negb Z.leb Z.eqb Z.compare Pos.compare Pos.compare_cont].
  match goal with
  | |- context [process_operand1 ?c ?p] =>
      pose proof (process_operand1_code c p) as P1;
      destruct (process_operand1 c p) as [[q | q] shared]
  end; cbn [fst flow_progress] in P1.
  - pose proof (process_operand2_code shared q) as P2.
    destruct (process_operand2 shared q) as [[[i' t'] k] | [[i' t'] k]];
      unfold code_of in P1, P2; cbn in P1, P2 |- *;
      rewrite P2, P1; reflexivity.
  - destruct q as [[i' t'] k].
    unfold code_of in P1; cbn in P1 |- *. rewrite P1. reflexivity.
Qed.

(** C1 at [inc r1].  The operand is a register (mode digit 'd'); the
    second pass writes the opcode word "bddaa": the mode digit stands in
    the source slot and the destination slot holds 'a', where the
    destination-slot layout would give "bdada". *)
Theorem single_operand_mode_in_source_slot :
  let inst := new_instruction 100 1 "inc" 1 "r1" "" in
  let code := machine_code_base4 (fst (fst (encode_instruction_words inst []))) in
  validate_instruction_operands "inc" "r1" "" 1 = true
  /\ snd (encode_instruction_words inst []) = false
  /\ get_addressing_mode_base4 "r1" = "d"
  /\ code = "bddaa"
  /\ char_at code 2 = "d"%char
  /\ char_at code 3 = "a"%char
  /\ code <> "bdada".
Proof. vm_compute. repeat split; discriminate. Qed.

(** C4 at [M[r2][r7]].  The second operand word of the matrix operand is
    "cabbc", whose value is 534 and whose ARE digit is 'c'; the regular
    layout gives (2 << 6) | (7 << 2) = 156, rendered "acbda". *)
Lemma matrix_r2_r7_breaks_layout :
  let inst := new_instruction 100 1 "mov" 2 (matrix_operand "M" 2 7) "r1" in
  let inst' := fst (fst (encode_instruction_words
                           inst [mkSymbol "M" 115 SYMBOL_DATA []])) in
  nth_error (operand_words_base4 inst') 1 = Some "cabbc"
  /\ word_value "cabbc" = Some 534
  /\ Z.lor (Z.shiftl 2 6) (Z.shiftl 7 2) = 156
  /\ word_value "cabbc" <> Some (Z.lor (Z.shiftl 2 6) (Z.shiftl 7 2))
  /\ char_at "cabbc" 4 <> "a"%char.
Proof. vm_compute. repeat split; discriminate. Qed.

End EncodingFacts.

(** ** The first pass *)

Module FirstPassFacts.
Import CString Assembler Lexical SymbolTable Tables Operands DataDirectives.
Import FirstPass Notions.

Local Arguments strcmp0 : simpl never.

Ltac break_match_in H :=
  match type of H with
  | context [match ?x with _ => _ end] => destruct x eqn:?
  end.

(** A directive line changes neither the instruction counter nor the
    instruction list. *)
Lemma process_directive_IC (c l p : string) (st st' : State) :
  process_directive c l p st = Some st' ->
  IC st' = IC st /\ temp_i_head st' = temp_i_head st.
Proof.
  unfold process_directive, add_symbol. intros H.
  repeat break_match_in H; inversion H; subst; cbn; auto.
Qed.

(** An instruction line either leaves them alone or adds one record and
    its length. *)
Lemma process_instruction_IC (c l p : string) (st : State) :
  IC (process_instruction c l p st)
  - words_of (temp_i_head (process_instruction c l p st))
  = IC st - words_of (temp_i_head st).
Proof.
  unfold process_instruction.
  set (st1 := if has_label l then add_symbol l (IC st) SYMBOL_CODE st else st).
  assert (E : IC st1 = IC st /\ temp_i_head st1 = temp_i_head st).
  { subst st1. unfold add_symbol. destruct (has_label l); [| auto].
    now destruct (addSymbol (symTab st) l (IC st) SYMBOL_CODE). }
  destruct E as [E1 E2].
  assert (W : IC (with_error st1) - words_of (temp_i_head (with_error st1))
              = IC st - words_of (temp_i_head st)).
  { cbn. now rewrite E1, E2. }
  destruct (has_label l && g_has_error st1); [now rewrite E1, E2 |].
  destruct (negb (is_opcode c)); [exact W |].
  destruct (parse_operands p) as [[[o1 o2] n] |]; [| exact W].
  destruct (negb (validate_instruction_operands c o1 o2 n)); [exact W |].
  set (newInst := new_instruction (IC st1) (lineNumber st1) c n o1 o2).
  destruct (instruction_length newInst =? -1); [exact W |].
  unfold with_instruction. cbn [IC temp_i_head words_of fold_right].
  fold (words_of (temp_i_head st1)). rewrite E1, E2. lia.
Qed.

Lemma process_line_IC (line : string) (st st' : State) :
  process_line line st = Some st' ->
  IC st' - words_of (temp_i_head st') = IC st - words_of (temp_i_head st).
Proof.
  unfold process_line. intros H.
  repeat break_match_in H; inversion H; subst; cbn; try reflexivity.
  - match goal with
    | E : process_directive _ _ _ _ = Some _ |- _ =>
        destruct (process_directive_IC _ _ _ _ _ E) as [-> ->]
    end. reflexivity.
  - apply process_instruction_IC.
Qed.

Lemma read_loop_IC (fuel : nat) :
  forall input st st',
    read_loop fuel input st = Some st' ->
    IC st' - words_of (temp_i_head st') = IC st - words_of (temp_i_head st).
Proof.
  induction fuel as [| fuel IH]; intros input st st' H; cbn [read_loop] in H.
  - now inversion H.
  - destruct (fgets (MAX_LINE_LENGTH + 2) input) as [[line rest] |];
      [| now inversion H].
    destruct (line_too_long line).
    + rewrite (IH _ _ _ H). reflexivity.
    + destruct (process_line line (next_line st)) as [st1 |] eqn:P;
        [| discriminate].
      rewrite (IH _ _ _ H), (process_line_IC _ _ _ P). reflexivity.
Qed.

Lemma words_of_app (l1 l2 : list Instruction) :
  words_of (l1 ++ l2) = words_of l1 + words_of l2.
Proof.
  unfold words_of.
  induction l1 as [| i l1 IH]; cbn; [reflexivity | rewrite IH; lia].
Qed.

Lemma words_of_rev (l : list Instruction) : words_of (rev l) = words_of l.
Proof.
  induction l as [| i l IH]; [reflexivity |].
  cbn [rev]. rewrite words_of_app, IH. unfold words_of. cbn. lia.
Qed.

(** The final instruction counter is MEMORY_START plus the number of
    instruction words of the unit. *)
Lemma firstPass_final_ic (input : string) (r : Result) :
  firstPass input [] = Some r ->
  final_ic r = MEMORY_START + words_of (instructionList r).
Proof.
  unfold firstPass. intros H.
  destruct (read_loop _ input (initial_state [])) as [st |] eqn:R;
    [| discriminate].
  injection H as <-. cbn [final_ic instructionList]. rewrite words_of_rev.
  pose proof (read_loop_IC _ _ _ _ R) as I.
  change (IC (initial_state [])) with MEMORY_START in I.
  change (words_of (temp_i_head (initial_state []))) with 0 in I. lia.
Qed.

(** *** Addresses never go below zero *)

Lemma operand_extra_words_range (op : string) (w : Z) (b : bool) :
  operand_extra_words op = Some (w, b) -> 1 <= w <= 2.
Proof.
  unfold operand_extra_words. intros H.
  repeat break_match_in H; inversion H; subst; lia.
Qed.

(** A computed length is -1 or at least one word. *)
Lemma calculate_instruction_length_range (opc o1 o2 : string) :
  calculate_instruction_length opc o1 o2 = -1
  \/ 1 <= calculate_instruction_length opc o1 o2.
Proof.
  unfold calculate_instruction_length.
  destruct (_ || _); [now left |].
  destruct (if 1 <=? _ then operand_extra_words o1 else Some (0, false))
    as [[w1 b1] |] eqn:E1; [| now left].
  destruct (if _ =? 2 then operand_extra_words o2 else Some (0, false))
    as [[w2 b2] |] eqn:E2; [| now left].
  assert (R1 : 0 <= w1).
  { destruct (1 <=? _); [apply operand_extra_words_range in E1; lia |].
    injection E1 as <- _. lia. }
  assert (R2 : 0 <= w2).
  { destruct (_ =? 2); [apply operand_extra_words_range in E2; lia |].
    injection E2 as <- _. lia. }
  destruct (b1 && b2); [right; lia |].
  destruct (5 <? 1 + w1 + w2); [now left | right; lia].
Qed.

Lemma data_loop_DC (fuel : nat) :
  forall rest success d, snd d <= snd (snd (data_loop fuel rest success d)).
Proof.
  induction fuel as [| fuel IH]; intros rest success d; cbn [data_loop].
  - cbn. lia.
  - destruct (strtok_r rest) as [[token |] rest']; [| cbn; lia].
    repeat match goal with
           | |- context [if ?c then _ else _] => destruct c
           end; try apply IH.
    etransitivity; [| apply IH]. destruct d. cbn. lia.
Qed.

Lemma validate_data_DC (p : string) (d : Data) :
  snd d <= snd (snd (validate_data_parameters p d)).
Proof.
  unfold validate_data_parameters.
  destruct (skip_while isspace p) as [| c r]; [cbn; lia |].
  destruct (match String c r with
            | String ","%char r0 => (false, r0)
            | _ => (true, String c r)
            end) as [success rest].
  apply data_loop_DC.
Qed.

Lemma push_chars_DC (str_content : string) :
  forall d, snd d <= snd (push_chars str_content d).
Proof.
  induction str_content as [| c r IH]; intros d; cbn [push_chars]; [lia |].
  etransitivity; [| apply IH]. destruct d. cbn. lia.
Qed.

Lemma validate_string_DC (p : string) (d : Data) :
  snd d <= snd (snd (validate_string_parameters p d)).
Proof.
  unfold validate_string_parameters.
  destruct (skip_while isspace p) as [| q r]; [cbn; lia |].
  destruct (negb (Ascii.eqb q double_quote)); [cbn; lia |].
  destruct (split_last r double_quote) as [[content after] |]; [| cbn; lia].
  destruct (skip_while isspace after); [| cbn; lia].
  cbn [snd]. pose proof (push_chars_DC content d).
  destruct (push_chars content d). cbn in *. lia.
Qed.

Lemma mat_loop_DC (fuel : nat) :
  forall ptr count numCells success d,
    snd d <= snd (snd (mat_loop fuel ptr count numCells success d)).
Proof.
  induction fuel as [| fuel IH]; intros ptr count numCells success d;
    cbn [mat_loop]; [cbn; lia |].
  destruct ptr as [| c r]; [cbn; lia |].
  destruct (negb (count <? numCells)); [cbn; lia |].
  destruct (mat_value (String c r)) as [[value num_end_ptr] |]; [| cbn; lia].
  assert (P : snd d <= snd (push_data value d)) by (destruct d; cbn; lia).
  repeat match goal with
         | |- context [match ?x with _ => _ end] => destruct x
         end; cbn [snd]; try lia; (etransitivity; [exact P | apply IH]).
Qed.

Lemma fill_zeros_DC (n : nat) : forall d, snd d <= snd (fill_zeros n d).
Proof.
  induction n as [| n IH]; intros d; cbn [fill_zeros]; [lia |].
  etransitivity; [| apply IH]. destruct d. cbn. lia.
Qed.

Lemma validate_mat_DC (p : string) (d : Data) (ok : bool) (d' : Data) :
  validate_mat_parameters p d = Some (ok, d') -> snd d <= snd d'.
Proof.
  unfold validate_mat_parameters. intros H.
  destruct (sscanf_mat_dims _) as [[[rows cols] [after |]] |];
    [| discriminate | injection H as _ <-; lia].
  destruct ((rows <=? 0) || (cols <=? 0)); [injection H as _ <-; lia |].
  destruct (match skip_while isspace after with
            | String ","%char r => (false, r)
            | _ => (true, skip_while isspace after)
            end) as [success ptr].
  pose proof (mat_loop_DC (S (String.length (skip_while isspace ptr)))
                          (skip_while isspace ptr) 0 (rows * cols) success d)
    as M.
  destruct (mat_loop _ _ _ _ _ _) as [[[ptr' count] success'] d1].
  injection H as _ <-. cbn [snd] in M.
  etransitivity; [exact M | apply fill_zeros_DC].
Qed.

Lemma update_found_Forall (P : Symbol -> Prop) (f : Symbol -> Symbol)
      (t : SymTab) (n : string) :
  (forall s, P s -> P (f s)) -> Forall P t -> Forall P (update_found t n f).
Proof.
  intros Hf. induction 1 as [| x t Hx Ht IH]; cbn; [constructor |].
  destruct (strcmp0 (sym_name x) n); constructor; auto.
Qed.

Lemma addSymbol_nonneg (t : SymTab) (n : string) (a : Z) (ty : SymbolType) :
  0 <= a -> Forall nonneg t -> Forall nonneg (fst (addSymbol t n a ty)).
Proof.
  intros Ha Ht. unfold addSymbol.
  destruct (is_opcode n || is_register n); [exact Ht |].
  destruct (negb (is_valid_label n)); [exact Ht |].
  destruct (findSymbol t n) as [e |].
  - destruct ty, (sym_type e); cbn [fst]; try exact Ht;
      try (apply update_found_Forall; [intros s Hs; exact Hs | exact Ht]).
    all: destruct (sym_address e =? 0); cbn [fst]; try exact Ht;
      apply update_found_Forall; [intros s Hs; exact Ha | exact Ht].
  - constructor; [exact Ha | exact Ht].
Qed.

Lemma add_symbol_ok (n : string) (a : Z) (ty : SymbolType) (st : State) :
  0 <= a -> addresses_ok st -> addresses_ok (add_symbol n a ty st).
Proof.
  intros Ha (I & D & T). unfold add_symbol.
  pose proof (addSymbol_nonneg (symTab st) n a ty Ha T) as N.
  destruct (addSymbol (symTab st) n a ty). now repeat split.
Qed.

Lemma with_data_ok (d : Data) (e : bool) (st : State) :
  DC st <= snd d -> addresses_ok st -> addresses_ok (with_data d e st).
Proof. intros L (I & D & T). repeat split; cbn; auto; lia. Qed.

Lemma process_directive_ok (c l p : string) (st st' : State) :
  process_directive c l p st = Some st' ->
  addresses_ok st -> addresses_ok st'.
Proof.
  unfold process_directive. intros H Ok.
  set (st1 := if has_label l then add_symbol l (DC st) SYMBOL_DATA st else st)
    in H.
  assert (Ok1 : addresses_ok st1).
  { subst st1. destruct (has_label l); [| exact Ok].
    apply add_symbol_ok; [apply Ok | exact Ok]. }
  clearbody st1. clear Ok st.
  destruct (has_label l && g_has_error st1); [now injection H as <- |].
  destruct (strcmp0 c ".data").
  { pose proof (validate_data_DC p (temp_d_head st1, DC st1)) as L.
    destruct (validate_data_parameters _ _) as [ok d].
    injection H as <-. now apply with_data_ok. }
  destruct (strcmp0 c ".string").
  { pose proof (validate_string_DC p (temp_d_head st1, DC st1)) as L.
    destruct (validate_string_parameters _ _) as [ok d].
    injection H as <-. now apply with_data_ok. }
  destruct (strcmp0 c ".mat").
  { destruct (validate_mat_parameters _ _) as [[ok d] |] eqn:V;
      [| discriminate].
    injection H as <-. apply with_data_ok; [| exact Ok1].
    apply (validate_mat_DC _ _ _ _ V). }
  assert (E : addresses_ok (with_error st1)) by (destruct Ok1 as (? & ? & ?);
                                                 now repeat split).
  destruct (strcmp0 c ".extern").
  { destruct (scan_token p) as [[[name k] rest] |]; injection H as <-;
      [apply add_symbol_ok; [lia | exact Ok1] | exact E]. }
  destruct (strcmp0 c ".entry"); [| now injection H as <-].
  destruct (scan_token p) as [[[name k] rest] |]; [| now injection H as <-].
  destruct (findSymbol (symTab st1) name) as [s |].
  - destruct (SymbolType_eqb (sym_type s) SYMBOL_EXTERNAL);
      injection H as <-; [exact E |].
    destruct Ok1 as (I & D & T). repeat split; auto. cbn.
    apply update_found_Forall; [intros x Hx; exact Hx | exact T].
  - injection H as <-. apply add_symbol_ok; [lia | exact Ok1].
Qed.

Lemma process_instruction_ok (c l p : string) (st : State) :
  addresses_ok st -> addresses_ok (process_instruction c l p st).
Proof.
  intros Ok. unfold process_instruction.
  set (st1 := if has_label l then add_symbol l (IC st) SYMBOL_CODE st else st).
  assert (Ok1 : addresses_ok st1).
  { subst st1. destruct (has_label l); [| exact Ok].
    apply add_symbol_ok; [| exact Ok].
    destruct Ok as (I & _). unfold MEMORY_START in I. lia. }
  clearbody st1.
  assert (E : addresses_ok (with_error st1)) by (destruct Ok1 as (? & ? & ?);
                                                 now repeat split).
  destruct (has_label l && g_has_error st1); [exact Ok1 |].
  destruct (negb (is_opcode c)); [exact E |].
  destruct (parse_operands p) as [[[o1 o2] n] |]; [| exact E].
  destruct (negb (validate_instruction_operands c o1 o2 n)); [exact E |].
  destruct (instruction_length _ =? -1) eqn:L; [exact E |].
  apply Z.eqb_neq in L.
  destruct Ok1 as (I & D & T). repeat split; auto.
  cbn [IC with_instruction] in *.
  unfold new_instruction in L |- *. cbn [instruction_length] in L |- *.
  destruct (calculate_instruction_length_range
              (strncpy c 4) (strncpy o1 (MAX_LINE_LENGTH - 1))
              (strncpy o2 (MAX_LINE_LENGTH - 1))) as [R | R];
    [contradiction | lia].
Qed.

Lemma process_line_ok (line : string) (st st' : State) :
  process_line line st = Some st' -> addresses_ok st -> addresses_ok st'.
Proof.
  unfold process_line. intros H Ok.
  assert (E : addresses_ok (with_error st)) by (destruct Ok as (? & ? & ?);
                                                now repeat split).
  repeat break_match_in H; inversion H; subst; auto.
  - eapply process_directive_ok; eauto.
  - now apply process_instruction_ok.
Qed.

Lemma read_loop_ok (fuel : nat) :
  forall input st st',
    read_loop fuel input st = Some st' -> addresses_ok st -> addresses_ok st'.
Proof.
  induction fuel as [| fuel IH]; intros input st st' H Ok; cbn [read_loop] in H.
  - now injection H as <-.
  - destruct (fgets (MAX_LINE_LENGTH + 2) input) as [[line rest] |];
      [| now injection H as <-].
    assert (N : addresses_ok (next_line st)) by exact Ok.
    destruct (line_too_long line).
    + apply (IH _ _ _ H). destruct N as (? & ? & ?). now repeat split.
    + destruct (process_line line (next_line st)) as [st1 |] eqn:P;
        [| discriminate].
      apply (IH _ _ _ H). now apply (process_line_ok _ _ _ P).
Qed.

(** *** A label in front of .extern *)

Lemma strncpy_short (s : string) (n : nat) :
  (String.length s <= n)%nat -> strncpy s n = s.
Proof.
  revert n. induction s as [| c r IH]; intros n H.
  - now destruct n.
  - destruct n as [| n]; cbn in H; [lia |].
    cbn. rewrite IH by lia. reflexivity.
Qed.

Lemma valid_label_length (s : string) :
  is_valid_label s = true -> (String.length s <= MAX_SYMBOL_LENGTH - 1)%nat.
Proof.
  unfold is_valid_label. destruct s as [| c r]; [discriminate |].
  unfold strlen, MAX_SYMBOL_LENGTH.
  destruct (Z.of_nat 31 <=? Z.of_nat (String.length (String c r))) eqn:E;
    [discriminate |].
  intros _. apply Z.leb_gt in E. lia.
Qed.

Lemma findSymbol_update_found (t : SymTab) (n : string) (f : Symbol -> Symbol) :
  (forall s, sym_name (f s) = sym_name s) ->
  findSymbol t n <> None -> findSymbol (update_found t n f) n <> None.
Proof.
  intros Hf. induction t as [| x t IH]; cbn; [auto |].
  destruct (strcmp0 (sym_name x) n) eqn:E; cbn.
  - rewrite Hf, E. discriminate.
  - rewrite E. exact IH.
Qed.

(** A symbol that is in the table stays in it whatever is added. *)
Lemma addSymbol_keeps (t : SymTab) (n m : string) (a : Z) (ty : SymbolType) :
  findSymbol t n <> None ->
  findSymbol (fst (addSymbol t m a ty)) n <> None.
Proof.
  intros F. unfold addSymbol.
  destruct (is_opcode m || is_register m); [exact F |].
  destruct (negb (is_valid_label m)); [exact F |].
  destruct (findSymbol t m) as [e |] eqn:Fm.
  - destruct (String.eqb m n) eqn:E.
    + apply String.eqb_eq in E. subst m.
      destruct ty, (sym_type e); cbn [fst]; try exact F;
        try (apply findSymbol_update_found; [reflexivity | exact F]).
      all: destruct (sym_address e =? 0); cbn [fst]; try exact F;
        apply findSymbol_update_found; [reflexivity | exact F].
    + assert (K : forall f, (forall s, sym_name (f s) = sym_name s) ->
                            findSymbol (update_found t m f) n <> None).
      { intros f Hf. clear - F E Hf.
        induction t as [| x t IH]; cbn in *; [auto |].
        destruct (strcmp0 (sym_name x) m) eqn:Em; cbn.
        - rewrite Hf. destruct (strcmp0 (sym_name x) n) eqn:En;
            [discriminate | exact F].
        - destruct (strcmp0 (sym_name x) n) eqn:En;
            [discriminate | now apply IH]. }
      destruct ty, (sym_type e); cbn [fst]; try exact F;
        try (apply K; reflexivity).
      all: destruct (sym_address e =? 0); cbn [fst]; try exact F;
        apply K; reflexivity.
  - cbn [fst findSymbol sym_name].
    destruct (strcmp0 _ n); [discriminate | exact F].
Qed.

(** A label that [addSymbol] accepts as a data symbol is in the table
    afterwards. *)
Lemma addSymbol_data_enters (t : SymTab) (n : string) (a : Z) :
  snd (addSymbol t n a SYMBOL_DATA) = false ->
  findSymbol (fst (addSymbol t n a SYMBOL_DATA)) n <> None.
Proof.
  unfold addSymbol.
  destruct (is_opcode n || is_register n); [discriminate |].
  destruct (is_valid_label n) eqn:V; cbn [negb]; [| discriminate].
  destruct (findSymbol t n) as [e |] eqn:F.
  - destruct (sym_type e); cbn; try discriminate.
    destruct (sym_address e =? 0); cbn; [| discriminate].
    intros _. apply findSymbol_update_found; [reflexivity |].
    now rewrite F.
  - intros _. cbn [fst findSymbol sym_name].
    rewrite (strncpy_short n _ (valid_label_length n V)).
    unfold strcmp0. rewrite String.eqb_refl. discriminate.
Qed.

(** Whenever a line [LABEL: .extern ...] is accepted without error, LABEL
    is in the symbol table afterwards: the label is not ignored. *)
Lemma label_before_extern_enters_table (label_name p : string)
      (st st' : State) :
  has_label label_name = true ->
  process_directive ".extern" label_name p st = Some st' ->
  g_has_error st' = false ->
  findSymbol (symTab st') label_name <> None.
Proof.
  intros HL P G. unfold process_directive in P. rewrite HL in P.
  cbn [andb] in P.
  remember (add_symbol label_name (DC st) SYMBOL_DATA st) as st1 eqn:S1.
  assert (D : g_has_error st1 = false ->
              findSymbol (symTab st1) label_name <> None).
  { subst st1. unfold add_symbol.
    pose proof (addSymbol_data_enters (symTab st) label_name (DC st)) as D.
    destruct (addSymbol (symTab st) label_name (DC st) SYMBOL_DATA)
      as [t1 e1].
    cbn. intros G1. apply orb_false_elim in G1. now apply D. }
  clear S1.
  destruct (g_has_error st1) eqn:G1.
  - injection P as <-. congruence.
  - specialize (D eq_refl).
    change (strcmp0 ".extern" ".data") with false in P.
    change (strcmp0 ".extern" ".string") with false in P.
    change (strcmp0 ".extern" ".mat") with false in P.
    change (strcmp0 ".extern" ".extern") with true in P.
    cbn iota in P.
    destruct (scan_token p) as [[[name k] rest] |].
    + injection P as <-. unfold add_symbol.
      pose proof (addSymbol_keeps (symTab st1) label_name name 0
                                  SYMBOL_EXTERNAL D) as K.
      destruct (addSymbol (symTab st1) name 0 SYMBOL_EXTERNAL) as [t2 e2].
      exact K.
    + injection P as <-. cbn in G. now rewrite orb_true_r in G.
Qed.

End FirstPassFacts.

(** ** The passes and the driver *)

Module PipelineFacts.
Import CString Assembler Lexical SymbolTable Tables Operands SecondPass.
Import FirstPass Base4 OutputFiles Driver Notions Base4Facts FirstPassFacts.

(** *** The header of the object file *)

Lemma assemble_outputs (am : string) (r : Result) (tab : SymTab)
      (out : Outputs) :
  firstPass am [] = Some r ->
  assemble am = Some (false, tab, out) ->
  exists instruction_list,
    out = mkOutputs
            (writeObjectFile (final_ic r - MEMORY_START) (final_dc r)
                             (dataList r) instruction_list)
            (writeEntriesFile tab) (writeExternalsFile tab).
Proof.
  intros F A. unfold assemble in A. rewrite F in A.
  destruct (if negb (res_error r)
            then secondPass (instructionList r) (res_symTab r) (res_error r)
            else (instructionList r, res_symTab r, res_error r))
    as [[il st] g].
  destruct g; inversion A; subst. now exists il.
Qed.

(** C2, as the code has it.  The first line of the object file is two
    fields separated by one space: the final instruction counter minus
    MEMORY_START, which is the number of instruction words of the unit
    (the counter starts at MEMORY_START = 100), and the final data
    counter, each in base 4 without leading 'a's; a field is the single
    digit 'a' exactly when its count is zero (modulo the 10-bit word). *)
Theorem object_header_counts_words
        (am : string) (r : Result) (tab : SymTab) (out : Outputs) :
  firstPass am [] = Some r ->
  assemble am = Some (false, tab, out) ->
  exists body,
    ob_file out
    = Some ((header_field (final_ic r - MEMORY_START) ++ " "
               ++ header_field (final_dc r))%string :: body)
    /\ IC (initial_state []) = MEMORY_START
    /\ final_ic r - MEMORY_START = words_of (instructionList r)
    /\ word_value (header_field (final_ic r - MEMORY_START))
       = Some ((final_ic r - MEMORY_START) mod 1024)
    /\ word_value (header_field (final_dc r)) = Some (final_dc r mod 1024)
    /\ (forall count, count mod 1024 = 0 -> header_field count = "a")
    /\ (forall count, count mod 1024 <> 0 ->
        exists c s, header_field count = String c s /\ c <> "a"%char).
Proof.
  intros F A.
  destruct (assemble_outputs am r tab out F A) as [il ->].
  eexists. split; [reflexivity |].
  split; [reflexivity |].
  split; [rewrite (firstPass_final_ic am r F); lia |].
  repeat split.
  - apply header_field_value.
  - apply header_field_value.
  - apply header_field_zero.
  - apply header_field_nonzero.
Qed.

Lemma object_header_counts_words_witness :
  let r := mkResult [] [new_instruction 100 1 "stop" 0 "" ""] [] 101 0 false in
  let out := mkOutputs (Some ["b a"; "abcba" ++ tab ++ "ddaaa"]) None None in
  firstPass (text ["stop"]) [] = Some r
  /\ assemble (text ["stop"]) = Some (false, [], out)
  /\ exists body,
      ob_file out
      = Some ((header_field (101 - MEMORY_START) ++ " " ++ header_field 0)%string
                :: body)
      /\ 101 - MEMORY_START = words_of (instructionList r).
Proof.
  split; [reflexivity |]. split; [reflexivity |].
  destruct (object_header_counts_words
              (text ["stop"])
              (mkResult [] [new_instruction 100 1 "stop" 0 "" ""] [] 101 0 false)
              []
              (mkOutputs (Some ["b a"; "abcba" ++ tab ++ "ddaaa"]) None None)
              eq_refl eq_refl) as [body [H [_ [W _]]]].
  exists body. split; [exact H | exact W].
Defined.

(** C2 at the unit [stop], which has one instruction word: the final
    instruction counter is 101, whose rendering is "bcbb", but the first
    field of the header is "b". *)
Lemma header_is_not_final_counter :
  exists r tab out body,
    firstPass (text ["stop"]) [] = Some r
    /\ final_ic r = 101 /\ final_dc r = 0
    /\ assemble (text ["stop"]) = Some (false, tab, out)
    /\ ob_file out = Some ("b a" :: body)
    /\ header_field 101 = "bcbb"
    /\ "b a" <> (header_field (final_ic r) ++ " " ++ header_field (final_dc r))%string.
Proof.
  do 4 eexists. repeat split; try (vm_compute; reflexivity).
  vm_compute. discriminate.
Qed.

(** *** External usages, end to end *)

(** C3 at a unit that uses the external X twice: the usage at address
    101 is recorded before the one at 103, and the externals file lists
    103 first. *)
Lemma ext_lines_not_in_recording_order :
  let t := [mkSymbol "X" 0 SYMBOL_EXTERNAL []] in
  let usages := [("X", 101); ("X", 103)] in
  ext_lines_for "X" (record_all t usages) = ["X abcbd"; "X abcbb"]
  /\ map (ext_line "X") (recorded_for "X" usages) = ["X abcbb"; "X abcbd"]
  /\ ext_lines_for "X" (record_all t usages)
     <> map (ext_line "X") (recorded_for "X" usages)
  /\ exists tab out,
      assemble (text [".extern X"; "jmp X"; "jsr X"; "stop"])
      = Some (false, tab, out)
      /\ ext_file out = Some ["X abcbd"; "X abcbb"].
Proof.
  repeat split; try (vm_compute; reflexivity).
  - vm_compute. discriminate.
  - do 2 eexists. split; vm_compute; reflexivity.
Qed.

(** The second pass records a usage of an external direct label exactly
    as [record_usage] does, at the address of the operand word. *)
Lemma direct_external_is_recorded (op : string) (inst : Instruction)
      (t : SymTab) (idx : nat) (sym : Symbol) :
  findSymbol t op = Some sym -> sym_type sym = SYMBOL_EXTERNAL ->
  exists inst',
    encode_label_or_matrix "b" op (inst, t, idx)
    = Next (inst',
            record_usage t (op, inst_address inst + Z.of_nat idx + 1),
            S idx).
Proof.
  intros F T. unfold encode_label_or_matrix. cbn [Ascii.eqb Bool.eqb].
  rewrite F, T. cbn. eexists. reflexivity.
Qed.

(** *** Entries that are never defined *)

(** After the relocation at the end of the first pass no entry symbol
    has address 0 any more, so the check of the second pass cannot
    fire. *)
Lemma relocation_hides_placeholders (t : SymTab) (icf : Z) :
  MEMORY_START <= icf ->
  Forall (fun s => 0 <= sym_address s) t ->
  existsb undefined_entry (updateDataSymbolsAddresses t icf) = false.
Proof.
  intros Hicf. unfold MEMORY_START in *. unfold updateDataSymbolsAddresses.
  induction 1 as [| s t Hs Ht IH]; [reflexivity |].
  cbn [map existsb]. rewrite IH, orb_false_r.
  unfold undefined_entry, relocate.
  destruct s as [n a ty us]. cbn in Hs |- *.
  destruct ty; cbn; try reflexivity.
  unfold MEMORY_START.
  destruct (a <? 100) eqn:E; cbn.
  - apply Z.eqb_neq. lia.
  - apply Z.ltb_ge in E. apply Z.eqb_neq. lia.
Qed.

(** The second pass changes nothing of a symbol but its usage list. *)
Lemma update_found_core (t : SymTab) (n : string) (f : Symbol -> Symbol) :
  (forall s, core (f s) = core s) ->
  map core (update_found t n f) = map core t.
Proof.
  intros Hf. induction t as [| x t IH]; [reflexivity |].
  cbn [update_found]. destruct (strcmp0 (sym_name x) n); cbn [map].
  - now rewrite Hf.
  - now rewrite IH.
Qed.

Lemma encode_immediate_core (op : string) (p : Progress) :
  table_of (flow_progress (encode_immediate op p)) = table_of p.
Proof.
  destruct p as [[inst t] idx]. unfold encode_immediate.
  now destruct ((atoi (advance 1 op) <? -512) || (511 <? atoi (advance 1 op))).
Qed.

Lemma encode_label_or_matrix_core (mode : ascii) (op : string) (p : Progress) :
  map core (table_of (flow_progress (encode_label_or_matrix mode op p)))
  = map core (table_of p).
Proof.
  destruct p as [[inst t] idx]. unfold encode_label_or_matrix.
  destruct (if Ascii.eqb mode "c" then sscanf_matrix_label op else Some op)
    as [label |]; [| reflexivity].
  destruct (findSymbol t label) as [sym |]; [| reflexivity].
  set (t' := if Ascii.eqb _ "b" then _ else t).
  assert (E : map core t' = map core t).
  { subst t'. destruct (Ascii.eqb _ "b"); [| reflexivity].
    apply update_found_core. intros [n a ty us].
    unfold addExternalUsage, core. cbn. now destruct ty. }
  clearbody t'.
  destruct (Ascii.eqb mode "c"); [| exact E].
  destruct (sscanf_matrix_regs op) as [[r1 r2] |]; [| exact E].
  destruct ((r1 <? 0) || (7 <? r1) || (r2 <? 0) || (7 <? r2)); exact E.
Qed.

Lemma process_operand1_core (c : ascii) (p : Progress) :
  map core (table_of (flow_progress (fst (process_operand1 c p))))
  = map core (table_of p).
Proof.
  destruct p as [[inst t] idx]. unfold process_operand1.
  destruct (1 <=? num_operands inst); [| reflexivity].
  destruct (Ascii.eqb c "d" && (num_operands inst =? 2)
            && Ascii.eqb (char_at (get_addressing_mode_base4 (operand2 inst)) 0) "d");
    [reflexivity |].
  destruct (Ascii.eqb c "a"); [cbn [fst]; now rewrite encode_immediate_core |].
  destruct (Ascii.eqb c "d"); [reflexivity |].
  destruct (Ascii.eqb c "b" || Ascii.eqb c "c");
    [apply encode_label_or_matrix_core | reflexivity].
Qed.

Lemma process_operand2_core (shared : bool) (p : Progress) :
  map core (table_of (flow_progress (process_operand2 shared p)))
  = map core (table_of p).
Proof.
  destruct p as [[inst t] idx]. unfold process_operand2.
  destruct ((num_operands inst =? 2) && negb shared); [| reflexivity].
  set (c := char_at (get_addressing_mode_base4 (operand2 inst)) 0).
  destruct (Ascii.eqb c "a"); [now rewrite encode_immediate_core |].
  destruct (Ascii.eqb c "d"); [reflexivity |].
  destruct (Ascii.eqb c "b" || Ascii.eqb c "c");
    [apply encode_label_or_matrix_core | reflexivity].
Qed.

Lemma encode_instruction_words_core (inst : Instruction) (t : SymTab) :
  map core (snd (fst (encode_instruction_words inst t))) = map core t.
Proof.
  unfold encode_instruction_words.
  destruct (strcmp0 _ "aaaa"); [reflexivity |].
  destruct (negb (validate_instruction_operands _ _ _ _)); [reflexivity |].
  match goal with
  | |- context [process_operand1 ?c ?p] =>
      pose proof (process_operand1_core c p) as P1;
      destruct (process_operand1 c p) as [[q | q] shared]
  end; cbn [fst flow_progress] in P1.
  - pose proof (process_operand2_core shared q) as P2.
    destruct (process_operand2 shared q) as [[[i' t'] k] | [[i' t'] k]];
      unfold table_of in P1, P2; cbn [fst snd flow_progress] in P1, P2 |- *;
      now rewrite P2, P1.
  - destruct q as [[i' t'] k]. unfold table_of in P1.
    cbn [fst snd] in P1 |- *. exact P1.
Qed.

Lemma encode_all_core (l : list Instruction) :
  forall t g, map core (snd (fst (encode_all l t g))) = map core t.
Proof.
  induction l as [| i l IH]; intros t g; [reflexivity |].
  cbn [encode_all].
  pose proof (encode_instruction_words_core i t) as E.
  destruct (encode_instruction_words i t) as [[i' t'] e].
  pose proof (IH t' (g || e)) as E'.
  destruct (encode_all l t' (g || e)) as [[l' t''] g'].
  cbn [fst snd] in *. now rewrite E', E.
Qed.

Lemma undefined_entry_core (t1 : SymTab) :
  forall t2, map core t1 = map core t2 ->
             existsb undefined_entry t1 = existsb undefined_entry t2.
Proof.
  induction t1 as [| x t1 IH]; intros [| y t2] H; try discriminate;
    [reflexivity |].
  cbn [map] in H. unfold core at 1 3 in H.
  injection H as Hn Ha Hty Ht. cbn [existsb].
  rewrite (IH _ Ht). f_equal. unfold undefined_entry.
  now rewrite Ha, Hty.
Qed.

(** In no unit does the second pass find an entry symbol whose address is
    0: the flag it returns is the one the encoding of the instructions
    left. *)
Lemma entry_check_never_fires (am : string) (r : Result)
      (il : list Instruction) (t : SymTab) (g : bool) :
  firstPass am [] = Some r ->
  secondPass (instructionList r) (res_symTab r) (res_error r) = (il, t, g) ->
  existsb undefined_entry t = false
  /\ g = snd (encode_all (instructionList r) (res_symTab r) (res_error r)).
Proof.
  intros F S. unfold firstPass in F.
  destruct (read_loop _ am (initial_state [])) as [st |] eqn:R;
    [| discriminate].
  injection F as <-. cbn [instructionList res_symTab res_error] in S.
  assert (Ok : addresses_ok st).
  { apply (read_loop_ok _ _ _ _ R). repeat split; cbn; try lia.
    constructor. }
  destruct Ok as (I & _ & T).
  pose proof (relocation_hides_placeholders (symTab st) (IC st) I T) as H.
  unfold secondPass in S.
  pose proof (encode_all_core (rev (temp_i_head st))
                (updateDataSymbolsAddresses (symTab st) (IC st))
                (g_has_error st)) as C.
  destruct (encode_all _ _ _) as [[l' t'] g'].
  injection S as <- <- <-. cbn [fst snd] in C |- *.
  rewrite (undefined_entry_core _ _ C), H. split; [reflexivity |].
  apply orb_false_r.
Qed.

(** C5 at the unit [.entry FOO] / [stop].  FOO is declared an entry and
    never defined; the unit is assembled without error, FOO ends with
    the address 101 and the entries file lists it. *)
Theorem undefined_entry_is_not_reported :
  exists out,
    assemble (text [".entry FOO"; "stop"])
    = Some (false, [mkSymbol "FOO" 101 SYMBOL_ENTRY []], out)
    /\ ob_file out <> None
    /\ ent_file out = Some ["FOO abcbb"].
Proof.
  eexists. split; [vm_compute; reflexivity |].
  split; [discriminate | reflexivity].
Qed.

(** *** A label in front of .extern *)

(** C8 at the unit [L: .extern X] / [stop].  The label L is entered in
    the symbol table as a data symbol (relocated to 101) next to the
    external X; and when the label is a reserved word, the error flag is
    set and X is not entered. *)
Theorem label_before_extern_is_entered :
  (exists out,
      assemble (text ["L: .extern X"; "stop"])
      = Some (false,
              [mkSymbol "X" 0 SYMBOL_EXTERNAL [];
               mkSymbol "L" 101 SYMBOL_DATA []], out))
  /\ assemble (text ["mov: .extern X"; "stop"]) = Some (true, [], no_outputs).
Proof.
  split; [eexists |]; vm_compute; reflexivity.
Qed.

(** *** Units with errors *)

Lemma assemble_error_no_outputs (am : string) (tab : SymTab) (out : Outputs) :
  assemble am = Some (true, tab, out) -> out = no_outputs.
Proof.
  unfold assemble. destruct (firstPass am []) as [r |]; [| discriminate].
  destruct (if negb (res_error r)
            then secondPass (instructionList r) (res_symTab r) (res_error r)
            else (instructionList r, res_symTab r, res_error r))
    as [[il st] g].
  destruct g; intros [= ]; congruence.
Qed.

(** C9.  Whatever the macro phase does, a unit whose error flag is set
    when the driver is done with it has no object, entries or externals
    file. *)
Theorem no_outputs_when_error_flag_set
        (Macro : Type)
        (processMacroDefinitions : string -> list Macro * bool)
        (expandMacroInLine : string -> list Macro -> string)
        (source : option string) (am_creatable inside_macro_def : bool)
        (r : Unit_result) :
  main_unit Macro processMacroDefinitions expandMacroInLine
            source am_creatable inside_macro_def = Some r ->
  error_flag r = true ->
  outputs r = no_outputs
  /\ ob_file (outputs r) = None
  /\ ent_file (outputs r) = None
  /\ ext_file (outputs r) = None.
Proof.
  intros M E.
  assert (O : outputs r = no_outputs).
  { unfold main_unit in M.
    destruct source as [text |]; [| now inversion M; subst].
    destruct (processMacroDefinitions text) as [ml g].
    destruct g; [now inversion M; subst |].
    destruct am_creatable; cbn [negb] in M; [| now inversion M; subst].
    destruct (expand_loop Macro expandMacroInLine _ _ _ _ _) as [am inside].
    destruct (assemble am) as [[[g tab] out] |] eqn:A; [| discriminate].
    inversion M; subst. cbn in E |- *. subst g.
    now apply (assemble_error_no_outputs am tab out). }
  rewrite O. repeat split.
Qed.

(** A source without macros: the collector finds no definition and the
    expander leaves every line as it is. *)
Lemma no_outputs_when_error_flag_set_witness :
  let r := mkUnit (Some (text ["mov r1, r9"])) true no_outputs false in
  main_unit unit (fun _ => ([], false)) (fun line _ => line)
            (Some (text ["mov r1, r9"])) true false = Some r
  /\ error_flag r = true
  /\ outputs r = no_outputs.
Proof.
  split; [vm_compute; reflexivity |]. split; [reflexivity |].
  apply (no_outputs_when_error_flag_set
           unit (fun _ => ([], false)) (fun line _ => line)
           (Some (text ["mov r1, r9"])) true false
           (mkUnit (Some (text ["mov r1, r9"])) true no_outputs false)
           eq_refl eq_refl).
Defined.

End PipelineFacts.

(** ** The loops always have fuel enough *)

Module FuelFacts.
Import CString Assembler DataDirectives FirstPass Driver.

Lemma fgets_chars_split (k : nat) :
  forall input a b,
    fgets_chars k input = (a, b) ->
    String.length input = (String.length a + String.length b)%nat.
Proof.
  induction k as [| k IH]; intros input a b E.
  - cbn in E. injection E as <- <-. reflexivity.
  - destruct input as [| c r]; cbn in E.
    + injection E as <- <-. reflexivity.
    + destruct (Ascii.eqb c "010").
      * injection E as <- <-. cbn. lia.
      * destruct (fgets_chars k r) as [a' b'] eqn:E'.
        injection E as <- <-. cbn. rewrite (IH _ _ _ E'). reflexivity.
Qed.

Lemma fgets_chars_progress (k : nat) (c : ascii) (r a b : string) :
  fgets_chars (S k) (String c r) = (a, b) -> a <> EmptyString.
Proof.
  cbn. destruct (Ascii.eqb c "010").
  - intros [= <- <-]. discriminate.
  - destruct (fgets_chars k r). intros [= <- <-]. discriminate.
Qed.

(** A call of [fgets] that reads something leaves a shorter input. *)
Lemma fgets_shorter (n : nat) (input line rest : string) :
  (2 <= n)%nat -> fgets n input = Some (line, rest) ->
  (String.length rest < String.length input)%nat.
Proof.
  intros Hn E. unfold fgets in E.
  destruct input as [| c r]; [discriminate |].
  injection E as E.
  destruct (n - 1)%nat as [| k] eqn:K; [lia |].
  pose proof (fgets_chars_split _ _ _ _ E) as L.
  pose proof (fgets_chars_progress _ _ _ _ _ E) as P.
  destruct line; [contradiction |]. cbn in L |- *. lia.
Qed.

Lemma skip_rest_of_line_length (input : string) :
  (String.length (skip_rest_of_line input) <= String.length input)%nat.
Proof.
  induction input as [| c r IH]; cbn; [lia |].
  destruct (Ascii.eqb c "010"); cbn; lia.
Qed.

(** The reading loop of the first pass never stops for lack of fuel: any
    two amounts above the length of the input give the same result. *)
Lemma read_loop_fuel (fuel1 : nat) :
  forall fuel2 input st,
    (String.length input < fuel1)%nat -> (String.length input < fuel2)%nat ->
    read_loop fuel1 input st = read_loop fuel2 input st.
Proof.
  induction fuel1 as [| fuel1 IH]; intros fuel2 input st H1 H2; [lia |].
  destruct fuel2 as [| fuel2]; [lia |].
  cbn [read_loop].
  destruct (fgets (MAX_LINE_LENGTH + 2) input) as [[line rest] |] eqn:E;
    [| reflexivity].
  assert (L : (String.length rest < String.length input)%nat).
  { apply (fgets_shorter (MAX_LINE_LENGTH + 2) input line rest);
      [unfold MAX_LINE_LENGTH; lia | exact E]. }
  destruct (line_too_long line).
  - pose proof (skip_rest_of_line_length rest). apply IH; lia.
  - destruct (process_line line (next_line st)); [| reflexivity].
    apply IH; lia.
Qed.

Lemma skip_while_length (p : ascii -> bool) (s : string) :
  (String.length (skip_while p s) <= String.length s)%nat.
Proof.
  induction s as [| c r IH]; cbn; [lia |].
  destruct (p c); cbn; lia.
Qed.

Lemma span_reject_split (s reject a b : string) :
  span_reject s reject = (a, b) ->
  String.length s = (String.length a + String.length b)%nat.
Proof.
  revert a b. induction s as [| c r IH]; intros a b E; cbn in E.
  - injection E as <- <-. reflexivity.
  - destruct (mem_char c reject).
    + injection E as <- <-. reflexivity.
    + destruct (span_reject r reject) as [a' b'].
      injection E as <- <-. cbn. now rewrite (IH a' b').
Qed.

Lemma span_reject_cons (c : ascii) (r reject : string) :
  span_reject (String c r) reject
  = if mem_char c reject then (EmptyString, String c r)
    else let (a, b) := span_reject r reject in (String c a, b).
Proof. reflexivity. Qed.

Lemma skip_while_head (p : ascii -> bool) (s : string) (c : ascii) (r : string) :
  skip_while p s = String c r -> p c = false.
Proof.
  induction s as [| d s IH]; cbn; [discriminate |].
  destruct (p d) eqn:D; [exact IH |].
  intros [= -> _]. exact D.
Qed.

(** A call of [strtok_r] that finds a token leaves a shorter text. *)
Lemma strtok_r_shorter (s token rest : string) :
  strtok_r s = (Some token, rest) ->
  (String.length rest < String.length s)%nat.
Proof.
  unfold strtok_r. intros E.
  pose proof (skip_while_length (fun c => Ascii.eqb c ",") s) as L.
  destruct (skip_while (fun c => Ascii.eqb c ",") s) as [| c r] eqn:S1;
    [discriminate |].
  destruct (span_reject (String c r) ",") as [tok rest'] eqn:SP.
  inversion E as [[Et Er]]. clear E Et.
  pose proof (span_reject_split _ _ _ _ SP) as L2.
  assert (T : tok <> EmptyString).
  { rewrite span_reject_cons in SP.
    pose proof (skip_while_head _ _ _ _ S1) as M.
    assert (M' : mem_char c "," = false) by (cbn; now rewrite M).
    rewrite M' in SP.
    destruct (span_reject r ","). injection SP as <- _. discriminate. }
  destruct tok; [contradiction |].
  destruct rest'; cbn in L, L2 |- *; lia.
Qed.

(** The token loop of [validate_data_parameters] never stops for lack of
    fuel. *)
Lemma data_loop_fuel (fuel1 : nat) :
  forall fuel2 rest success d,
    (String.length rest < fuel1)%nat -> (String.length rest < fuel2)%nat ->
    data_loop fuel1 rest success d = data_loop fuel2 rest success d.
Proof.
  induction fuel1 as [| fuel1 IH]; intros fuel2 rest success d H1 H2; [lia |].
  destruct fuel2 as [| fuel2]; [lia |].
  cbn [data_loop].
  destruct (strtok_r rest) as [[token |] rest'] eqn:E; [| reflexivity].
  pose proof (strtok_r_shorter _ _ _ E) as L.
  repeat match goal with
         | |- (if ?c then _ else _) = _ => destruct c
         end; apply IH; lia.
Qed.

Lemma mat_value_shorter (num_start_ptr num_end_ptr : string) (value : Z) :
  mat_value num_start_ptr = Some (value, num_end_ptr) ->
  (String.length num_end_ptr < String.length num_start_ptr)%nat.
Proof.
  unfold mat_value.
  set (after_sign := match num_start_ptr with
                     | String "+" r => r
                     | String "-" r => r
                     | _ => num_start_ptr
                     end).
  assert (A : (String.length after_sign <= String.length num_start_ptr)%nat).
  { subst after_sign. destruct num_start_ptr as [| c r]; [cbn; lia |].
    destruct (Ascii.ascii_dec c "+") as [-> | N1]; [cbn; lia |].
    destruct (Ascii.ascii_dec c "-") as [-> | N2]; [cbn; lia |].
    destruct c as [[] [] [] [] [] [] [] []]; cbn; lia. }
  destruct after_sign as [| c r] eqn:AS; [discriminate |].
  destruct (isdigit c) eqn:D; cbn [negb]; [| discriminate].
  set (num_end := skip_while isdigit (String c r)).
  assert (L : (String.length num_end < String.length (String c r))%nat).
  { subst num_end. cbn [skip_while]. rewrite D.
    pose proof (skip_while_length isdigit r). cbn. lia. }
  destruct ((String.length num_start_ptr - String.length num_end =? 0)%nat
            || (MAX_LINE_LENGTH <=? String.length num_start_ptr
                                    - String.length num_end)%nat);
    [discriminate |].
  destruct (negb (is_valid_number _)); [discriminate |].
  destruct ((_ <? -512) || (511 <? _)); [discriminate |].
  intros [= _ <-]. lia.
Qed.

(** The loop over the initial values of a matrix never stops for lack of
    fuel. *)
Lemma mat_loop_fuel (fuel1 : nat) :
  forall fuel2 ptr count numCells success d,
    (String.length ptr < fuel1)%nat -> (String.length ptr < fuel2)%nat ->
    mat_loop fuel1 ptr count numCells success d
    = mat_loop fuel2 ptr count numCells success d.
Proof.
  induction fuel1 as [| fuel1 IH];
    intros fuel2 ptr count numCells success d H1 H2; [lia |].
  destruct fuel2 as [| fuel2]; [lia |].
  cbn [mat_loop].
  destruct ptr as [| c r]; [reflexivity |].
  destruct (negb (count <? numCells)); [reflexivity |].
  destruct (mat_value (String c r)) as [[value num_end_ptr] |] eqn:E;
    [| reflexivity].
  pose proof (mat_value_shorter _ _ _ E) as L.
  pose proof (skip_while_length isspace num_end_ptr) as L1.
  destruct (skip_while isspace num_end_ptr) as [| c1 r1] eqn:S1.
  - apply IH; cbn in *; lia.
  - pose proof (skip_while_length isspace r1) as L2.
    destruct (Ascii.ascii_dec c1 ",") as [-> | N].
    + destruct (skip_while isspace r1) as [| c2 r2] eqn:S2; [reflexivity |].
      destruct (Ascii.ascii_dec c2 ",") as [-> | N2]; [reflexivity |].
      assert (G : forall f,
                 match c2 with
                 | ","%char => (String c2 r2, count + 1, false, push_data value d)
                 | _ => mat_loop f (String c2 r2) (count + 1) numCells success
                                 (push_data value d)
                 end = mat_loop f (String c2 r2) (count + 1) numCells success
                                (push_data value d)).
      { intros f. destruct c2 as [[] [] [] [] [] [] [] []];
          try reflexivity; contradiction. }
      rewrite !G. apply IH; cbn in *; lia.
    + destruct c1 as [[] [] [] [] [] [] [] []]; try reflexivity; contradiction.
Qed.

(** The loop of the driver that writes the expanded file never stops for
    lack of fuel. *)
Lemma expand_loop_fuel (Macro : Type)
      (expandMacroInLine : string -> list Macro -> string) (fuel1 : nat) :
  forall fuel2 input macro_list inside am,
    (String.length input < fuel1)%nat -> (String.length input < fuel2)%nat ->
    expand_loop Macro expandMacroInLine fuel1 input macro_list inside am
    = expand_loop Macro expandMacroInLine fuel2 input macro_list inside am.
Proof.
  induction fuel1 as [| fuel1 IH];
    intros fuel2 input macro_list inside am H1 H2; [lia |].
  destruct fuel2 as [| fuel2]; [lia |].
  cbn [expand_loop].
  destruct (fgets (MAX_LINE_LENGTH + 2) input) as [[line rest] |] eqn:E;
    [| reflexivity].
  assert (L : (String.length rest < String.length input)%nat).
  { apply (fgets_shorter (MAX_LINE_LENGTH + 2) input line rest);
      [unfold MAX_LINE_LENGTH; lia | exact E]. }
  repeat match goal with
         | |- (if ?c then _ else _) = _ => destruct c
         end; apply IH; lia.
Qed.

End FuelFacts.

(** ** More on the base-4 rendering *)

Module Base4More.
Import CString Base4 Notions MoreNotions Base4Facts.

Lemma base4_char_digit (v : Z) : is_base4_digit (base4_char (Z.land v 3)) = true.
Proof.
  destruct (land3_cases v) as [H | [H | [H | H]]]; rewrite H; reflexivity.
Qed.

Lemma fill_digits_alphabet (k : nat) :
  forall v filled,
    string_forall is_base4_digit filled = true ->
    string_forall is_base4_digit (fill_digits k v filled) = true.
Proof.
  induction k as [| k IH]; intros v filled H; cbn [fill_digits]; [exact H |].
  apply IH. cbn [string_forall]. now rewrite base4_char_digit, H.
Qed.

(** X1.  Whatever integer it is given, convertToBase4 returns exactly five
    characters, each one of the digits a, b, c, d. *)
Theorem convertToBase4_five_digits (v : Z) :
  String.length (convertToBase4 v) = 5%nat
  /\ string_forall is_base4_digit (convertToBase4 v) = true.
Proof.
  split; [apply length_convertToBase4 |].
  unfold convertToBase4. now apply fill_digits_alphabet.
Qed.

(** X2.  Two integers have the same rendering exactly when they agree
    modulo 1024: the rendering depends on the low ten bits only and
    distinguishes all 1024 words. *)
Theorem convertToBase4_same_iff (a b : Z) :
  convertToBase4 a = convertToBase4 b <-> a mod 1024 = b mod 1024.
Proof.
  split; intros H.
  - pose proof (word_value_convert a) as Va.
    pose proof (word_value_convert b) as Vb.
    rewrite H in Va. congruence.
  - unfold convertToBase4. now rewrite !land1023_mod, H.
Qed.

Lemma stripLeadingA_run (s : string) :
  exists k, s = (a_run k ++ stripLeadingA s)%string.
Proof.
  induction s as [| c r IH]; [now exists O |].
  destruct r as [| d r']; [now exists O |].
  rewrite stripLeadingA_cons.
  destruct (Ascii.eqb c "a") eqn:E; [| now exists O].
  apply Ascii.eqb_eq in E. subst c.
  destruct IH as [k Hk]. exists (S k). cbn [a_run String.append].
  now rewrite <- Hk.
Qed.

Lemma stripLeadingA_nonempty (s : string) :
  s <> EmptyString -> stripLeadingA s <> EmptyString.
Proof.
  induction s as [| c r IH]; [contradiction |]. intros _.
  destruct r as [| d r']; [discriminate |].
  rewrite stripLeadingA_cons.
  destruct (Ascii.eqb c "a"); [apply IH |]; discriminate.
Qed.

Lemma stripLeadingA_idempotent (s : string) :
  stripLeadingA (stripLeadingA s) = stripLeadingA s.
Proof.
  destruct (stripLeadingA s) as [| c r] eqn:E; [reflexivity |].
  destruct r as [| d r']; [reflexivity |].
  rewrite stripLeadingA_cons.
  destruct (Ascii.eqb c "a") eqn:A; [| reflexivity].
  apply Ascii.eqb_eq in A.
  pose proof (stripLeadingA_head s c (String d r') E A). discriminate.
Qed.

(** X3.  stripLeadingA removes nothing but a run of leading 'a' digits,
    never returns the empty string for a non-empty one, and stripping
    twice is the same as stripping once. *)
Theorem stripLeadingA_drops_leading_a_only (s : string) :
  (exists k, s = (a_run k ++ stripLeadingA s)%string)
  /\ (s = EmptyString \/ stripLeadingA s <> EmptyString)
  /\ stripLeadingA (stripLeadingA s) = stripLeadingA s.
Proof.
  split; [apply stripLeadingA_run |]. split.
  - destruct s; [now left | right]. now apply stripLeadingA_nonempty.
  - apply stripLeadingA_idempotent.
Qed.

End Base4More.

(** ** Lexical predicates and encoding tables *)

Module LexicalMore.
Import CString Assembler Lexical Tables Operands Base4 Notions MoreNotions.

Lemma is_register_name (n : Z) :
  0 <= n <= 7 -> is_register (register_name n) = true.
Proof.
  intros H.
  assert (E : n = 0 \/ n = 1 \/ n = 2 \/ n = 3 \/ n = 4 \/ n = 5 \/ n = 6 \/ n = 7)
    by lia.
  destruct E as [E | [E | [E | [E | [E | [E | [E | E]]]]]]]; subst n;
    reflexivity.
Qed.

Lemma is_register_shape (s : string) :
  is_register s = true ->
  exists c, s = String "r" (String c EmptyString)
            /\ isdigit c = true /\ 0 <= digit_val c <= 7.
Proof.
  unfold is_register.
  destruct s as [| c0 [| c1 [| c2 r]]]; try discriminate.
  - cbn [strlen String.length char_at String.get].
    destruct (Ascii.eqb c0 "r") eqn:E0; [| discriminate].
    apply Ascii.eqb_eq in E0. subst c0.
    destruct (isdigit c1) eqn:D; [| discriminate].
    cbn [negb orb Z.of_nat Z.eqb Pos.of_succ_nat Pos.succ Pos.eqb].
    intros H. exists c1. repeat split; try assumption.
    + revert H. unfold atoi, scan_int, advance.
      destruct c1 as [[] [] [] [] [] [] [] []]; try discriminate D;
        vm_compute; intros; congruence.
    + revert H. unfold atoi, scan_int, advance.
      destruct c1 as [[] [] [] [] [] [] [] []]; try discriminate D;
        vm_compute; intros; congruence.
  - unfold strlen. cbn [String.length].
    destruct (Z.of_nat (S (S (S (String.length r)))) =? 2) eqn:L;
      [apply Z.eqb_eq in L; lia | discriminate].
Qed.

(** X4.  is_register accepts exactly the eight names r0 .. r7. *)
Theorem is_register_iff (s : string) :
  is_register s = true <-> exists n, 0 <= n <= 7 /\ s = register_name n.
Proof.
  split.
  - intros H. destruct (is_register_shape s H) as (c & -> & D & R).
    exists (digit_val c). split; [exact R |].
    unfold register_name. do 2 f_equal.
    clear H. destruct c as [[] [] [] [] [] [] [] []]; try discriminate D;
      try reflexivity; vm_compute in R; destruct R as [R1 R2];
      exfalso; (apply R1 || apply R2); reflexivity.
  - intros (n & H & ->). now apply is_register_name.
Qed.

Lemma opcode_cases (s : string) :
  In s opcodes \/ (forall o, In o opcodes -> strcmp0 s o = false).
Proof.
  induction opcodes as [| o l IH]; [right; intros o [] |].
  destruct (strcmp0 s o) eqn:E.
  - left. left. symmetry. now apply String.eqb_eq.
  - destruct IH as [IH | IH]; [left; now right |].
    right. intros o' [<- | H]; [exact E | now apply IH].
Qed.

Ltac no_opcode H s :=
  repeat match goal with
         | |- context [strcmp0 s ?o] => rewrite (H o) by (cbn; tauto)
         end.

(** X5.  The four places that know the opcodes agree: a name is an opcode
    for is_opcode exactly when get_opcode_base4 has digits for it and
    when validate_instruction_operands has a row for it; its two digits
    are the base-4 rendering of its row number; and its row of legal modes
    has as many operand columns as calculate_instruction_length expects
    operands. *)
Theorem opcode_tables_agree (s : string) :
  (is_opcode s = true <-> get_opcode_base4 s <> "aaaa")
  /\ (is_opcode s = true <-> 0 <= opcode_num s < 16)
  /\ (is_opcode s = false -> opcode_num s = -1)
  /\ (is_opcode s = true ->
      get_opcode_base4 s = advance 3 (convertToBase4 (opcode_num s)))
  /\ (is_opcode s = true ->
      let row := nth (Z.to_nat (opcode_num s)) legal_modes ("X", "X") in
      (if strcmp0 (fst row) "X" then 0 else 1)
      + (if strcmp0 (snd row) "X" then 0 else 1)
      = (if among s no_operand_opcodes then 0
         else if among s one_operand_opcodes then 1
         else if among s two_operand_opcodes then 2 else -1)).
Proof.
  destruct (opcode_cases s) as [H | H].
  - cbn in H.
    repeat match type of H with
           | _ \/ _ => destruct H as [H | H]
           end; try contradiction; subst s;
      vm_compute; repeat split; intros; try discriminate; try reflexivity;
      try congruence.
  - assert (O : is_opcode s = false).
    { unfold is_opcode. apply Bool.not_true_is_false. intros E.
      apply existsb_exists in E. destruct E as (o & I & E).
      rewrite (H o I) in E. discriminate. }
    assert (G : get_opcode_base4 s = "aaaa")
      by (unfold get_opcode_base4; no_opcode H s; reflexivity).
    assert (N : opcode_num s = -1)
      by (unfold opcode_num; no_opcode H s; reflexivity).
    rewrite O, G, N.
    repeat split; intros; try discriminate; try congruence; try lia.
Qed.

Lemma last_char_cons (c d : ascii) (r : string) :
  Driver.last_char (String c (String d r)) = Driver.last_char (String d r).
Proof. reflexivity. Qed.

Lemma rtrim_cons (c : ascii) (r : string) :
  rtrim (String c r)
  = match rtrim r with
    | EmptyString => if isspace c then EmptyString else String c EmptyString
    | r' => String c r'
    end.
Proof. reflexivity. Qed.

Lemma rtrim_last (r : string) :
  rtrim r = EmptyString \/ isspace (Driver.last_char (rtrim r)) = false.
Proof.
  induction r as [| c r IH]; [now left |].
  rewrite rtrim_cons.
  destruct (rtrim r) as [| d r'] eqn:E.
  - destruct (isspace c) eqn:S; [now left | right; exact S].
  - right. rewrite last_char_cons. destruct IH as [IH | IH];
      [discriminate | exact IH].
Qed.

Lemma rtrim_fixed (r : string) :
  r = EmptyString \/ isspace (Driver.last_char r) = false -> rtrim r = r.
Proof.
  induction r as [| c r IH]; [reflexivity |]. intros [H | H]; [discriminate |].
  rewrite rtrim_cons. destruct r as [| d r'].
  - cbn in H |- *. now rewrite H.
  - rewrite last_char_cons in H. rewrite IH by now right. reflexivity.
Qed.

Lemma trim_whitespace_shape (s : string) :
  trim_whitespace s = EmptyString
  \/ exists c r, trim_whitespace s = String c (rtrim r) /\ isspace c = false.
Proof.
  unfold trim_whitespace. destruct s as [| c0 r0]; [now left |].
  destruct (skip_while isspace (String c0 r0)) as [| c r] eqn:E; [now left |].
  right. exists c, r. split; [reflexivity |].
  now apply (FuelFacts.skip_while_head _ _ _ _ E).
Qed.

(** X6.  trim_whitespace leaves a text that neither starts nor ends with
    white space (or nothing at all), and trimming again changes
    nothing. *)
Theorem trim_whitespace_trims (s : string) :
  (trim_whitespace s = EmptyString
   \/ (isspace (char_at (trim_whitespace s) 0) = false
       /\ isspace (Driver.last_char (trim_whitespace s)) = false))
  /\ trim_whitespace (trim_whitespace s) = trim_whitespace s.
Proof.
  destruct (trim_whitespace_shape s) as [E | (c & r & E & C)].
  - rewrite E. split; [now left | reflexivity].
  - rewrite E. split.
    + right. split; [exact C |].
      destruct (rtrim r) as [| d r'] eqn:R; [exact C |].
      rewrite last_char_cons, <- R.
      destruct (rtrim_last r) as [L | L]; [congruence | exact L].
    + unfold trim_whitespace. cbn [skip_while]. rewrite C.
      rewrite (rtrim_fixed (rtrim r) (rtrim_last r)). reflexivity.
Qed.

End LexicalMore.

(** ** More on the symbol table *)

Module SymbolTableMore.
Import CString Assembler Lexical SymbolTable Notions MoreNotions.
Import SymbolTableFacts FirstPassFacts.

Local Arguments strcmp0 : simpl never.

Lemma strcmp0_refl (s : string) : strcmp0 s s = true.
Proof. apply String.eqb_refl. Qed.

Lemma strcmp0_neq (a b : string) : a <> b -> strcmp0 a b = false.
Proof. intros H. now apply String.eqb_neq. Qed.

Lemma findSymbol_update_same (t : SymTab) (n : string) (f : Symbol -> Symbol) :
  (forall s, sym_name (f s) = sym_name s) ->
  findSymbol (update_found t n f) n = option_map f (findSymbol t n).
Proof.
  intros Hf. induction t as [| x t IH]; [reflexivity |].
  cbn [findSymbol update_found].
  destruct (strcmp0 (sym_name x) n) eqn:E; cbn [findSymbol].
  - now rewrite Hf, E.
  - now rewrite E.
Qed.

Lemma findSymbol_update_other (t : SymTab) (n m : string)
      (f : Symbol -> Symbol) :
  (forall s, sym_name (f s) = sym_name s) -> m <> n ->
  findSymbol (update_found t n f) m = findSymbol t m.
Proof.
  intros Hf D. induction t as [| x t IH]; [reflexivity |].
  cbn [findSymbol update_found].
  destruct (strcmp0 (sym_name x) n) eqn:E; cbn [findSymbol].
  - rewrite Hf. apply strcmp0_eq in E.
    rewrite E, (strcmp0_neq n m) by congruence. reflexivity.
  - now rewrite IH.
Qed.

(** X7.  After a call of addSymbol that is accepted, findSymbol finds the
    name: a definition (code or data) is found with the address given,
    under its own type or as an entry; an entry declaration is found as an
    entry; an external declaration as an external. *)
Theorem addSymbol_accepted_lookup
        (t : SymTab) (n : string) (a : Z) (ty : SymbolType) :
  snd (addSymbol t n a ty) = false ->
  exists s,
    findSymbol (fst (addSymbol t n a ty)) n = Some s
    /\ match ty with
       | SYMBOL_CODE | SYMBOL_DATA =>
           sym_address s = a /\ (sym_type s = ty \/ sym_type s = SYMBOL_ENTRY)
       | SYMBOL_ENTRY => sym_type s = SYMBOL_ENTRY
       | SYMBOL_EXTERNAL => sym_type s = SYMBOL_EXTERNAL
       end.
Proof.
  unfold addSymbol.
  destruct (is_opcode n || is_register n); [discriminate |].
  destruct (is_valid_label n) eqn:V; cbn [negb]; [| discriminate].
  destruct (findSymbol t n) as [e |] eqn:F.
  - destruct ty, (sym_type e) eqn:T; cbn [fst snd]; try discriminate;
      try (destruct (sym_address e =? 0); cbn [fst snd]; try discriminate);
      intros _;
      try (rewrite findSymbol_update_same, F by reflexivity;
           eexists; split; [reflexivity | cbn; auto]).
    all: exists e; split; [exact F | exact T].
  - intros _. cbn [fst findSymbol sym_name].
    rewrite (strncpy_short n _ (valid_label_length n V)), strcmp0_refl.
    eexists. split; [reflexivity |]. destruct ty; cbn; auto.
Qed.

Lemma addSymbol_accepted_lookup_witness :
  snd (addSymbol [mkSymbol "MAIN" 0 SYMBOL_ENTRY []] "MAIN" 100 SYMBOL_CODE)
  = false
  /\ exists s,
      findSymbol (fst (addSymbol [mkSymbol "MAIN" 0 SYMBOL_ENTRY []]
                                 "MAIN" 100 SYMBOL_CODE)) "MAIN" = Some s
      /\ sym_address s = 100
      /\ (sym_type s = SYMBOL_CODE \/ sym_type s = SYMBOL_ENTRY).
Proof.
  split; [reflexivity |].
  exact (addSymbol_accepted_lookup [mkSymbol "MAIN" 0 SYMBOL_ENTRY []]
                                   "MAIN" 100 SYMBOL_CODE eq_refl).
Defined.

(** X8.  No call of addSymbol, accepted or rejected, changes what
    findSymbol returns for any other name. *)
Theorem addSymbol_other_names_untouched
        (t : SymTab) (n m : string) (a : Z) (ty : SymbolType) :
  m <> n ->
  findSymbol (fst (addSymbol t n a ty)) m = findSymbol t m.
Proof.
  intros D. unfold addSymbol.
  destruct (is_opcode n || is_register n); [reflexivity |].
  destruct (is_valid_label n) eqn:V; cbn [negb]; [| reflexivity].
  destruct (findSymbol t n) as [e |].
  - destruct ty, (sym_type e); cbn [fst]; try reflexivity;
      try (destruct (sym_address e =? 0); cbn [fst]; try reflexivity);
      now apply findSymbol_update_other.
  - cbn [fst findSymbol sym_name].
    rewrite (strncpy_short n _ (valid_label_length n V)).
    now rewrite (strcmp0_neq n m) by congruence.
Qed.

Lemma addSymbol_other_names_untouched_witness :
  "LOOP" <> "END"
  /\ findSymbol (fst (addSymbol [mkSymbol "LOOP" 100 SYMBOL_CODE []]
                                "END" 104 SYMBOL_CODE)) "LOOP"
     = findSymbol [mkSymbol "LOOP" 100 SYMBOL_CODE []] "LOOP".
Proof.
  assert (D : "LOOP" <> "END") by discriminate.
  split; [exact D |].
  exact (addSymbol_other_names_untouched
           [mkSymbol "LOOP" 100 SYMBOL_CODE []] "END" "LOOP" 104 SYMBOL_CODE D).
Defined.

(** X9.  For a fresh, legal name, declaring it an entry and defining it
    locally (as code or data) commute: either order is accepted and leaves
    the same table, in which the name is an entry at the address of the
    definition. *)
Theorem entry_and_definition_commute
        (t : SymTab) (n : string) (a : Z) (ty : SymbolType) :
  is_opcode n || is_register n = false ->
  is_valid_label n = true ->
  findSymbol t n = None ->
  ty = SYMBOL_CODE \/ ty = SYMBOL_DATA ->
  let entry_first := addSymbol (fst (addSymbol t n 0 SYMBOL_ENTRY)) n a ty in
  let definition_first := addSymbol (fst (addSymbol t n a ty)) n 0 SYMBOL_ENTRY in
  entry_first = (mkSymbol n a SYMBOL_ENTRY [] :: t, false)
  /\ definition_first = (mkSymbol n a SYMBOL_ENTRY [] :: t, false)
  /\ snd (addSymbol t n 0 SYMBOL_ENTRY) = false
  /\ snd (addSymbol t n a ty) = false.
Proof.
  intros R V F Hty. cbv zeta.
  assert (N : strncpy n (MAX_SYMBOL_LENGTH - 1) = n)
    by apply (strncpy_short n _ (valid_label_length n V)).
  assert (A : forall a' ty',
             addSymbol t n a' ty' = (mkSymbol n a' ty' [] :: t, false)).
  { intros a' ty'. unfold addSymbol. now rewrite R, V, F, N. }
  rewrite !A. cbn [fst snd].
  assert (F' : forall a' ty',
             findSymbol (mkSymbol n a' ty' [] :: t) n
             = Some (mkSymbol n a' ty' [])).
  { intros a' ty'. cbn [findSymbol sym_name]. now rewrite strcmp0_refl. }
  unfold addSymbol. rewrite R, V. cbn [negb]. rewrite !F'.
  cbn [sym_type sym_address update_found sym_name].
  rewrite strcmp0_refl.
  destruct Hty as [-> | ->]; cbn; repeat split.
Qed.

Lemma entry_and_definition_commute_witness :
  addSymbol (fst (addSymbol [] "MAIN" 0 SYMBOL_ENTRY)) "MAIN" 100 SYMBOL_CODE
  = (mkSymbol "MAIN" 100 SYMBOL_ENTRY [] :: [], false)
  /\ addSymbol (fst (addSymbol [] "MAIN" 100 SYMBOL_CODE)) "MAIN" 0 SYMBOL_ENTRY
     = (mkSymbol "MAIN" 100 SYMBOL_ENTRY [] :: [], false).
Proof.
  destruct (entry_and_definition_commute [] "MAIN" 100 SYMBOL_CODE
              eq_refl eq_refl eq_refl (or_introl eq_refl)) as (H1 & H2 & _).
  split; [exact H1 | exact H2].
Defined.

End SymbolTableMore.

(** ** Invariants of the first pass *)

Module FirstPassMore.
Import CString Assembler Lexical SymbolTable Tables Operands DataDirectives.
Import FirstPass Notions MoreNotions FirstPassFacts SymbolTableMore.

Local Arguments strcmp0 : simpl never.

(** *** What the data directives append *)

Lemma pushed_app (vs ws : list Z) (d : Data) :
  pushed (vs ++ ws)%list d = pushed ws (pushed vs d).
Proof. unfold pushed. apply fold_left_app. Qed.

Lemma data_loop_pushes (fuel : nat) :
  forall rest success d,
  exists vs, snd (data_loop fuel rest success d) = pushed vs d
             /\ Forall in_word_range vs.
Proof.
  induction fuel as [| fuel IH]; intros rest success d; cbn [data_loop].
  - now exists [].
  - destruct (strtok_r rest) as [[token |] rest']; [| now exists []].
    destruct (strlen _ =? 0); [apply IH |].
    destruct (negb (is_valid_number _)); [apply IH |].
    destruct ((_ <? -512) || (511 <? _)) eqn:R; [apply IH |].
    apply orb_false_elim in R. destruct R as [R1 R2].
    apply Z.ltb_ge in R1, R2.
    destruct (IH rest' success (push_data (atoi (cut_at (skip_while isspace token)
                                                    blank_or_tab)) d))
      as (vs & E & F).
    eexists (_ :: vs). split; [exact E |].
    constructor; [split; assumption | exact F].
Qed.

Lemma validate_data_pushes (p : string) (d : Data) :
  exists vs, snd (validate_data_parameters p d) = pushed vs d
             /\ Forall in_word_range vs.
Proof.
  unfold validate_data_parameters.
  destruct (skip_while isspace p) as [| c r]; [now exists [] |].
  destruct (match String c r with
            | String ","%char r0 => (false, r0)
            | _ => (true, String c r)
            end) as [success rest].
  apply data_loop_pushes.
Qed.

Lemma code_bounded (c : ascii) : 0 <= code c < 256.
Proof. destruct c as [[] [] [] [] [] [] [] []]; vm_compute; split; congruence. Qed.

Lemma char_value_range (c : ascii) : in_word_range (char_value c).
Proof.
  unfold in_word_range, char_value. pose proof (code_bounded c).
  destruct (128 <=? code c); lia.
Qed.

Lemma push_chars_pushes (s : string) :
  forall d, push_chars s d = pushed (map char_value (list_ascii_of_string s)) d.
Proof.
  induction s as [| c r IH]; intros d; [reflexivity |].
  cbn [push_chars list_ascii_of_string map]. now rewrite IH.
Qed.

Lemma validate_string_pushes (p : string) (d : Data) :
  exists vs, snd (validate_string_parameters p d) = pushed vs d
             /\ Forall in_word_range vs.
Proof.
  unfold validate_string_parameters.
  destruct (skip_while isspace p) as [| q r]; [now exists [] |].
  destruct (negb (Ascii.eqb q double_quote)); [now exists [] |].
  destruct (split_last r double_quote) as [[content after] |];
    [| now exists []].
  destruct (skip_while isspace after); [| now exists []].
  exists (map char_value (list_ascii_of_string content) ++ [0])%list.
  cbn [snd]. rewrite pushed_app, push_chars_pushes. split; [reflexivity |].
  apply Forall_app. split.
  - apply Forall_forall. intros v I. apply in_map_iff in I.
    destruct I as (c & <- & _). apply char_value_range.
  - repeat constructor; unfold in_word_range; lia.
Qed.

Lemma mat_value_range (s e : string) (v : Z) :
  mat_value s = Some (v, e) -> in_word_range v.
Proof.
  unfold mat_value. intros H.
  repeat break_match_in H; try discriminate.
  injection H as <- _.
  match goal with
  | R : (_ <? -512) || (511 <? _) = false |- _ =>
      apply orb_false_elim in R; destruct R as [R1 R2];
      apply Z.ltb_ge in R1, R2; split; assumption
  end.
Qed.

(** The loop over the initial values appends in-range values, one per
    count, and never counts beyond the number of cells. *)
Lemma mat_loop_pushes (fuel : nat) :
  forall ptr count numCells success d,
    count <= numCells ->
    exists vs,
      snd (mat_loop fuel ptr count numCells success d) = pushed vs d
      /\ Forall in_word_range vs
      /\ snd (fst (fst (mat_loop fuel ptr count numCells success d)))
         = count + Z.of_nat (List.length vs)
      /\ count + Z.of_nat (List.length vs) <= numCells.
Proof.
  induction fuel as [| fuel IH]; intros ptr count numCells success d Hc;
    cbn [mat_loop].
  - exists []. cbn. repeat split; auto; lia.
  - destruct ptr as [| c r]; [exists []; cbn; repeat split; auto; lia |].
    destruct (count <? numCells) eqn:Lt; cbn [negb];
      [| exists []; cbn; repeat split; auto; lia].
    apply Z.ltb_lt in Lt.
    destruct (mat_value (String c r)) as [[value num_end_ptr] |] eqn:V;
      [| exists []; cbn; repeat split; auto; lia].
    pose proof (mat_value_range _ _ _ V) as R.
    assert (Stop : forall (p : string) (s : bool),
               exists vs,
                 snd (p, count + 1, s, push_data value d) = pushed vs d
                 /\ Forall in_word_range vs
                 /\ snd (fst (fst (p, count + 1, s, push_data value d)))
                    = count + Z.of_nat (List.length vs)
                 /\ count + Z.of_nat (List.length vs) <= numCells).
    { intros p s. exists [value]. cbn. repeat split; auto; lia. }
    assert (Go : forall p : string,
               exists vs,
                 snd (mat_loop fuel p (count + 1) numCells success
                               (push_data value d)) = pushed vs d
                 /\ Forall in_word_range vs
                 /\ snd (fst (fst (mat_loop fuel p (count + 1) numCells success
                                            (push_data value d))))
                    = count + Z.of_nat (List.length vs)
                 /\ count + Z.of_nat (List.length vs) <= numCells).
    { intros p.
      destruct (IH p (count + 1) numCells success (push_data value d)
                   ltac:(lia)) as (vs & E & F & C & B).
      exists (value :: vs). cbn [List.length]. repeat split.
      - exact E.
      - now constructor.
      - rewrite C. lia.
      - lia. }
    repeat match goal with
           | |- context [match ?x with _ => _ end] => destruct x
           end; first [apply Stop | apply Go].
Qed.

Lemma fill_zeros_pushes (n : nat) :
  forall d, fill_zeros n d = pushed (repeat 0 n) d.
Proof.
  induction n as [| n IH]; intros d; [reflexivity |].
  cbn [fill_zeros repeat]. now rewrite IH.
Qed.

Lemma validate_mat_pushes (p : string) (d d' : Data) (ok : bool) :
  validate_mat_parameters p d = Some (ok, d') ->
  exists vs, d' = pushed vs d /\ Forall in_word_range vs.
Proof.
  unfold validate_mat_parameters. intros H.
  destruct (sscanf_mat_dims _) as [[[rows cols] [after |]] |];
    [| discriminate | injection H as _ <-; now exists []].
  destruct ((rows <=? 0) || (cols <=? 0)) eqn:Pos;
    [injection H as _ <-; now exists [] |].
  destruct (match skip_while isspace after with
            | String ","%char r => (false, r)
            | _ => (true, skip_while isspace after)
            end) as [success ptr].
  apply orb_false_elim in Pos. destruct Pos as [P1 P2].
  apply Z.leb_gt in P1, P2.
  destruct (mat_loop_pushes (S (String.length (skip_while isspace ptr)))
                            (skip_while isspace ptr) 0 (rows * cols) success d
                            ltac:(nia)) as (vs & E & F & _).
  destruct (mat_loop _ _ _ _ _ _) as [[[ptr' count] success'] d1].
  injection H as _ <-. cbn [snd] in E. subst d1.
  exists (vs ++ repeat 0 (Z.to_nat (rows * cols - count)))%list.
  rewrite pushed_app, fill_zeros_pushes. split; [reflexivity |].
  apply Forall_app. split; [exact F |].
  apply Forall_forall. intros v I. apply repeat_spec in I. subst v.
  unfold in_word_range. lia.
Qed.

Lemma calculate_instruction_length_max (opc o1 o2 : string) :
  calculate_instruction_length opc o1 o2 <= 5.
Proof.
  unfold calculate_instruction_length.
  repeat match goal with
         | |- context [match ?x with _ => _ end] => destruct x eqn:?
         end; lia.
Qed.

(** *** Induction over the lines of the first pass *)

Section FirstPassInduction.

Variable P : State -> Prop.

Hypothesis P_error : forall st, P st -> P (with_error st).
Hypothesis P_line : forall st, P st -> P (next_line st).
Hypothesis P_insert :
  forall st n a ty, P st -> first_pass_insert st a ty ->
                    P (add_symbol n a ty st).
Hypothesis P_entry :
  forall st n s, P st -> findSymbol (symTab st) n = Some s ->
                 sym_type s <> SYMBOL_EXTERNAL ->
                 P (with_symTab (update_found (symTab st) n
                                              (set_type SYMBOL_ENTRY)) false st).
Hypothesis P_data :
  forall st vs e, P st -> Forall in_word_range vs ->
                  P (with_data (pushed vs (temp_d_head st, DC st)) e st).
Hypothesis P_instruction :
  forall st c p o1 o2 n,
    P st -> is_opcode c = true ->
    parse_operands p = Some (o1, o2, n) ->
    validate_instruction_operands c o1 o2 n = true ->
    let i := new_instruction (IC st) (lineNumber st) c n o1 o2 in
    1 <= instruction_length i <= 5 ->
    P (with_instruction i st).

Lemma process_directive_keeps (c l p : string) (st st' : State) :
  process_directive c l p st = Some st' -> P st -> P st'.
Proof.
  unfold process_directive. intros H Ok.
  set (st1 := if has_label l then add_symbol l (DC st) SYMBOL_DATA st else st)
    in H.
  assert (Ok1 : P st1).
  { subst st1. destruct (has_label l); [| exact Ok].
    now apply P_insert. }
  clearbody st1. clear Ok st.
  destruct (has_label l && g_has_error st1); [now injection H as <- |].
  destruct (strcmp0 c ".data").
  { destruct (validate_data_pushes p (temp_d_head st1, DC st1))
      as (vs & E & F).
    destruct (validate_data_parameters _ _) as [ok d].
    injection H as <-. cbn [snd] in E. subst d. now apply P_data. }
  destruct (strcmp0 c ".string").
  { destruct (validate_string_pushes p (temp_d_head st1, DC st1))
      as (vs & E & F).
    destruct (validate_string_parameters _ _) as [ok d].
    injection H as <-. cbn [snd] in E. subst d. now apply P_data. }
  destruct (strcmp0 c ".mat").
  { destruct (validate_mat_parameters _ _) as [[ok d] |] eqn:V;
      [| discriminate].
    destruct (validate_mat_pushes _ _ _ _ V) as (vs & -> & F).
    injection H as <-. now apply P_data. }
  destruct (strcmp0 c ".extern").
  { destruct (scan_token p) as [[[name k] rest] |]; injection H as <-;
      [now apply P_insert | now apply P_error]. }
  destruct (strcmp0 c ".entry"); [| injection H as <-; now apply P_error].
  destruct (scan_token p) as [[[name k] rest] |];
    [| injection H as <-; now apply P_error].
  destruct (findSymbol (symTab st1) name) as [s |] eqn:F.
  - destruct (SymbolType_eqb (sym_type s) SYMBOL_EXTERNAL) eqn:T;
      injection H as <-; [now apply P_error |].
    apply (P_entry st1 name s Ok1 F). intros T'. now rewrite T' in T.
  - injection H as <-. now apply P_insert.
Qed.

Lemma process_instruction_keeps (c l p : string) (st : State) :
  P st -> P (process_instruction c l p st).
Proof.
  intros Ok. unfold process_instruction.
  set (st1 := if has_label l then add_symbol l (IC st) SYMBOL_CODE st else st).
  assert (Ok1 : P st1).
  { subst st1. destruct (has_label l); [| exact Ok]. now apply P_insert. }
  clearbody st1.
  destruct (has_label l && g_has_error st1); [exact Ok1 |].
  destruct (is_opcode c) eqn:O; cbn [negb]; [| now apply P_error].
  destruct (parse_operands p) as [[[o1 o2] n] |] eqn:Po;
    [| now apply P_error].
  destruct (validate_instruction_operands c o1 o2 n) eqn:V; cbn [negb];
    [| now apply P_error].
  destruct (instruction_length _ =? -1) eqn:L; [now apply P_error |].
  apply Z.eqb_neq in L.
  apply (P_instruction st1 c p o1 o2 n Ok1 O Po V).
  unfold new_instruction in L |- *. cbn [instruction_length] in L |- *.
  set (len := calculate_instruction_length _ _ _) in *.
  split.
  - destruct (calculate_instruction_length_range
                (strncpy c 4) (strncpy o1 (MAX_LINE_LENGTH - 1))
                (strncpy o2 (MAX_LINE_LENGTH - 1))) as [R | R];
      [contradiction | exact R].
  - apply calculate_instruction_length_max.
Qed.

Lemma process_line_keeps (line : string) (st st' : State) :
  process_line line st = Some st' -> P st -> P st'.
Proof.
  unfold process_line. intros H Ok.
  repeat break_match_in H; inversion H; subst; auto.
  - eapply process_directive_keeps; eauto.
  - now apply process_instruction_keeps.
Qed.

(** Whatever the first pass keeps true line by line is true of its final
    state. *)
Lemma read_loop_keeps (fuel : nat) :
  forall input st st',
    read_loop fuel input st = Some st' -> P st -> P st'.
Proof.
  induction fuel as [| fuel IH]; intros input st st' H Ok; cbn [read_loop] in H.
  - now injection H as <-.
  - destruct (fgets (MAX_LINE_LENGTH + 2) input) as [[line rest] |];
      [| now injection H as <-].
    destruct (line_too_long line).
    + apply (IH _ _ _ H). now apply P_error, P_line.
    + destruct (process_line line (next_line st)) as [st1 |] eqn:L;
        [| discriminate].
      apply (IH _ _ _ H). apply (process_line_keeps _ _ _ L).
      now apply P_line.
Qed.

End FirstPassInduction.

(** *** The symbol table during the first pass *)

Lemma findSymbol_none_not_in (t : SymTab) (n : string) :
  findSymbol t n = None -> ~ In n (map sym_name t).
Proof.
  induction t as [| x t IH]; cbn [findSymbol map In]; [tauto |].
  destruct (strcmp0 (sym_name x) n) eqn:E; [discriminate |].
  intros F [H | H]; [| now apply IH].
  subst n. now rewrite strcmp0_refl in E.
Qed.

Lemma update_found_names (t : SymTab) (n : string) (f : Symbol -> Symbol) :
  (forall s, sym_name (f s) = sym_name s) ->
  map sym_name (update_found t n f) = map sym_name t.
Proof.
  intros Hf. induction t as [| x t IH]; [reflexivity |].
  cbn [update_found]. destruct (strcmp0 (sym_name x) n); cbn [map].
  - now rewrite Hf.
  - now rewrite IH.
Qed.

(** addSymbol keeps the names of the table distinct. *)
Lemma addSymbol_NoDup (t : SymTab) (n : string) (a : Z) (ty : SymbolType) :
  NoDup (map sym_name t) -> NoDup (map sym_name (fst (addSymbol t n a ty))).
Proof.
  intros H. unfold addSymbol.
  destruct (is_opcode n || is_register n); [exact H |].
  destruct (is_valid_label n) eqn:V; cbn [negb]; [| exact H].
  destruct (findSymbol t n) as [e |] eqn:F.
  - destruct ty, (sym_type e); cbn [fst]; try exact H;
      try (destruct (sym_address e =? 0); cbn [fst]; try exact H);
      now rewrite update_found_names.
  - cbn [fst map sym_name].
    rewrite (strncpy_short n _ (valid_label_length n V)).
    constructor; [now apply findSymbol_none_not_in | exact H].
Qed.

Lemma sym_ok_entry (ic dc : Z) (s : Symbol) :
  sym_type s <> SYMBOL_EXTERNAL -> sym_ok ic dc s ->
  sym_ok ic dc (set_type SYMBOL_ENTRY s).
Proof.
  unfold sym_ok. destruct s as [n a ty us]. cbn. intros T [U R].
  split; [exact U |]. destruct ty; auto. contradiction.
Qed.

Lemma update_found_Forall_found (Q : Symbol -> Prop) (f : Symbol -> Symbol)
      (t : SymTab) (n : string) :
  (forall s, findSymbol t n = Some s -> Q s -> Q (f s)) ->
  Forall Q t -> Forall Q (update_found t n f).
Proof.
  induction t as [| x t IH]; intros Hf H; cbn [update_found]; [constructor |].
  inversion H as [| ? ? Hx Ht]; subst.
  cbn [findSymbol] in Hf.
  destruct (strcmp0 (sym_name x) n); constructor; auto.
Qed.

Lemma addSymbol_sym_ok (ic dc : Z) (t : SymTab) (n : string) (a : Z)
      (ty : SymbolType) :
  MEMORY_START <= ic -> 0 <= dc ->
  match ty with
  | SYMBOL_DATA => a = dc
  | SYMBOL_CODE => a = ic
  | _ => a = 0
  end ->
  Forall (sym_ok ic dc) t -> Forall (sym_ok ic dc) (fst (addSymbol t n a ty)).
Proof.
  intros Hic Hdc Ha H. unfold addSymbol.
  destruct (is_opcode n || is_register n); [exact H |].
  destruct (negb (is_valid_label n)); [exact H |].
  destruct (findSymbol t n) as [e |] eqn:F.
  - destruct ty, (sym_type e) eqn:T; cbn [fst]; try exact H;
      try (destruct (sym_address e =? 0); cbn [fst]; try exact H);
      apply update_found_Forall_found; try exact H;
      intros s Fs Os; rewrite F in Fs; injection Fs as <-;
      try (apply sym_ok_entry; [congruence | exact Os]);
      destruct e as [en ea ety eus]; cbn in T; subst ety;
      unfold sym_ok in Os |- *; cbn in Os |- *; destruct Os as [U _];
      (split; [exact U | subst a; lia]).
  - cbn [fst]. constructor; [| exact H].
    unfold sym_ok. cbn. split; [reflexivity |].
    unfold MEMORY_START in *. destruct ty; subst a; lia.
Qed.

Lemma sym_ok_grow (ic dc ic' dc' : Z) (s : Symbol) :
  ic <= ic' -> dc <= dc' -> sym_ok ic dc s -> sym_ok ic' dc' s.
Proof.
  unfold sym_ok. intros Hi Hd [U R]. split; [exact U |].
  destruct (sym_type s); lia.
Qed.

Lemma pushed_DC (vs : list Z) :
  forall d, snd (pushed vs d) = snd d + Z.of_nat (List.length vs).
Proof.
  induction vs as [| v vs IH]; intros d; [cbn; lia |].
  cbn [pushed fold_left]. fold (pushed vs (push_data v d)).
  rewrite IH. destruct d. cbn [push_data snd List.length]. lia.
Qed.

Lemma add_symbol_table (n : string) (a : Z) (ty : SymbolType) (st : State) :
  symTab (add_symbol n a ty st) = fst (addSymbol (symTab st) n a ty)
  /\ IC (add_symbol n a ty st) = IC st
  /\ DC (add_symbol n a ty st) = DC st
  /\ temp_i_head (add_symbol n a ty st) = temp_i_head st
  /\ temp_d_head (add_symbol n a ty st) = temp_d_head st
  /\ g_has_error (add_symbol n a ty st)
     = g_has_error st || snd (addSymbol (symTab st) n a ty).
Proof.
  unfold add_symbol. now destruct (addSymbol (symTab st) n a ty).
Qed.

Lemma table_ok_kept (fuel : nat) (input : string) (st st' : State) :
  read_loop fuel input st = Some st' -> table_ok st -> table_ok st'.
Proof.
  apply (read_loop_keeps table_ok); clear.
  - intros st H. exact H.
  - intros st H. exact H.
  - intros st n a ty (I & D & N & F) Ins.
    destruct (add_symbol_table n a ty st) as (Et & Ei & Ed & _).
    unfold table_ok. rewrite Et, Ei, Ed.
    split; [exact I |]. split; [exact D |]. split.
    + now apply addSymbol_NoDup.
    + apply addSymbol_sym_ok; assumption.
  - intros st n s (I & D & N & F) Fs T.
    unfold table_ok. cbn [IC DC symTab with_symTab].
    split; [exact I |]. split; [exact D |]. split.
    + now rewrite update_found_names.
    + apply update_found_Forall_found; [| exact F].
      intros s' Fs' Os. rewrite Fs in Fs'. injection Fs' as <-.
      now apply sym_ok_entry.
  - intros st vs e (I & D & N & F) R.
    unfold table_ok. cbn [IC DC symTab with_data].
    rewrite pushed_DC. cbn [snd].
    split; [exact I |]. split; [lia |]. split; [exact N |].
    eapply Forall_impl; [| exact F]. intros s. apply sym_ok_grow; lia.
  - intros st c p o1 o2 n (I & D & N & F) _ _ _ i L.
    unfold table_ok. cbn [IC DC symTab with_instruction].
    split; [lia |]. split; [exact D |]. split; [exact N |].
    eapply Forall_impl; [| exact F]. intros s. apply sym_ok_grow; lia.
Qed.

(** *** The data list and the instruction list *)



Lemma code_stacked_kept (fuel : nat) (input : string) (st st' : State) :
  read_loop fuel input st = Some st' ->
  code_stacked (temp_i_head st) (IC st) ->
  code_stacked (temp_i_head st') (IC st').
Proof.
  apply (read_loop_keeps (fun st => code_stacked (temp_i_head st) (IC st)));
    clear; try (intros; assumption).
  - intros st n a ty H _.
    destruct (add_symbol_table n a ty st) as (_ & Ei & _ & El & _).
    now rewrite Ei, El.
  - intros st c p o1 o2 n H _ _ _ i L.
    cbn [temp_i_head IC with_instruction code_stacked].
    split; [reflexivity |]. split; [exact L | exact H].
Qed.

Lemma code_stacked_tiles (l : list Instruction) :
  forall ic tail stop,
    code_stacked l ic -> tiles ic tail stop ->
    tiles MEMORY_START (rev l ++ tail) stop.
Proof.
  induction l as [| x l IH]; intros ic tail stop S T.
  - cbn in S |- *. now subst ic.
  - cbn [code_stacked] in S. destruct S as (E & L & S).
    cbn [rev]. rewrite <- app_assoc. cbn [app].
    apply (IH (inst_address x)); [exact S |].
    cbn [tiles]. repeat split; try lia. now rewrite E.
Qed.


Lemma firstPass_tiles (input : string) (r : Result) :
  firstPass input [] = Some r ->
  tiles MEMORY_START (instructionList r) (final_ic r).
Proof.
  unfold firstPass. intros H.
  destruct (read_loop _ input (initial_state [])) as [st |] eqn:R;
    [| discriminate].
  injection H as <-. cbn [instructionList final_ic].
  rewrite <- (app_nil_r (rev (temp_i_head st))).
  apply (code_stacked_tiles _ (IC st)); [| reflexivity].
  apply (code_stacked_kept _ _ _ _ R). reflexivity.
Qed.

(** X10.  The instruction records the first pass returns tile the code
    segment: the first one is at MEMORY_START, each one has a length of one
    to five words and starts where the one before it ends, and the last one
    ends at the final instruction counter. *)
Theorem instruction_list_tiles_code_segment (input : string) (r : Result) :
  firstPass input [] = Some r ->
  tiles MEMORY_START (instructionList r) (final_ic r).
Proof. apply firstPass_tiles. Qed.

Lemma instruction_list_tiles_code_segment_witness :
  tiles MEMORY_START
        [new_instruction 100 1 "mov" 2 "r1" "r2";
         new_instruction 102 2 "stop" 0 "" ""] 103.
Proof.
  exact (instruction_list_tiles_code_segment
           (text ["mov r1, r2"; "stop"])
           (mkResult [] [new_instruction 100 1 "mov" 2 "r1" "r2";
                         new_instruction 102 2 "stop" 0 "" ""] [] 103 0 false)
           eq_refl).
Defined.




(** *** The symbol table the first pass returns *)

Lemma relocate_placed (ic dc : Z) (s : Symbol) :
  MEMORY_START <= ic -> 0 <= dc ->
  sym_ok ic dc s -> sym_placed ic dc (relocate ic s).
Proof.
  unfold sym_ok, sym_placed, relocate, MEMORY_START.
  destruct s as [n a ty us]. cbn [sym_type sym_address external_usages].
  intros I D [U R]. destruct ty; cbn; try (split; [exact U | lia]).
  destruct (a <? 100) eqn:L; cbn; (split; [exact U | lia]).
Qed.

Lemma relocate_name (ic : Z) (s : Symbol) :
  sym_name (relocate ic s) = sym_name s.
Proof.
  unfold relocate. destruct (sym_type s); try reflexivity.
  now destruct (sym_address s <? MEMORY_START).
Qed.

Lemma firstPass_table (input : string) (r : Result) :
  firstPass input [] = Some r ->
  NoDup (map sym_name (res_symTab r))
  /\ Forall (sym_placed (final_ic r) (final_dc r)) (res_symTab r).
Proof.
  unfold firstPass. intros H.
  destruct (read_loop _ input (initial_state [])) as [st |] eqn:R;
    [| discriminate].
  injection H as <-. cbn [res_symTab final_ic final_dc].
  destruct (table_ok_kept _ _ _ _ R) as (I & D & N & F).
  { unfold table_ok, initial_state. cbn [IC DC symTab map].
    unfold MEMORY_START. split; [lia |]. split; [lia |].
    split; constructor. }
  unfold updateDataSymbolsAddresses. split.
  - rewrite map_map.
    rewrite (map_ext _ sym_name (relocate_name (IC st))). exact N.
  - apply Forall_map. eapply Forall_impl; [| exact F].
    intros s. now apply relocate_placed.
Qed.

(** X12.  The symbol table the first pass returns: no two symbols have
    the same name; a code symbol lies in the code segment, a data symbol
    in the data segment that follows it, an external symbol is at 0, an
    entry symbol is at MEMORY_START or above; and no usage is recorded
    yet. *)
Theorem first_pass_table_is_placed (input : string) (r : Result) :
  firstPass input [] = Some r ->
  NoDup (map sym_name (res_symTab r))
  /\ Forall (sym_placed (final_ic r) (final_dc r)) (res_symTab r).
Proof. apply firstPass_table. Qed.

Lemma first_pass_table_is_placed_witness :
  NoDup ["E"; "W"; "X"; "L"]
  /\ Forall (sym_placed 102 2)
            [mkSymbol "E" 102 SYMBOL_ENTRY [];
             mkSymbol "W" 0 SYMBOL_EXTERNAL [];
             mkSymbol "X" 102 SYMBOL_DATA [];
             mkSymbol "L" 100 SYMBOL_CODE []].
Proof.
  exact (first_pass_table_is_placed
           (text ["L: mov r1, r2"; "X: .data 7, -1"; ".extern W";
                  ".entry E"])
           (mkResult [mkSymbol "E" 102 SYMBOL_ENTRY [];
                      mkSymbol "W" 0 SYMBOL_EXTERNAL [];
                      mkSymbol "X" 102 SYMBOL_DATA [];
                      mkSymbol "L" 100 SYMBOL_CODE []]
                     [new_instruction 100 1 "mov" 2 "r1" "r2"]
                     [mkDataItem 0 7; mkDataItem 1 (-1)]
                     102 2 false)
           eq_refl).
Defined.

(** *** The instruction records *)

Lemma strncpy_length (s : string) :
  forall n, (String.length (strncpy s n) <= n)%nat.
Proof.
  induction s as [| c r IH]; intros [| n]; cbn; try lia.
  specialize (IH n). lia.
Qed.

Lemma parse_operands_counted (p o1 o2 : string) (n : Z) :
  parse_operands p = Some (o1, o2, n) ->
  (String.length o1 <= MAX_LINE_LENGTH - 1)%nat
  /\ (String.length o2 <= MAX_LINE_LENGTH - 1)%nat
  /\ ((n = 0 /\ o1 = EmptyString /\ o2 = EmptyString)
      \/ (n = 1 /\ o1 <> EmptyString /\ o2 = EmptyString)
      \/ (n = 2 /\ o1 <> EmptyString /\ o2 <> EmptyString)).
Proof.
  unfold parse_operands.
  destruct (strtok_r p) as [token1 state1].
  destruct (strtok_r state1) as [token2 state2].
  destruct (fst (strtok_r state2)) as [token3 |].
  all: destruct token1 as [token1 |];
    [destruct (trimmed_operand token1) as [| c1 r1]; [discriminate |] |].
  all: destruct token2 as [token2 |]; cbn [Z.eqb];
    try discriminate;
    try (destruct (trimmed_operand token2) as [| c2 r2]; [discriminate |]).
  all: try (destruct (0 <? strlen (skip_while isspace token3));
            [discriminate |]).
  all: intros [= <- <- <-].
  all: split; [| split].
  all: try (cbn [String.length]; lia).
  all: try (pose proof (strncpy_length r1 79);
            pose proof (strncpy_length r2 79);
            cbn [String.length]; unfold MAX_LINE_LENGTH; lia).
  all: try (pose proof (strncpy_length r1 79);
            cbn [String.length]; unfold MAX_LINE_LENGTH; lia).
  all: try (right; right; split; [reflexivity | split; discriminate]).
  all: try (right; left; split; [reflexivity | split; [discriminate |]];
            reflexivity).
  all: left; repeat split.
Qed.

Lemma opcode_length (c : string) :
  is_opcode c = true -> (String.length c <= 4)%nat.
Proof.
  intros H. destruct (LexicalMore.opcode_cases c) as [I | N].
  - cbn in I.
    repeat match type of I with
           | _ \/ _ => destruct I as [I | I]
           end; try contradiction; subst c; cbn; lia.
  - unfold is_opcode in H. apply existsb_exists in H.
    destruct H as (o & I & E). rewrite (N o I) in E. discriminate.
Qed.

Lemma new_instruction_validated (ic line : Z) (c p o1 o2 : string) (n : Z) :
  is_opcode c = true ->
  parse_operands p = Some (o1, o2, n) ->
  validate_instruction_operands c o1 o2 n = true ->
  validated (new_instruction ic line c n o1 o2).
Proof.
  intros O Po V.
  destruct (parse_operands_counted _ _ _ _ Po) as (L1 & L2 & C).
  unfold validated, operands_counted, new_instruction.
  cbn [opcode operand1 operand2 num_operands instruction_length
       machine_code_base4 num_operand_words].
  rewrite (strncpy_short c 4 (opcode_length c O)).
  rewrite (strncpy_short o1 _ L1), (strncpy_short o2 _ L2).
  repeat split; try assumption.
Qed.

Lemma validated_kept (fuel : nat) (input : string) (st st' : State) :
  read_loop fuel input st = Some st' ->
  Forall validated (temp_i_head st) -> Forall validated (temp_i_head st').
Proof.
  apply (read_loop_keeps (fun st => Forall validated (temp_i_head st)));
    clear; try (intros; assumption).
  - intros st n a ty H _.
    destruct (add_symbol_table n a ty st) as (_ & _ & _ & El & _).
    now rewrite El.
  - intros st c p o1 o2 n H O Po V i L.
    cbn [temp_i_head with_instruction]. constructor; [| exact H].
    now apply (new_instruction_validated _ _ c p).
Qed.

(** X13.  Every instruction record the first pass returns was checked:
    its opcode is one of the sixteen, validate_instruction_operands
    accepts its operands, num_operands counts its non-empty operand
    fields, its length is the one calculate_instruction_length gives
    for the stored fields, and nothing is encoded yet. *)
Theorem instruction_records_are_validated (input : string) (r : Result) :
  firstPass input [] = Some r -> Forall validated (instructionList r).
Proof.
  unfold firstPass. intros H.
  destruct (read_loop _ input (initial_state [])) as [st |] eqn:R;
    [| discriminate].
  injection H as <-. cbn [instructionList].
  apply Forall_rev. apply (validated_kept _ _ _ _ R). constructor.
Qed.

Lemma instruction_records_are_validated_witness :
  Forall validated [new_instruction 100 1 "lea" 2 "M[r1][r2]" "r3";
                    new_instruction 104 3 "prn" 1 "#-5" ""].
Proof.
  exact (instruction_records_are_validated
           (text ["lea M[r1][r2], r3"; "mov #1, #2"; "prn #-5"; "stop 4"])
           (mkResult []
                     [new_instruction 100 1 "lea" 2 "M[r1][r2]" "r3";
                      new_instruction 104 3 "prn" 1 "#-5" ""]
                     [] 106 0 true)
           eq_refl).
Defined.

(** X14.  The first pass never clears the error flag: from a state with
    the flag set, whatever lines follow, the final state has it set. *)
Theorem first_pass_error_flag_is_sticky (fuel : nat) (input : string)
        (st st' : State) :
  read_loop fuel input st = Some st' ->
  g_has_error st = true -> g_has_error st' = true.
Proof.
  apply (read_loop_keeps (fun st => g_has_error st = true)); clear.
  - intros st H. cbn. now rewrite H.
  - intros st H. exact H.
  - intros st n a ty H _.
    destruct (add_symbol_table n a ty st) as (_ & _ & _ & _ & _ & E).
    now rewrite E, H.
  - intros st n s H _ _. cbn. now rewrite H.
  - intros st vs e H _. cbn. now rewrite H.
  - intros st c p o1 o2 n H _ _ _ i _. exact H.
Qed.

Lemma first_pass_error_flag_is_sticky_witness :
  g_has_error
    (mkState [] [new_instruction 100 2 "stop" 0 "" ""] [] 101 0 true 2)
  = true.
Proof.
  apply (first_pass_error_flag_is_sticky
           20 (text ["stop"]) (with_error (next_line (initial_state [])))).
  - reflexivity.
  - reflexivity.
Defined.

(** *** The names in the symbol table *)

Lemma addSymbol_name_ok (t : SymTab) (n : string) (a : Z) (ty : SymbolType) :
  Forall name_ok t -> Forall name_ok (fst (addSymbol t n a ty)).
Proof.
  intros H. unfold addSymbol.
  destruct (is_opcode n || is_register n) eqn:R; [exact H |].
  destruct (is_valid_label n) eqn:V; cbn [negb]; [| exact H].
  destruct (findSymbol t n) as [e |] eqn:F.
  - destruct ty, (sym_type e); cbn [fst]; try exact H;
      try (destruct (sym_address e =? 0); cbn [fst]; try exact H);
      (apply update_found_Forall_found; [| exact H]);
      intros [sn sa sty sus] _ Ok; exact Ok.
  - cbn [fst]. constructor; [| exact H].
    unfold name_ok. cbn [sym_name].
    rewrite (strncpy_short n _ (valid_label_length n V)). now split.
Qed.

Lemma name_ok_kept (fuel : nat) (input : string) (st st' : State) :
  read_loop fuel input st = Some st' ->
  Forall name_ok (symTab st) -> Forall name_ok (symTab st').
Proof.
  apply (read_loop_keeps (fun st => Forall name_ok (symTab st))); clear;
    try (intros; assumption).
  - intros st n a ty H _.
    destruct (add_symbol_table n a ty st) as (Et & _). rewrite Et.
    now apply addSymbol_name_ok.
  - intros st n s H _ _. cbn [symTab with_symTab].
    apply update_found_Forall_found; [| exact H].
    intros [sn sa sty sus] _ Ok. exact Ok.
Qed.

(** X29.  Reserved words never become symbols: every name in the symbol
    table the first pass returns is a legal label (a letter followed by
    letters and digits, at most 30 characters) and is neither an opcode
    nor a register. *)
Theorem first_pass_symbols_are_legal_names (input : string) (r : Result) :
  firstPass input [] = Some r -> Forall name_ok (res_symTab r).
Proof.
  unfold firstPass. intros H.
  destruct (read_loop _ input (initial_state [])) as [st |] eqn:R;
    [| discriminate].
  injection H as <-. cbn [res_symTab].
  unfold updateDataSymbolsAddresses. apply Forall_map.
  eapply Forall_impl; [| apply (name_ok_kept _ _ _ _ R); constructor].
  intros s Ok. unfold name_ok. now rewrite relocate_name.
Qed.

Lemma first_pass_symbols_are_legal_names_witness :
  Forall name_ok [mkSymbol "X" 101 SYMBOL_DATA [];
                  mkSymbol "L" 100 SYMBOL_CODE []].
Proof.
  exact (first_pass_symbols_are_legal_names
           (text ["L: stop"; "mov: stop"; "r3: .data 1"; "X: .data 2"])
           (mkResult [mkSymbol "X" 101 SYMBOL_DATA [];
                      mkSymbol "L" 100 SYMBOL_CODE []]
                     [new_instruction 100 1 "stop" 0 "" ""]
                     [] 101 0 true)
           eq_refl).
Defined.

(** *** The opcode check of the second pass *)

Lemma opcode_has_digits (c : string) :
  is_opcode c = true -> strcmp0 (get_opcode_base4 c) "aaaa" = false.
Proof.
  intros H. destruct (LexicalMore.opcode_cases c) as [I | N].
  - cbn in I.
    repeat match type of I with
           | _ \/ _ => destruct I as [I | I]
           end; try contradiction; subst c; reflexivity.
  - unfold is_opcode in H. apply existsb_exists in H.
    destruct H as (o & I & E). rewrite (N o I) in E. discriminate.
Qed.

(** X30.  The second pass never meets an unknown opcode: for every
    instruction record the first pass returns, get_opcode_base4 has
    digits for the opcode, so the first exit of encode_instruction_words
    is not taken. *)
Theorem second_pass_knows_every_opcode (input : string) (r : Result) :
  firstPass input [] = Some r ->
  Forall (fun i => strcmp0 (get_opcode_base4 (opcode i)) "aaaa" = false)
         (instructionList r).
Proof.
  unfold firstPass. intros H.
  destruct (read_loop _ input (initial_state [])) as [st |] eqn:R;
    [| discriminate].
  injection H as <-. cbn [instructionList].
  apply Forall_rev.
  eapply Forall_impl; [| apply (validated_kept _ _ _ _ R); constructor].
  intros i (O & _). now apply opcode_has_digits.
Qed.

Lemma second_pass_knows_every_opcode_witness :
  Forall (fun i => strcmp0 (get_opcode_base4 (opcode i)) "aaaa" = false)
         [new_instruction 100 1 "rts" 0 "" ""].
Proof.
  exact (second_pass_knows_every_opcode
           (text ["rts"; "halt"])
           (mkResult [] [new_instruction 100 1 "rts" 0 "" ""] [] 101 0 true)
           eq_refl).
Defined.

End FirstPassMore.

(** ** More on the second pass *)

Module SecondPassMore.
Import CString Assembler Lexical SymbolTable Tables Operands SecondPass.
Import FirstPass Base4 OutputFiles Driver Notions MoreNotions Base4Facts.

Local Arguments strcmp0 : simpl never.

(** *** The value of an operand word *)

Lemma fill_digits_app (k : nat) :
  forall v a b,
    fill_digits k v (a ++ b) = (fill_digits k v a ++ b)%string.
Proof.
  induction k as [| k IH]; intros v a b; [reflexivity |].
  cbn [fill_digits]. apply (IH _ (String _ a) b).
Qed.

Lemma strncpy_app (a b : string) :
  strncpy (a ++ b) (String.length a) = a.
Proof.
  induction a as [| c a IH]; cbn.
  - now destruct b.
  - now rewrite IH.
Qed.

(** The first four digits of a rendering followed by one more digit. *)
Lemma truncated_word (v : Z) (c : ascii) :
  (strncpy (convertToBase4 v) (BASE4_WORD_LENGTH - 1)
     ++ String c EmptyString)%string
  = fill_digits 4 (Z.shiftr (Z.land v 1023) 2) (String c EmptyString).
Proof.
  set (w := Z.shiftr (Z.land v 1023) 2).
  set (d := base4_char (Z.land (Z.land v 1023) 3)).
  assert (E : fill_digits 5 (Z.land v 1023) EmptyString
              = (fill_digits 4 w EmptyString ++ String d EmptyString)%string).
  { rewrite <- fill_digits_app. reflexivity. }
  unfold convertToBase4, BASE4_LENGTH. rewrite E.
  replace (BASE4_WORD_LENGTH - 1)%nat
    with (String.length (fill_digits 4 w EmptyString))
    by (now rewrite length_fill_digits).
  rewrite strncpy_app.
  now rewrite <- fill_digits_app.
Qed.

Lemma truncated_word_value (v k : Z) (c : ascii) :
  spec_digit_value c = Some k ->
  word_value (strncpy (convertToBase4 v) (BASE4_WORD_LENGTH - 1)
                ++ String c EmptyString)
  = Some (4 * ((v mod 1024) / 4) + k).
Proof.
  intros D. rewrite truncated_word. unfold word_value.
  rewrite decode_fill_digits. cbn [spec_decode_digits]. rewrite D.
  f_equal. rewrite land1023_mod, Z.shiftr_div_pow2 by lia.
  change (2 ^ 2) with 4. change (4 ^ Z.of_nat 4) with 256.
  pose proof (Z.mod_pos_bound v 1024 ltac:(lia)) as B.
  assert (0 <= v mod 1024 / 4 < 256) as Q.
  { split; [apply Z.div_pos; lia |].
    apply Z.div_lt_upper_bound; lia. }
  rewrite (Z.mod_small _ 256 Q). lia.
Qed.


(** X16.  The operand word of a direct label.  When the label is in the
    table the encoder writes one word and goes on; the word is the first
    four digits of the address's rendering followed by 'b' for an
    external symbol and 'c' for any other, so its value is the address's
    ten-bit word with the two low bits replaced by 1 or 2; and for an
    external symbol the address of the word is recorded as a usage.  A
    label that is not in the table stops the encoding. *)
Theorem label_word_holds_truncated_address
        (op : string) (inst : Instruction) (t : SymTab) (idx : nat) :
  (forall sym,
      findSymbol t op = Some sym ->
      exists w,
        encode_label_or_matrix "b" op (inst, t, idx)
        = Next (set_operand_word idx w inst,
                (if SymbolType_eqb (sym_type sym) SYMBOL_EXTERNAL
                 then record_usage t (op, inst_address inst + Z.of_nat idx + 1)
                 else t),
                S idx)
        /\ String.length w = 5%nat
        /\ word_value w
           = Some (4 * ((sym_address sym mod 1024) / 4) + are_bits sym))
  /\ (findSymbol t op = None ->
      encode_label_or_matrix "b" op (inst, t, idx)
      = Return_error (inst, t, idx)).
Proof.
  unfold encode_label_or_matrix.
  change (Ascii.eqb "b" "c") with false. cbv iota. split.
  - intros sym F. rewrite F. unfold are_bits.
    destruct (SymbolType_eqb (sym_type sym) SYMBOL_EXTERNAL).
    + change (Ascii.eqb "b" "b") with true. cbv iota.
      eexists. split; [reflexivity |]. split.
      * unfold chars. cbn [string_of_list_ascii].
        rewrite truncated_word, length_fill_digits. reflexivity.
      * apply (truncated_word_value _ 1 "b" eq_refl).
    + change (Ascii.eqb "c" "b") with false. cbv iota.
      eexists. split; [reflexivity |]. split.
      * unfold chars. cbn [string_of_list_ascii].
        rewrite truncated_word, length_fill_digits. reflexivity.
      * apply (truncated_word_value _ 2 "c" eq_refl).
  - intros F. now rewrite F.
Qed.


Lemma label_word_holds_truncated_address_witness :
  exists w,
    encode_label_or_matrix
      "b" "X" (new_instruction 100 1 "jmp" 1 "X" "",
               [mkSymbol "X" 103 SYMBOL_CODE []], O)
    = Next (set_operand_word 0 w (new_instruction 100 1 "jmp" 1 "X" ""),
            [mkSymbol "X" 103 SYMBOL_CODE []], 1%nat)
    /\ String.length w = 5%nat
    /\ word_value w = Some 102.
Proof.
  apply (proj1 (label_word_holds_truncated_address
                  "X" (new_instruction 100 1 "jmp" 1 "X" "")
                  [mkSymbol "X" 103 SYMBOL_CODE []] O)
               (mkSymbol "X" 103 SYMBOL_CODE [])).
  reflexivity.
Defined.

(** *** What a step of the encoder keeps *)

Lemma extended_by_refl (P : Z -> Prop) (s : Symbol) : extended_by P s s.
Proof.
  split; [reflexivity |]. split; [reflexivity |].
  exists []. split; [reflexivity | constructor].
Qed.

Lemma extended_by_trans (P Q R : Z -> Prop) (s1 s2 s3 : Symbol) :
  (forall a, P a -> R a) -> (forall a, Q a -> R a) ->
  extended_by P s1 s2 -> extended_by Q s2 s3 -> extended_by R s1 s3.
Proof.
  intros PR QR (C1 & U1 & n1 & E1 & F1) (C2 & U2 & n2 & E2 & F2).
  split; [congruence |]. split.
  - intros T. rewrite U2, U1; try assumption; try reflexivity.
    rewrite (U1 T). exact T.
  - exists (n2 ++ n1)%list. split.
    + rewrite E2, E1. now rewrite app_assoc.
    + apply Forall_app. split.
      * eapply Forall_impl; [apply QR | exact F2].
      * eapply Forall_impl; [apply PR | exact F1].
Qed.

Lemma tables_refl (P : Z -> Prop) (t : SymTab) : Forall2 (extended_by P) t t.
Proof.
  induction t as [| x t IH]; constructor; [apply extended_by_refl | exact IH].
Qed.

Lemma tables_trans (P Q R : Z -> Prop) (t1 : SymTab) :
  (forall a, P a -> R a) -> (forall a, Q a -> R a) ->
  forall t2 t3,
    Forall2 (extended_by P) t1 t2 -> Forall2 (extended_by Q) t2 t3 ->
    Forall2 (extended_by R) t1 t3.
Proof.
  intros PR QR. induction t1 as [| x t1 IH]; intros t2 t3 H1 H2.
  - inversion H1; subst. inversion H2; subst. constructor.
  - inversion H1 as [| ? y ? t2' Hx Ht]; subst.
    inversion H2 as [| ? z ? t3' Hy Ht']; subst.
    constructor; [| now apply (IH t2')].
    now apply (extended_by_trans P Q R x y z).
Qed.

(** Recording a usage extends the list of the external symbol it finds
    and changes nothing else. *)
Lemma record_extended (P : Z -> Prop) (t : SymTab) (n : string) (a : Z) :
  P a ->
  Forall2 (extended_by P) t
          (update_found t n (fun s => fst (addExternalUsage s a))).
Proof.
  intros Pa. induction t as [| x t IH]; [constructor |].
  cbn [update_found]. destruct (strcmp0 (sym_name x) n).
  - constructor; [| apply tables_refl].
    destruct x as [xn xa xty xus]. unfold addExternalUsage.
    cbn [sym_type]. destruct xty; try apply extended_by_refl.
    cbn [fst]. split; [reflexivity |]. split; [intros T; now elim T |].
    exists [a]. split; [reflexivity | now constructor].
  - constructor; [apply extended_by_refl | exact IH].
Qed.

Lemma step_ok_refl (p : Progress) : step_ok p p.
Proof.
  split; [reflexivity |]. split; [lia |]. apply tables_refl.
Qed.

Lemma step_ok_trans (p1 p2 p3 : Progress) :
  step_ok p1 p2 -> step_ok p2 p3 -> step_ok p1 p3.
Proof.
  intros (S1 & I1 & T1) (S2 & I2 & T2).
  assert (A : inst_address (inst_of p2) = inst_address (inst_of p1))
    by (unfold slot in S1; congruence).
  split; [congruence |]. split; [lia |].
  rewrite A in T2.
  eapply tables_trans; [| | exact T1 | exact T2]; cbv beta; intros a H; lia.
Qed.

(** A step that writes the word at the index and moves to the next. *)
Lemma step_ok_word (inst : Instruction) (t : SymTab) (idx : nat) (w : string) :
  step_ok (inst, t, idx) (set_operand_word idx w inst, t, S idx).
Proof.
  split; [reflexivity |]. split; [cbn; lia |]. apply tables_refl.
Qed.

Lemma encode_immediate_step (op : string) (p : Progress) :
  step_ok p (flow_progress (encode_immediate op p)).
Proof.
  destruct p as [[inst t] idx]. unfold encode_immediate.
  destruct ((atoi (advance 1 op) <? -512) || (511 <? atoi (advance 1 op)));
    cbn [flow_progress]; [apply step_ok_refl | apply step_ok_word].
Qed.

Lemma encode_label_or_matrix_step (mode : ascii) (op : string) (p : Progress) :
  step_ok p (flow_progress (encode_label_or_matrix mode op p)).
Proof.
  destruct p as [[inst t] idx]. unfold encode_label_or_matrix.
  destruct (if Ascii.eqb mode "c" then sscanf_matrix_label op else Some op)
    as [label |]; [| apply step_ok_refl].
  destruct (findSymbol t label) as [sym |]; [| apply step_ok_refl].
  set (t' := if Ascii.eqb _ "b" then _ else t).
  set (w := (strncpy _ _ ++ _)%string).
  assert (E : step_ok (inst, t, idx) (set_operand_word idx w inst, t', S idx)).
  { split; [reflexivity |]. split; [cbn; lia |].
    unfold table_of, inst_of, idx_of. cbn [fst snd]. subst t'.
    destruct (Ascii.eqb _ "b"); [| apply tables_refl].
    apply record_extended. lia. }
  clearbody t' w.
  destruct (Ascii.eqb mode "c"); [| exact E].
  destruct (sscanf_matrix_regs op) as [[r1 r2] |]; [| exact E].
  destruct ((r1 <? 0) || (7 <? r1) || (r2 <? 0) || (7 <? r2)); [exact E |].
  cbn [flow_progress].
  apply (step_ok_trans _ _ _ E). apply step_ok_word.
Qed.

Lemma process_operand1_step (c : ascii) (p : Progress) :
  step_ok p (flow_progress (fst (process_operand1 c p))).
Proof.
  destruct p as [[inst t] idx]. unfold process_operand1.
  destruct (1 <=? num_operands inst); [| apply step_ok_refl].
  destruct (Ascii.eqb c "d" && (num_operands inst =? 2)
            && Ascii.eqb (char_at (get_addressing_mode_base4 (operand2 inst)) 0) "d");
    [apply step_ok_word |].
  destruct (Ascii.eqb c "a"); [apply encode_immediate_step |].
  destruct (Ascii.eqb c "d"); [apply step_ok_word |].
  destruct (Ascii.eqb c "b" || Ascii.eqb c "c");
    [apply encode_label_or_matrix_step | apply step_ok_refl].
Qed.

Lemma process_operand2_step (shared : bool) (p : Progress) :
  step_ok p (flow_progress (process_operand2 shared p)).
Proof.
  destruct p as [[inst t] idx]. unfold process_operand2.
  destruct ((num_operands inst =? 2) && negb shared); [| apply step_ok_refl].
  set (c := char_at (get_addressing_mode_base4 (operand2 inst)) 0).
  destruct (Ascii.eqb c "a"); [apply encode_immediate_step |].
  destruct (Ascii.eqb c "d"); [apply step_ok_word |].
  destruct (Ascii.eqb c "b" || Ascii.eqb c "c");
    [apply encode_label_or_matrix_step | apply step_ok_refl].
Qed.

(** One instruction: the record keeps its slot; the usages recorded are
    addresses of operand words, at most four of them behind the opcode
    word; and when the call does not set the flag, the record counts as
    many words as its length says and the usages lie inside it. *)
Lemma encode_instruction_words_step (inst : Instruction) (t : SymTab) :
  forall inst' t' e,
    encode_instruction_words inst t = (inst', t', e) ->
    slot inst' = slot inst
    /\ exists k : nat,
        Forall2 (extended_by (fun a => inst_address inst < a
                                       <= inst_address inst + Z.of_nat k))
                t t'
        /\ (e = false ->
            num_operand_words inst' = Z.of_nat k /\ counted inst').
Proof.
  intros inst' t' e. unfold encode_instruction_words.
  destruct (strcmp0 _ "aaaa").
  { intros [= <- <- <-]. split; [reflexivity |]. exists O.
    split; [apply tables_refl | discriminate]. }
  destruct (negb (validate_instruction_operands _ _ _ _)).
  { intros [= <- <- <-]. split; [reflexivity |]. exists O.
    split; [apply tables_refl | discriminate]. }
  match goal with
  | |- context [process_operand1 ?c ?p] =>
      pose proof (process_operand1_step c p) as P1;
      destruct (process_operand1 c p) as [[q | q] shared]
  end; cbn [fst flow_progress] in P1.
  - pose proof (process_operand2_step shared q) as P2.
    pose proof (step_ok_trans _ _ _ P1 P2) as (S & I & T).
    clear P1 P2.
    destruct (process_operand2 shared q) as [[[i2 t2] k] | [[i2 t2] k]];
      unfold inst_of, idx_of, table_of in S, I, T;
      cbn [fst snd flow_progress] in S, I, T;
      intros [= <- <- <-].
    + split; [exact S |]. exists k.
      rewrite Z.add_0_r in T. split; [exact T |].
      intros E. unfold counted, set_num_operand_words in E |- *.
      cbn [num_operand_words instruction_length] in E |- *.
      split; [reflexivity |].
      apply negb_false_iff, Z.eqb_eq in E. split; [lia | exact E].
    + split; [exact S |]. exists k.
      rewrite Z.add_0_r in T. split; [exact T | discriminate].
  - destruct P1 as (S & I & T). destruct q as [[i1 t1] k].
    unfold inst_of, idx_of, table_of in S, I, T.
    cbn [fst snd] in S, I, T. intros [= <- <- <-].
    split; [exact S |]. exists k.
    rewrite Z.add_0_r in T. split; [exact T | discriminate].
Qed.

(** *** The whole list *)

Lemma tiles_le (l : list Instruction) :
  forall start stop, tiles start l stop -> start <= stop.
Proof.
  induction l as [| x l IH]; intros start stop H; cbn [tiles] in H.
  - lia.
  - destruct H as (_ & L & T). specialize (IH _ _ T). lia.
Qed.

Lemma encode_all_frame (l : list Instruction) :
  forall t g l' t' g',
    encode_all l t g = (l', t', g') ->
    map slot l' = map slot l
    /\ Forall2 (extended_by (fun _ => True)) t t'
    /\ (g = true -> g' = true).
Proof.
  induction l as [| i l IH]; intros t g l' t' g'; cbn [encode_all].
  - intros [= <- <- <-]. split; [reflexivity |].
    split; [apply tables_refl | tauto].
  - destruct (encode_instruction_words i t) as [[i1 t1] e] eqn:E.
    destruct (encode_all l t1 (g || e)) as [[l2 t2] g2] eqn:A.
    intros [= <- <- <-].
    destruct (encode_instruction_words_step _ _ _ _ _ E) as (S & k & T & _).
    destruct (IH _ _ _ _ _ A) as (S2 & T2 & G2).
    split; [cbn [map]; now rewrite S, S2 |]. split.
    + eapply tables_trans; [| | exact T | exact T2]; tauto.
    + intros ->. now apply G2.
Qed.

Lemma encode_all_success (l : list Instruction) :
  forall t g start stop l' t',
    tiles start l stop ->
    encode_all l t g = (l', t', false) ->
    g = false
    /\ Forall counted l'
    /\ Forall2 (extended_by (fun a => start < a < stop)) t t'.
Proof.
  induction l as [| i l IH]; intros t g start stop l' t' Ti;
    cbn [encode_all].
  - intros [= <- <- ->]. split; [reflexivity |].
    split; [constructor | apply tables_refl].
  - destruct (encode_instruction_words i t) as [[i1 t1] e] eqn:E.
    destruct (encode_all l t1 (g || e)) as [[l2 t2] g2] eqn:A.
    intros [= <- <- ->].
    cbn [tiles] in Ti. destruct Ti as (Ad & Len & Ti).
    destruct (IH _ _ _ _ _ _ Ti A) as (G & C & T2).
    apply orb_false_elim in G. destruct G as [-> ->].
    destruct (encode_instruction_words_step _ _ _ _ _ E)
      as (S & k & T & K).
    destruct (K eq_refl) as (Nk & C1).
    pose proof (tiles_le _ _ _ Ti) as Le.
    assert (Li : instruction_length i1 = instruction_length i)
      by (unfold slot in S; congruence).
    split; [reflexivity |]. split; [now constructor |].
    destruct C1 as [C0 C1].
    eapply tables_trans; [| | exact T | exact T2]; cbv beta; intros a H; lia.
Qed.

(** X17.  What the second pass leaves alone.  Every instruction record
    keeps its address, line number, opcode, operand count and length;
    every symbol keeps its name, address and type; a symbol that is not
    external is not touched at all, and an external symbol only gets
    usages put in front of its list; and an error flag that is set on
    entry is set on return. *)
Theorem second_pass_frame (l : list Instruction) (t : SymTab) (g : bool)
        (l' : list Instruction) (t' : SymTab) (g' : bool) :
  secondPass l t g = (l', t', g') ->
  map slot l' = map slot l
  /\ Forall2 (extended_by (fun _ => True)) t t'
  /\ (g = true -> g' = true).
Proof.
  unfold secondPass.
  destruct (encode_all l t g) as [[l1 t1] g1] eqn:A.
  intros [= <- <- <-].
  destruct (encode_all_frame _ _ _ _ _ _ A) as (S & T & G).
  split; [exact S |]. split; [exact T |].
  intros ->. now rewrite G.
Qed.

Lemma second_pass_frame_witness :
  map slot [set_num_operand_words 1
              (set_operand_word 0 "aaaab"
                 (set_machine_code "cbbaa"
                    (new_instruction 100 1 "jmp" 1 "W" "")))]
  = map slot [new_instruction 100 1 "jmp" 1 "W" ""]
  /\ Forall2 (extended_by (fun _ => True))
             [mkSymbol "W" 0 SYMBOL_EXTERNAL [];
              mkSymbol "L" 100 SYMBOL_CODE []]
             [mkSymbol "W" 0 SYMBOL_EXTERNAL [101];
              mkSymbol "L" 100 SYMBOL_CODE []].
Proof.
  destruct (second_pass_frame
              [new_instruction 100 1 "jmp" 1 "W" ""]
              [mkSymbol "W" 0 SYMBOL_EXTERNAL [];
               mkSymbol "L" 100 SYMBOL_CODE []]
              false
              [set_num_operand_words 1
                 (set_operand_word 0 "aaaab"
                    (set_machine_code "cbbaa"
                       (new_instruction 100 1 "jmp" 1 "W" "")))]
              [mkSymbol "W" 0 SYMBOL_EXTERNAL [101];
               mkSymbol "L" 100 SYMBOL_CODE []]
              false eq_refl) as (S & T & _).
  split; [exact S | exact T].
Defined.

End SecondPassMore.

(** ** More on the unit as a whole *)

Module PipelineMore.
Import CString Assembler Lexical SymbolTable Tables Operands SecondPass.
Import FirstPass Base4 OutputFiles Driver Notions MoreNotions Base4Facts.
Import FirstPassMore SecondPassMore.

(** A unit that is assembled without error went through both passes. *)
Lemma assemble_success (am : string) (r : Result) (t : SymTab)
      (out : Outputs) :
  firstPass am [] = Some r ->
  assemble am = Some (false, t, out) ->
  exists il,
    encode_all (instructionList r) (res_symTab r) false = (il, t, false)
    /\ out = mkOutputs
               (writeObjectFile (final_ic r - MEMORY_START) (final_dc r)
                                (dataList r) il)
               (writeEntriesFile t) (writeExternalsFile t).
Proof.
  intros F A. unfold assemble in A. rewrite F in A.
  destruct (res_error r) eqn:G; cbn [negb] in A.
  - inversion A.
  - unfold secondPass in A.
    destruct (encode_all (instructionList r) (res_symTab r) false)
      as [[il t1] g1].
    destruct (g1 || existsb undefined_entry t1) eqn:G1; inversion A; subst.
    apply orb_false_elim in G1. destruct G1 as [-> _].
    now exists il.
Qed.

(** *** The usages of external symbols *)

Lemma usages_from_empty (P : Z -> Prop) (t : SymTab) :
  forall t',
    Forall2 (extended_by P) t t' ->
    Forall (fun s => external_usages s = []) t ->
    Forall (fun s => (sym_type s <> SYMBOL_EXTERNAL -> external_usages s = [])
                     /\ Forall P (external_usages s)) t'.
Proof.
  induction t as [| x t IH]; intros t' H E; inversion H; subst;
    constructor.
  - inversion E as [| ? ? Ex Et]; subst.
    match goal with
    | Hx : extended_by P x _ |- _ =>
        destruct Hx as (C & U & new & N & F)
    end.
    split.
    + intros T. rewrite U; [exact Ex |].
      unfold core in C. congruence.
    + rewrite N, Ex, app_nil_r. exact F.
  - inversion E; subst. now apply IH.
Qed.

(** X18.  In a unit that is assembled without error, the usages in the
    symbol table belong to external symbols only, and every one of them
    is the address of an operand word: it lies above MEMORY_START and
    below the final instruction counter. *)
Theorem external_usages_lie_in_code
        (am : string) (r : Result) (t : SymTab) (out : Outputs) :
  firstPass am [] = Some r ->
  assemble am = Some (false, t, out) ->
  Forall (fun s =>
            (sym_type s <> SYMBOL_EXTERNAL -> external_usages s = [])
            /\ Forall (fun a => MEMORY_START < a < final_ic r)
                      (external_usages s)) t.
Proof.
  intros F A.
  destruct (assemble_success _ _ _ _ F A) as (il & E & _).
  destruct (encode_all_success _ _ _ _ _ _ _ (firstPass_tiles _ _ F) E)
    as (_ & _ & T).
  apply (usages_from_empty _ _ _ T).
  destruct (firstPass_table _ _ F) as [_ P].
  eapply Forall_impl; [| exact P]. now intros s [U _].
Qed.

Lemma external_usages_lie_in_code_witness :
  Forall (fun s =>
            (sym_type s <> SYMBOL_EXTERNAL -> external_usages s = [])
            /\ Forall (fun a => MEMORY_START < a < 104)
                      (external_usages s))
         [mkSymbol "W" 0 SYMBOL_EXTERNAL [103; 101];
          mkSymbol "L" 100 SYMBOL_CODE []].
Proof.
  apply (external_usages_lie_in_code
           (text ["L: jmp W"; "jsr W"; ".extern W"])
           (mkResult [mkSymbol "W" 0 SYMBOL_EXTERNAL [];
                      mkSymbol "L" 100 SYMBOL_CODE []]
                     [new_instruction 100 1 "jmp" 1 "W" "";
                      new_instruction 102 2 "jsr" 1 "W" ""]
                     [] 104 0 false)
           [mkSymbol "W" 0 SYMBOL_EXTERNAL [103; 101];
            mkSymbol "L" 100 SYMBOL_CODE []]
           (mkOutputs
              (Some ["ba a"; "abcba" ++ tab ++ "cbbaa";
                     "abcbb" ++ tab ++ "aaaab"; "abcbc" ++ tab ++ "dbbaa";
                     "abcbd" ++ tab ++ "aaaab"]%string)
              None
              (Some ["W abcbd"; "W abcbb"]))).
  - reflexivity.
  - reflexivity.
Defined.

(** *** The lines of the object file *)










(** *** The entries file *)

Lemma filter_agree {A} (f g : A -> bool) (l : list A) :
  Forall (fun x => f x = g x) l ->
  filter f l = filter g l /\ existsb f l = existsb g l.
Proof.
  induction 1 as [| x l E _ [IHf IHe]]; [now split |].
  cbn [filter existsb]. now rewrite E, IHf, IHe.
Qed.

Lemma entries_are_valid (P : Z -> Prop) (ic dc : Z) (t : SymTab) :
  forall t',
    Forall2 (extended_by P) t t' ->
    Forall (sym_placed ic dc) t ->
    Forall (fun s => valid_entry s = is_entry s) t'.
Proof.
  induction t as [| x t IH]; intros t' H Pl; inversion H; subst;
    constructor.
  - inversion Pl as [| ? ? Px _]; subst.
    match goal with
    | Hx : extended_by P x _ |- _ => destruct Hx as (C & _)
    end.
    unfold core in C. injection C as _ Ea Ety.
    unfold valid_entry, is_entry. rewrite Ea, Ety.
    destruct Px as [_ Px].
    destruct (sym_type x); try reflexivity. cbn.
    apply Z.leb_le. lia.
  - inversion Pl; subst. now apply IH.
Qed.

(** X20.  The entries file of a unit that is assembled without error has
    one line for every symbol of type entry, in the order of the table,
    also for an entry that was declared and never defined; there is no
    entries file exactly when the table has no entry symbol. *)
Theorem entries_file_lists_every_entry
        (am : string) (r : Result) (t : SymTab) (out : Outputs) :
  firstPass am [] = Some r ->
  assemble am = Some (false, t, out) ->
  ent_file out
  = if existsb is_entry t
    then Some (map entry_line (filter is_entry t))
    else None.
Proof.
  intros F A.
  destruct (assemble_success _ _ _ _ F A) as (il & E & ->).
  destruct (encode_all_frame _ _ _ _ _ _ E) as (_ & T & _).
  destruct (firstPass_table _ _ F) as [_ Pl].
  destruct (filter_agree _ _ _ (entries_are_valid _ _ _ _ _ T Pl)) as [Ef Ee].
  cbn [ent_file]. unfold writeEntriesFile. rewrite Ef, Ee.
  now destruct (existsb is_entry t).
Qed.

Lemma entries_file_lists_every_entry_witness :
  Some ["FOO abcbb"; "L abcba"]
  = if existsb is_entry [mkSymbol "FOO" 101 SYMBOL_ENTRY [];
                         mkSymbol "L" 100 SYMBOL_ENTRY []]
    then Some (map entry_line
                   (filter is_entry [mkSymbol "FOO" 101 SYMBOL_ENTRY [];
                                     mkSymbol "L" 100 SYMBOL_ENTRY []]))
    else None.
Proof.
  exact (entries_file_lists_every_entry
           (text ["L: stop"; ".entry L"; ".entry FOO"])
           (mkResult [mkSymbol "FOO" 101 SYMBOL_ENTRY [];
                      mkSymbol "L" 100 SYMBOL_ENTRY []]
                     [new_instruction 100 1 "stop" 0 "" ""]
                     [] 101 0 false)
           [mkSymbol "FOO" 101 SYMBOL_ENTRY [];
            mkSymbol "L" 100 SYMBOL_ENTRY []]
           (mkOutputs
              (Some ["b a"; "abcba" ++ tab ++ "ddaaa"]%string)
              (Some ["FOO abcbb"; "L abcba"])
              None)
           eq_refl eq_refl).
Defined.

End PipelineMore.

(** ** More on the data directives *)

Module DataDirectivesMore.
Import CString Assembler Lexical Tables DataDirectives Notions MoreNotions.
Import FirstPassMore.

(** *** [.string] *)

Lemma skip_space_app (ws s : string) :
  string_forall isspace ws = true ->
  skip_while isspace (ws ++ s) = skip_while isspace s.
Proof.
  induction ws as [| c ws IH]; intros H; [reflexivity |].
  cbn [string_forall] in H. apply andb_prop in H. destruct H as [C H].
  cbn [append skip_while]. rewrite C. now apply IH.
Qed.

Lemma skip_space_all (ws : string) :
  string_forall isspace ws = true -> skip_while isspace ws = EmptyString.
Proof.
  induction ws as [| c ws IH]; intros H; [reflexivity |].
  cbn [string_forall] in H. apply andb_prop in H. destruct H as [C H].
  cbn [skip_while]. rewrite C. now apply IH.
Qed.

Lemma split_last_none (s : string) (q : ascii) :
  string_forall (fun c => negb (Ascii.eqb c q)) s = true ->
  split_last s q = None.
Proof.
  induction s as [| c s IH]; intros H; [reflexivity |].
  cbn [string_forall] in H. apply andb_prop in H. destruct H as [C H].
  cbn [split_last]. rewrite (IH H).
  apply negb_true_iff in C. now rewrite C.
Qed.

Lemma split_last_app (content trail : string) (q : ascii) :
  split_last trail q = None ->
  split_last (content ++ String q trail) q = Some (content, trail).
Proof.
  intros N. induction content as [| c content IH].
  - cbn [append split_last]. now rewrite N, Ascii.eqb_refl.
  - cbn [append split_last]. now rewrite IH.
Qed.

Lemma string_forall_impl (p q : ascii -> bool) (s : string) :
  (forall c, p c = true -> q c = true) ->
  string_forall p s = true -> string_forall q s = true.
Proof.
  intros PQ. induction s as [| c s IH]; [reflexivity |].
  cbn [string_forall]. intros H. apply andb_prop in H. destruct H as [C H].
  now rewrite (PQ c C), (IH H).
Qed.

Lemma space_is_no_quote (c : ascii) :
  isspace c = true -> negb (Ascii.eqb c double_quote) = true.
Proof.
  intros S. destruct (Ascii.eqb c double_quote) eqn:E; [| reflexivity].
  apply Ascii.eqb_eq in E. subst c. discriminate S.
Qed.

(** X21.  The string directive.  For an operand text that is white space,
    a double quote, any content, a double quote and white space, the call
    succeeds and appends the character codes of the content (as signed
    characters) followed by one 0; the content may itself hold double
    quotes, since the last one closes the string.  And a call that fails
    appends nothing. *)
Theorem string_directive_stores_characters
        (ws content trail : string) (p : string) (d : Data) :
  (string_forall isspace ws = true ->
   string_forall isspace trail = true ->
   validate_string_parameters
     (ws ++ String double_quote content ++ String double_quote trail) d
   = (true,
      pushed (map char_value (list_ascii_of_string content) ++ [0])%list d))
  /\ (fst (validate_string_parameters p d) = false ->
      snd (validate_string_parameters p d) = d).
Proof.
  split.
  - intros W T. unfold validate_string_parameters.
    rewrite (skip_space_app _ _ W).
    change (String double_quote content ++ String double_quote trail)%string
      with (String double_quote (content ++ String double_quote trail)).
    cbn [skip_while].
    change (isspace double_quote) with false. cbv iota.
    rewrite Ascii.eqb_refl. cbn [negb].
    rewrite split_last_app.
    + rewrite (skip_space_all _ T).
      now rewrite pushed_app, push_chars_pushes.
    + apply split_last_none.
      revert T. apply string_forall_impl. apply space_is_no_quote.
  - unfold validate_string_parameters.
    destruct (skip_while isspace p) as [| q r]; [reflexivity |].
    destruct (negb (Ascii.eqb q double_quote)); [reflexivity |].
    destruct (split_last r double_quote) as [[c a] |]; [| reflexivity].
    destruct (skip_while isspace a); [discriminate | reflexivity].
Qed.

Lemma string_directive_stores_characters_witness :
  validate_string_parameters
    (" " ++ String double_quote "ab" ++ String double_quote " ") ([], 5)
  = (true, pushed [97; 98; 0] ([], 5)).
Proof.
  apply (proj1 (string_directive_stores_characters
                  " " "ab" " " "" ([], 5))); reflexivity.
Defined.

(** *** [.mat] *)



(** *** [.data] *)

Lemma string_length_app (a b : string) :
  String.length (a ++ b) = (String.length a + String.length b)%nat.
Proof.
  induction a as [| c a IH]; [reflexivity |].
  cbn [append String.length]. now rewrite IH.
Qed.

Lemma string_app_assoc (a b c : string) :
  ((a ++ b) ++ c = a ++ (b ++ c))%string.
Proof.
  induction a as [| x a IH]; [reflexivity |].
  cbn [append]. now rewrite IH.
Qed.

Lemma token_char (tok : string) :
  string_forall (fun c => negb (isspace c) && negb (Ascii.eqb c ",")) tok
  = true ->
  string_forall (fun c => negb (isspace c)) tok = true
  /\ string_forall (fun c => negb (Ascii.eqb c ",")) tok = true.
Proof.
  intros H. split; revert H; apply string_forall_impl; intros c C;
    apply andb_prop in C; tauto.
Qed.

Lemma string_forall_app (p : ascii -> bool) (a b : string) :
  string_forall p (a ++ b) = string_forall p a && string_forall p b.
Proof.
  induction a as [| c a IH]; [reflexivity |].
  cbn [append string_forall]. now rewrite IH, andb_assoc.
Qed.

Lemma space_is_no_comma (c : ascii) :
  isspace c = true -> negb (Ascii.eqb c ",") = true.
Proof.
  intros S. destruct (Ascii.eqb c ",") eqn:E; [| reflexivity].
  apply Ascii.eqb_eq in E. subst c. discriminate S.
Qed.

(** A match on the first character being a comma, for a character that
    is none. *)
Lemma not_comma_match {A} (c : ascii) (r : string) (f : string -> A) (g : A) :
  Ascii.eqb c "," = false ->
  match String c r with
  | String ","%char r0 => f r0
  | _ => g
  end = g.
Proof.
  intros E. destruct c as [[] [] [] [] [] [] [] []]; try reflexivity.
  discriminate E.
Qed.

Lemma span_reject_comma (a : string) :
  string_forall (fun c => negb (Ascii.eqb c ",")) a = true ->
  (forall rest,
      span_reject (a ++ String "," rest) "," = (a, String "," rest))
  /\ span_reject a "," = (a, EmptyString).
Proof.
  induction a as [| c a IH]; intros H.
  - split; reflexivity.
  - cbn [string_forall] in H. apply andb_prop in H. destruct H as [C H].
    apply negb_true_iff in C. destruct (IH H) as [I1 I2].
    split; [intros rest |]; cbn [append span_reject mem_char];
      rewrite C; cbn [orb]; [rewrite I1 | rewrite I2]; reflexivity.
Qed.

Lemma strtok_r_token (a : string) :
  a <> EmptyString ->
  string_forall (fun c => negb (Ascii.eqb c ",")) a = true ->
  (forall rest, strtok_r (a ++ String "," rest) = (Some a, rest))
  /\ strtok_r a = (Some a, EmptyString).
Proof.
  intros N H. destruct (span_reject_comma a H) as [S1 S2].
  destruct a as [| c a]; [contradiction |].
  cbn [string_forall] in H. apply andb_prop in H. destruct H as [C _].
  apply negb_true_iff in C.
  split; [intros rest |]; unfold strtok_r.
  - cbn [append skip_while]. rewrite C.
    change (String c (a ++ String "," rest))
      with (String c a ++ String "," rest)%string.
    now rewrite S1.
  - cbn [skip_while]. rewrite C. now rewrite S2.
Qed.

Lemma cut_at_token (tok : string) :
  string_forall (fun c => negb (isspace c)) tok = true ->
  cut_at tok blank_or_tab = tok.
Proof.
  unfold cut_at. induction tok as [| c tok IH]; intros H; [reflexivity |].
  cbn [string_forall] in H. apply andb_prop in H. destruct H as [C H].
  cbn [span_reject].
  assert (M : mem_char c blank_or_tab = false).
  { unfold blank_or_tab. cbn [mem_char].
    destruct (Ascii.eqb c " ") eqn:E1;
      [apply Ascii.eqb_eq in E1; subst c; discriminate C |].
    destruct (Ascii.eqb c "009") eqn:E2;
      [apply Ascii.eqb_eq in E2; subst c; discriminate C |].
    reflexivity. }
  rewrite M. specialize (IH H).
  destruct (span_reject tok blank_or_tab) as [x y]. cbn [fst] in IH |- *.
  now rewrite IH.
Qed.

Lemma skip_space_token (tok : string) :
  string_forall (fun c => negb (isspace c)) tok = true ->
  skip_while isspace tok = tok.
Proof.
  destruct tok as [| c tok]; [reflexivity |].
  cbn [string_forall skip_while]. intros H.
  apply andb_prop in H. destruct H as [C _].
  apply negb_true_iff in C. now rewrite C.
Qed.

(** One round of the loop on an item that is well written. *)
Lemma data_loop_round (fuel : nat) (ws tok rest rest' : string)
      (success : bool) (d : Data) :
  string_forall isspace ws = true ->
  number_token tok ->
  strtok_r rest = (Some (ws ++ tok)%string, rest') ->
  data_loop (S fuel) rest success d
  = data_loop fuel rest' success (push_data (atoi tok) d).
Proof.
  intros W (N & T & V & R) E. cbn [data_loop]. rewrite E.
  destruct (token_char tok T) as [Tn _].
  rewrite (skip_space_app _ _ W), (skip_space_token _ Tn),
    (cut_at_token _ Tn).
  assert (L : (strlen tok =? 0) = false).
  { apply Z.eqb_neq. unfold strlen. destruct tok; [contradiction |].
    cbn [String.length]. lia. }
  rewrite L, V. cbn [negb].
  assert (Rg : (atoi tok <? -512) || (511 <? atoi tok) = false).
  { destruct R. apply orb_false_intro; apply Z.ltb_ge; lia. }
  now rewrite Rg.
Qed.

Lemma item_no_comma (it : string * string) :
  string_forall isspace (fst it) = true ->
  number_token (snd it) ->
  (fst it ++ snd it)%string <> EmptyString
  /\ string_forall (fun c => negb (Ascii.eqb c ",")) (fst it ++ snd it) = true.
Proof.
  intros W (N & T & _). split.
  - destruct (fst it); [exact N | discriminate].
  - rewrite string_forall_app. destruct (token_char _ T) as [_ Tc].
    rewrite Tc, andb_true_r.
    revert W. apply string_forall_impl. apply space_is_no_comma.
Qed.

Lemma data_text_cons (it it2 : string * string) (items : list (string * string)) :
  data_text (it :: it2 :: items)
  = ((fst it ++ snd it) ++ String "," (data_text (it2 :: items)))%string.
Proof. reflexivity. Qed.

Lemma data_loop_items (items : list (string * string)) :
  forall it fuel d,
    Forall (fun it => string_forall isspace (fst it) = true
                      /\ number_token (snd it)) (it :: items) ->
    (String.length (data_text (it :: items)) < fuel)%nat ->
    data_loop fuel (data_text (it :: items)) true d
    = (true, pushed (map (fun it => atoi (snd it)) (it :: items)) d).
Proof.
  induction items as [| it2 items IH]; intros it fuel d F L;
    inversion F as [| ? ? [W T] F']; subst;
    destruct (item_no_comma it W T) as [Ne Nc];
    destruct (strtok_r_token _ Ne Nc) as [S1 S2];
    (destruct fuel as [| fuel]; [lia |]).
  - change (data_text [it]) with (fst it ++ snd it)%string.
    rewrite (data_loop_round fuel (fst it) (snd it) _ EmptyString true d W T S2).
    destruct fuel; reflexivity.
  - rewrite data_text_cons in L |- *.
    rewrite (data_loop_round fuel (fst it) (snd it) _ _ true d W T (S1 _)).
    rewrite IH; [reflexivity | exact F' |].
    rewrite string_length_app in L. cbn [String.length] in L. lia.
Qed.

(** X23.  The data directive.  For a list of one or more tokens,
    separated by commas, each after any white space, each accepted by
    is_valid_number with a value in [-512, 511], the call succeeds and
    appends exactly the values of the tokens, in order. *)
Theorem data_directive_stores_listed_numbers
        (items : list (string * string)) (d : Data) :
  items <> [] ->
  Forall (fun it => string_forall isspace (fst it) = true
                    /\ number_token (snd it)) items ->
  validate_data_parameters (data_text items) d
  = (true, pushed (map (fun it => atoi (snd it)) items) d).
Proof.
  intros Ne F. destruct items as [| [ws tok] items]; [contradiction |].
  clear Ne. inversion F as [| ? ? [W T] F']; subst. cbn [fst snd] in W, T.
  pose proof T as (N & Tf & _).
  destruct tok as [| c tok]; [contradiction |]. clear N.
  cbn [string_forall] in Tf. apply andb_prop in Tf. destruct Tf as [C _].
  apply andb_prop in C. destruct C as [Cs Cc].
  apply negb_true_iff in Cs, Cc.
  assert (E : skip_while isspace (data_text ((ws, String c tok) :: items))
              = data_text ((EmptyString, String c tok) :: items)).
  { destruct items as [| it2 items].
    - change (data_text [(ws, String c tok)]) with (ws ++ String c tok)%string.
      rewrite (skip_space_app _ _ W). cbn [skip_while]. now rewrite Cs.
    - rewrite !data_text_cons. cbn [fst snd].
      rewrite string_app_assoc, (skip_space_app _ _ W).
      cbn [append skip_while]. now rewrite Cs. }
  assert (F0 : Forall (fun it => string_forall isspace (fst it) = true
                                 /\ number_token (snd it))
                      ((EmptyString, String c tok) :: items)).
  { constructor; [split; [reflexivity | exact T] | exact F']. }
  unfold validate_data_parameters. rewrite E.
  assert (H : exists r, data_text ((EmptyString, String c tok) :: items)
                        = String c r).
  { destruct items as [| it2 items].
    - now exists tok.
    - rewrite data_text_cons. cbn [fst snd append]. now eexists. }
  destruct H as (r & Ed).
  rewrite Ed.
  rewrite (not_comma_match c r (fun r0 => (false, r0)) (true, String c r) Cc).
  rewrite <- Ed.
  rewrite (data_loop_items items (EmptyString, String c tok));
    [reflexivity | exact F0 | lia].
Qed.

Lemma data_directive_stores_listed_numbers_witness :
  validate_data_parameters " 7, -1,+12" ([], 0)
  = (true, pushed [7; -1; 12] ([], 0)).
Proof.
  apply (data_directive_stores_listed_numbers
           [(" ", "7"); (" ", "-1"); ("", "+12")] ([], 0)).
  - discriminate.
  - repeat constructor; try discriminate; cbn; lia.
Defined.

End DataDirectivesMore.

(** ** The first pass, line by line *)

Module LinesMore.
Import CString Assembler FirstPass Notions MoreNotions FuelFacts.
Import DataDirectivesMore.

Lemma fgets_chars_line (l : string) :
  forall k rest,
    string_forall line_char l = true ->
    (String.length l < k)%nat ->
    fgets_chars k (l ++ String "010" rest)
    = ((l ++ line_feed)%string, rest).
Proof.
  induction l as [| c l IH]; intros k rest H L.
  - destruct k as [| k]; [cbn in L; lia |]. reflexivity.
  - destruct k as [| k]; [cbn in L; lia |].
    cbn [string_forall] in H. apply andb_prop in H. destruct H as [C H].
    apply andb_prop in C. destruct C as [C _]. apply negb_true_iff in C.
    cbn [append fgets_chars]. rewrite C.
    rewrite (IH k rest H); [reflexivity | cbn in L; lia].
Qed.

Lemma fgets_chars_long (k : nat) :
  forall l rest,
    string_forall line_char l = true ->
    (k <= String.length l)%nat ->
    fgets_chars k (l ++ rest) = (strncpy l k, (advance k l ++ rest)%string).
Proof.
  induction k as [| k IH]; intros l rest H L.
  - destruct l; reflexivity.
  - destruct l as [| c l]; [cbn in L; lia |].
    cbn [string_forall] in H. apply andb_prop in H. destruct H as [C H].
    apply andb_prop in C. destruct C as [C _]. apply negb_true_iff in C.
    cbn [append fgets_chars strncpy advance]. rewrite C.
    rewrite (IH l rest H); [reflexivity | cbn in L; lia].
Qed.

Lemma advance_line (k : nat) :
  forall l, string_forall line_char l = true ->
            string_forall line_char (advance k l) = true.
Proof.
  induction k as [| k IH]; intros l H; [now destruct l |].
  destruct l as [| c l]; [reflexivity |].
  cbn [string_forall] in H. apply andb_prop in H. destruct H as [_ H].
  cbn [advance]. now apply IH.
Qed.

Lemma skip_rest_of_line_app (l rest : string) :
  string_forall line_char l = true ->
  skip_rest_of_line (l ++ String "010" rest) = rest.
Proof.
  induction l as [| c l IH]; intros H; [reflexivity |].
  cbn [string_forall] in H. apply andb_prop in H. destruct H as [C H].
  apply andb_prop in C. destruct C as [C _]. apply negb_true_iff in C.
  cbn [append skip_rest_of_line]. rewrite C. now apply IH.
Qed.

Lemma strncpy_full (k : nat) :
  forall l, (k <= String.length l)%nat -> String.length (strncpy l k) = k.
Proof.
  induction k as [| k IH]; intros l L; [now destruct l |].
  destruct l as [| c l]; [cbn in L; lia |].
  cbn [strncpy String.length]. rewrite IH; [reflexivity | cbn in L; lia].
Qed.

Lemma char_at_strncpy (k : nat) :
  forall l, (k < String.length l)%nat ->
            line_char (char_at (strncpy l (S k)) k) = true
            \/ string_forall line_char l = false.
Proof.
  induction k as [| k IH]; intros l L.
  - destruct l as [| c l]; [cbn in L; lia |].
    cbn [strncpy]. unfold char_at. cbn [String.get string_forall].
    destruct (line_char c); [now left | now right].
  - destruct l as [| c l]; [cbn in L; lia |].
    cbn [strncpy string_forall]. unfold char_at in *. cbn [String.get].
    destruct (IH l ltac:(cbn in L; lia)) as [I | I]; [now left |].
    right. rewrite I. apply andb_false_r.
Qed.

Lemma long_line_is_too_long (l : string) :
  string_forall line_char l = true ->
  (MAX_LINE_LENGTH < String.length l)%nat ->
  line_too_long (strncpy l (MAX_LINE_LENGTH + 1)) = true.
Proof.
  intros H L. unfold line_too_long, strlen.
  rewrite strncpy_full by lia.
  replace (MAX_LINE_LENGTH + 1)%nat with (S MAX_LINE_LENGTH) by lia.
  destruct (char_at_strncpy MAX_LINE_LENGTH l L) as [C | C];
    [| congruence].
  unfold line_char in C. apply andb_prop in C. destruct C as [C1 C2].
  rewrite C1, C2.
  replace (Z.of_nat MAX_LINE_LENGTH <? Z.of_nat (S MAX_LINE_LENGTH)) with true
    by (symmetry; apply Z.ltb_lt; lia).
  reflexivity.
Qed.

Lemma short_line_is_not_too_long (l : string) :
  (String.length l <= MAX_LINE_LENGTH)%nat ->
  line_too_long (l ++ line_feed) = false.
Proof.
  intros L. unfold line_too_long, strlen.
  rewrite string_length_app. cbn [line_feed String.length].
  destruct (Nat.eq_dec (String.length l) MAX_LINE_LENGTH) as [E | N].
  - assert (C : char_at (l ++ String "010" EmptyString) MAX_LINE_LENGTH
                = "010"%char).
    { rewrite <- E. clear. unfold char_at.
      induction l as [| c l IH]; [reflexivity |]. exact IH. }
    change line_feed with (String "010" EmptyString). rewrite C.
    rewrite Ascii.eqb_refl. cbn [negb]. now rewrite andb_false_r.
  - replace (Z.of_nat MAX_LINE_LENGTH <? Z.of_nat (String.length l + 1))
      with false by (symmetry; apply Z.ltb_ge; lia).
    reflexivity.
Qed.

Lemma length_file_of_cons (l : string) (lines : list string) :
  String.length (file_of (l :: lines))
  = (String.length l + 1 + String.length (file_of lines))%nat.
Proof.
  cbn [file_of fold_right]. rewrite string_length_app.
  cbn [String.length]. fold (file_of lines). lia.
Qed.

Lemma read_loop_lines (lines : list string) :
  forall fuel st,
    Forall (fun l => string_forall line_char l = true) lines ->
    (String.length (file_of lines) < fuel)%nat ->
    read_loop fuel (file_of lines) st = run_lines lines st.
Proof.
  induction lines as [| l lines IH]; intros fuel st F L.
  - destruct fuel; reflexivity.
  - inversion F as [| ? ? Hl Hr]; subst.
    destruct fuel as [| fuel]; [lia |].
    rewrite length_file_of_cons in L.
    cbn [read_loop run_lines].
    change (file_of (l :: lines))
      with (l ++ String "010" (file_of lines))%string.
    assert (G : fgets (MAX_LINE_LENGTH + 2) (l ++ String "010" (file_of lines))
                = Some (fgets_chars (MAX_LINE_LENGTH + 1)
                                    (l ++ String "010" (file_of lines)))).
    { unfold fgets. destruct l; reflexivity. }
    rewrite G.
    destruct (MAX_LINE_LENGTH <? String.length l)%nat eqn:Long.
    + apply Nat.ltb_lt in Long.
      rewrite (fgets_chars_long _ l _ Hl) by lia.
      rewrite (long_line_is_too_long l Hl Long).
      rewrite (skip_rest_of_line_app _ _ (advance_line _ _ Hl)).
      apply IH; [exact Hr | lia].
    + apply Nat.ltb_ge in Long.
      rewrite (fgets_chars_line l _ _ Hl) by lia.
      rewrite (short_line_is_not_too_long l Long).
      destruct (process_line (l ++ line_feed) (next_line st)); [| reflexivity].
      apply IH; [exact Hr | lia].
Qed.

(** X24.  The first pass works line by line.  For a file whose lines
    hold neither a line feed nor NUL and are each ended by a line feed,
    the reading loop does what run_lines does: every line is counted; a
    line of more than 81 characters only sets the error flag, and what
    follows it is read as if the line were not there; any other line is
    handed to process_line whole. *)
Theorem first_pass_reads_line_by_line (lines : list string) (table : SymTab) :
  Forall (fun l => string_forall line_char l = true) lines ->
  firstPass (file_of lines) table
  = match run_lines lines (initial_state table) with
    | None => None
    | Some st =>
        Some (mkResult (SymbolTable.updateDataSymbolsAddresses (symTab st)
                                                               (IC st))
                       (rev (temp_i_head st)) (rev (temp_d_head st))
                       (IC st) (DC st) (g_has_error st))
    end.
Proof.
  intros F. unfold firstPass.
  rewrite (read_loop_lines lines _ _ F); [reflexivity | lia].
Qed.

Lemma first_pass_reads_line_by_line_witness :
  firstPass (file_of ["stop"; "A: .data 5"]) []
  = Some (mkResult [mkSymbol "A" 101 SYMBOL_DATA []]
                   [new_instruction 100 1 "stop" 0 "" ""]
                   [mkDataItem 0 5] 101 1 false).
Proof.
  rewrite (first_pass_reads_line_by_line ["stop"; "A: .data 5"] []).
  - reflexivity.
  - repeat constructor.
Defined.

End LinesMore.

(** ** The macro processor *)

Module MacroFacts.
Import CString Assembler Lexical DataDirectives FirstPass Notions MoreNotions.
Import MacroProcessor FirstPassFacts DataDirectivesMore.

Local Arguments strcmp0 : simpl never.

(** *** The list of macros *)








(** *** Expanding a call *)

Lemma cut_at_app (a b reject : string) :
  string_forall (fun c => negb (mem_char c reject)) a = true ->
  cut_at (a ++ b) reject = (a ++ cut_at b reject)%string.
Proof.
  unfold cut_at. induction a as [| c a IH]; intros H; [reflexivity |].
  cbn [string_forall] in H. apply andb_prop in H. destruct H as [C H].
  apply negb_true_iff in C. cbn [append span_reject]. rewrite C.
  specialize (IH H). destruct (span_reject (a ++ b) reject) as [x y].
  cbn [fst] in IH |- *. now rewrite IH.
Qed.

Lemma cut_at_keeps (p : ascii -> bool) (s reject : string) :
  string_forall p s = true -> string_forall p (cut_at s reject) = true.
Proof.
  unfold cut_at. induction s as [| c s IH]; intros H; [reflexivity |].
  cbn [string_forall] in H. apply andb_prop in H. destruct H as [C H].
  cbn [span_reject]. destruct (mem_char c reject); [reflexivity |].
  specialize (IH H). destruct (span_reject s reject) as [x y].
  cbn [fst string_forall] in IH |- *. now rewrite C, IH.
Qed.

Lemma cut_at_head (s reject : string) :
  match cut_at s reject with
  | EmptyString => True
  | String c _ => exists r, s = String c r
  end.
Proof.
  unfold cut_at. destruct s as [| c s]; [exact I |].
  cbn [span_reject]. destruct (mem_char c reject); [exact I |].
  destruct (span_reject s reject). cbn [fst]. now exists s.
Qed.

Lemma skip_blanks_app (ws s : string) :
  string_forall isspace ws = true ->
  skip_whitespace_macro (ws ++ s) = skip_whitespace_macro s.
Proof.
  unfold skip_whitespace_macro.
  induction ws as [| c ws IH]; intros H; [reflexivity |].
  cbn [string_forall] in H. apply andb_prop in H. destruct H as [C H].
  cbn [append skip_while]. rewrite C. now apply IH.
Qed.

Lemma strchr_none (s : string) (c : ascii) :
  string_forall (fun d => negb (Ascii.eqb d c)) s = true ->
  strchr s c = None.
Proof.
  induction s as [| d s IH]; intros H; [reflexivity |].
  cbn [string_forall] in H. apply andb_prop in H. destruct H as [C H].
  apply negb_true_iff in C. cbn [strchr]. rewrite C. now apply IH.
Qed.

Lemma take_word (name rest : string) :
  string_forall (fun c => negb (isspace c)) name = true ->
  match rest with
  | EmptyString => True
  | String c _ => isspace c = true
  end ->
  take_while (fun c => negb (isspace c)) (name ++ rest) = name.
Proof.
  intros H R. induction name as [| c name IH].
  - destruct rest as [| d rest]; [reflexivity |].
    cbn [append take_while]. now rewrite R.
  - cbn [string_forall] in H. apply andb_prop in H. destruct H as [C H].
    cbn [append take_while]. rewrite C. now rewrite (IH H).
Qed.

Lemma blank_is_space (c : ascii) :
  mem_char c blank_or_tab = true -> isspace c = true.
Proof.
  unfold blank_or_tab. cbn [mem_char]. intros H.
  destruct (Ascii.eqb c " ") eqn:E1;
    [apply Ascii.eqb_eq in E1; now subst c |].
  destruct (Ascii.eqb c "009") eqn:E2;
    [apply Ascii.eqb_eq in E2; now subst c | discriminate H].
Qed.

Lemma blank_is_no_line_end (c : ascii) :
  mem_char c blank_or_tab = true -> negb (mem_char c line_end) = true.
Proof.
  unfold blank_or_tab. cbn [mem_char]. intros H.
  destruct (Ascii.eqb c " ") eqn:E1;
    [apply Ascii.eqb_eq in E1; now subst c |].
  destruct (Ascii.eqb c "009") eqn:E2;
    [apply Ascii.eqb_eq in E2; now subst c | discriminate H].
Qed.

Lemma no_space_is_no_line_end (c : ascii) :
  negb (isspace c) = true -> negb (mem_char c line_end) = true.
Proof.
  intros H. apply negb_true_iff in H. apply negb_true_iff.
  unfold line_end. cbn [mem_char].
  destruct (Ascii.eqb c "013") eqn:E1;
    [apply Ascii.eqb_eq in E1; subst c; discriminate H |].
  destruct (Ascii.eqb c "010") eqn:E2;
    [apply Ascii.eqb_eq in E2; subst c; discriminate H | reflexivity].
Qed.

(** The first word of a call and what is cut from the rest of the
    line. *)
Lemma call_first_word (name rest : string) :
  call_word name -> call_rest rest ->
  first_word (name ++ cut_at rest line_end) = name
  /\ strchr (name ++ cut_at rest line_end) ":" = None.
Proof.
  intros (L & F & _) (Rc & Rh).
  assert (Fs : string_forall (fun c => negb (isspace c)) name = true).
  { revert F. apply string_forall_impl. intros c C.
    apply andb_prop in C. tauto. }
  assert (Fc : string_forall (fun c => negb (Ascii.eqb c ":")) name = true).
  { revert F. apply string_forall_impl. intros c C.
    apply andb_prop in C. tauto. }
  split.
  - unfold first_word. rewrite take_word; [now apply strncpy_short | exact Fs |].
    pose proof (cut_at_head rest line_end) as H.
    destruct (cut_at rest line_end) as [| c r]; [exact I |].
    destruct H as (r' & ->). exact Rh.
  - apply strchr_none. rewrite string_forall_app, Fc.
    now apply cut_at_keeps.
Qed.

(** X26.  Expanding a call without a label.  When the first word of a
    line, after blanks and tabs, is the name of a macro of the list, and
    the line holds no colon, expandMacroInLine returns the lines of the
    first macro of that name, joined by line feeds; the indentation and
    whatever follows the name on the line are dropped. *)
Theorem macro_call_is_replaced_by_body
        (ws name rest : string) (l : list Macro) (m : Macro) :
  blanks ws = true ->
  call_word name -> call_rest rest ->
  find_macro l name = Some m ->
  expandMacroInLine (ws ++ name ++ rest) l
  = String.concat line_feed (macro_lines m).
Proof.
  intros W Cw Cr Fm.
  destruct (call_first_word name rest Cw Cr) as [Fw Sc].
  pose proof Cw as (L & F & H).
  assert (Fs : string_forall (fun c => negb (mem_char c line_end)) name = true).
  { revert F. apply string_forall_impl. intros c C.
    apply andb_prop in C. destruct C as [C _].
    now apply no_space_is_no_line_end. }
  unfold expandMacroInLine.
  rewrite cut_at_app
    by (revert W; apply string_forall_impl, blank_is_no_line_end).
  rewrite (cut_at_app name rest _ Fs).
  rewrite skip_blanks_app
    by (revert W; apply string_forall_impl, blank_is_space).
  destruct name as [| c name]; [contradiction |].
  assert (Sp : isspace c = false).
  { cbn [string_forall] in F. apply andb_prop in F. destruct F as [C _].
    apply andb_prop in C. destruct C as [C _]. now apply negb_true_iff in C. }
  unfold skip_whitespace_macro.
  change (String c name ++ cut_at rest line_end)%string
    with (String c (name ++ cut_at rest line_end)) in *.
  cbn [skip_while]. rewrite Sp, H, Sc, Fw, Fm. reflexivity.
Qed.

Lemma macro_call_is_replaced_by_body_witness :
  expandMacroInLine
    ("  m1 r3, r4" ++ line_feed)
    [mkMacro "m2" ["stop"]; mkMacro "m1" [" inc r1"; " dec r2"]]
  = (" inc r1" ++ line_feed ++ " dec r2")%string.
Proof.
  apply (macro_call_is_replaced_by_body
           "  " "m1" (" r3, r4" ++ line_feed)
           [mkMacro "m2" ["stop"]; mkMacro "m1" [" inc r1"; " dec r2"]]
           (mkMacro "m1" [" inc r1"; " dec r2"])).
  - reflexivity.
  - repeat split; cbn; lia.
  - now split.
  - reflexivity.
Defined.

Lemma skip_while_app_stop (p : ascii -> bool) (a : string) (c : ascii)
      (x : string) :
  p c = false ->
  skip_while p (a ++ String c x) = (skip_while p a ++ String c x)%string.
Proof.
  intros C. induction a as [| d a IH].
  - cbn [append skip_while]. now rewrite C.
  - cbn [append skip_while]. destruct (p d); [exact IH | reflexivity].
Qed.

Lemma skip_while_keeps (p q : ascii -> bool) (s : string) :
  string_forall q s = true -> string_forall q (skip_while p s) = true.
Proof.
  induction s as [| c s IH]; intros H; [reflexivity |].
  cbn [skip_while]. destruct (p c); [| exact H].
  cbn [string_forall] in H. apply andb_prop in H. now apply IH.
Qed.

Lemma strchr_app (a b : string) (c : ascii) :
  string_forall (fun d => negb (Ascii.eqb d c)) a = true ->
  strchr (a ++ String c b) c = Some (String c b).
Proof.
  induction a as [| d a IH]; intros H.
  - cbn [append strchr]. now rewrite Ascii.eqb_refl.
  - cbn [string_forall] in H. apply andb_prop in H. destruct H as [C H].
    apply negb_true_iff in C. cbn [append strchr]. rewrite C. now apply IH.
Qed.

(** X27.  Expanding a call behind a label.  When the line is some text
    without colon, semicolon or line end, a colon, blanks, the name of a
    macro of the list and then nothing or white space and text without
    a colon, expandMacroInLine returns the line up to the name followed
    by the lines of the macro joined by line feeds: the label stays in
    front of the first line of the body.  When the macro has no lines it
    returns the empty text, and the label is lost. *)
Theorem labelled_macro_call_keeps_label
        (pre ws name rest : string) (l : list Macro) (m : Macro) :
  label_text pre ->
  blanks ws = true ->
  call_word name -> call_rest rest ->
  find_macro l name = Some m ->
  expandMacroInLine (pre ++ String ":" (ws ++ name ++ rest)) l
  = match macro_lines m with
    | [] => EmptyString
    | _ :: _ =>
        ((pre ++ String ":" ws)
           ++ String.concat line_feed (macro_lines m))%string
    end.
Proof.
  intros P W Cw Cr Fm.
  destruct (call_first_word name rest Cw Cr) as [Fw Sc].
  pose proof Cw as (L & F & H).
  assert (Pe : string_forall (fun c => negb (mem_char c line_end)) pre = true).
  { revert P. apply string_forall_impl. intros c C.
    apply andb_prop in C. destruct C as [C _].
    apply andb_prop in C. tauto. }
  assert (Pc : string_forall (fun c => negb (Ascii.eqb c ":")) pre = true).
  { revert P. apply string_forall_impl. intros c C.
    apply andb_prop in C. destruct C as [C _].
    apply andb_prop in C. tauto. }
  assert (Ps : string_forall (fun c => negb (Ascii.eqb c ";")) pre = true).
  { revert P. apply string_forall_impl. intros c C.
    apply andb_prop in C. tauto. }
  assert (We : string_forall (fun c => negb (mem_char c line_end)) ws = true)
    by (revert W; apply string_forall_impl, blank_is_no_line_end).
  assert (Ws : string_forall isspace ws = true)
    by (revert W; apply string_forall_impl, blank_is_space).
  assert (Ne : string_forall (fun c => negb (mem_char c line_end)) name = true).
  { revert F. apply string_forall_impl. intros c C.
    apply andb_prop in C. destruct C as [C _].
    now apply no_space_is_no_line_end. }
  set (head := (pre ++ String ":" ws)%string).
  assert (Split : forall x, (pre ++ String ":" (ws ++ name ++ x))%string
                            = (head ++ (name ++ x))%string).
  { intros x. subst head. rewrite string_app_assoc. reflexivity. }
  assert (Cut : cut_at (pre ++ String ":" (ws ++ name ++ rest)) line_end
                = (pre ++ String ":" (ws ++ name ++ cut_at rest line_end))%string).
  { rewrite (cut_at_app pre _ _ Pe). f_equal.
    change (String ":" (ws ++ name ++ rest))
      with (String ":" EmptyString ++ (ws ++ name ++ rest))%string.
    rewrite (cut_at_app (String ":" EmptyString) _ line_end eq_refl).
    cbn [append]. f_equal.
    now rewrite (cut_at_app ws _ _ We), (cut_at_app name _ _ Ne). }
  unfold expandMacroInLine. cbv zeta. rewrite Cut.
  unfold skip_whitespace_macro.
  rewrite (skip_while_app_stop isspace pre ":" _ eq_refl).
  assert (K1 : string_forall (fun c => negb (Ascii.eqb c ":"))
                             (skip_while isspace pre) = true)
    by now apply skip_while_keeps.
  assert (K2 : string_forall (fun c => negb (Ascii.eqb c ";"))
                             (skip_while isspace pre) = true)
    by now apply skip_while_keeps.
  assert (Colon : strchr (skip_while isspace pre
                          ++ String ":" (ws ++ name ++ cut_at rest line_end)) ":"
                  = Some (String ":" (ws ++ name ++ cut_at rest line_end)))
    by now apply strchr_app.
  assert (Semi : exists c r,
             (skip_while isspace pre
              ++ String ":" (ws ++ name ++ cut_at rest line_end))%string
             = String c r /\ Ascii.eqb c ";" = false).
  { destruct (skip_while isspace pre) as [| c0 p0].
    - eexists _, _. split; reflexivity.
    - cbn [string_forall] in K2. apply andb_prop in K2. destruct K2 as [C _].
      apply negb_true_iff in C. eexists _, _. split; [reflexivity | exact C]. }
  destruct Semi as (c & r & Et & Ec).
  rewrite Colon. rewrite Et, Ec. cbn [advance].
  fold (skip_whitespace_macro (ws ++ name ++ cut_at rest line_end)).
  rewrite (skip_blanks_app ws _ Ws).
  destruct name as [| c1 name]; [contradiction |].
  assert (Sp : isspace c1 = false).
  { cbn [string_forall] in F. apply andb_prop in F. destruct F as [C _].
    apply andb_prop in C. destruct C as [C _]. now apply negb_true_iff in C. }
  unfold skip_whitespace_macro.
  change (String c1 name ++ cut_at rest line_end)%string
    with (String c1 (name ++ cut_at rest line_end)) in *.
  cbn [skip_while]. rewrite Sp, Fw, Fm.
  destruct (macro_lines m) as [| b bs]; [reflexivity |].
  f_equal.
  change (String c1 (name ++ cut_at rest line_end))
    with (String c1 name ++ cut_at rest line_end)%string.
  rewrite (Split rest), (Split (cut_at rest line_end)).
  rewrite (string_length_app head).
  replace (String.length head
           + String.length (String c1 name ++ cut_at rest line_end)
           - String.length (String c1 name ++ cut_at rest line_end))%nat
    with (String.length head) by lia.
  apply SecondPassMore.strncpy_app.
Qed.

Lemma labelled_macro_call_keeps_label_witness :
  expandMacroInLine
    ("LOOP: m1" ++ line_feed)
    [mkMacro "m1" [" inc r1"; " dec r2"]]
  = ("LOOP:  inc r1" ++ line_feed ++ " dec r2")%string.
Proof.
  apply (labelled_macro_call_keeps_label
           "LOOP" " " "m1" line_feed
           [mkMacro "m1" [" inc r1"; " dec r2"]]
           (mkMacro "m1" [" inc r1"; " dec r2"])).
  - reflexivity.
  - reflexivity.
  - repeat split; cbn; lia.
  - now split.
  - reflexivity.
Defined.

(** *** Collecting a definition *)














End MacroFacts.
